(** * Verification of maven-repository-builder: artifact list model, filters,
      classifier resolver, aggregator and Indy client (shallow embedding). *)

From Stdlib Require Import ZArith String Ascii List Lia.
From stdpp Require Import base gmap strings list sorting pretty.

Import ListNotations.
Open Scope string_scope.

(** ** Python run-time outcomes *)

(** The exceptions the modelled code can raise. *)
Inductive PyError :=
  | ValueError (msg : string)
  | KeyError
  | IndexError
  | RuntimeError (msg : string).

(** Result of a Python call: a returned value, a raised exception, or
    [sys.exit(code)]. *)
Inductive Outcome (A : Type) :=
  | Ret (a : A)
  | Raise (e : PyError)
  | Exit (code : Z).
Arguments Ret {A} a.
Arguments Raise {A} e.
Arguments Exit {A} code.

Definition obind {A B} (m : Outcome A) (k : A -> Outcome B) : Outcome B :=
  match m with
  | Ret a => k a
  | Raise e => Raise e
  | Exit c => Exit c
  end.

#[global] Instance Outcome_ret : MRet Outcome := fun A a => Ret a.
#[global] Instance Outcome_bind : MBind Outcome := fun A B k m => obind m k.

(** Python's [str.split(sep)] with a one-character separator: every
    separator splits, empty parts are kept. *)
Fixpoint py_split (sep : ascii) (s : string) : list string :=
  match s with
  | EmptyString => [""]
  | String c s' =>
      let rest := py_split sep s' in
      if Ascii.eqb c sep then "" :: rest
      else match rest with
           | r :: rs => String c r :: rs
           | [] => [String c ""]
           end
  end.

(** Python's [sep.join(l)]. *)
Fixpoint py_join (sep : string) (l : list string) : string :=
  match l with
  | [] => ""
  | [x] => x
  | x :: xs => x ++ sep ++ py_join sep xs
  end.

(** Python's [str.endswith]. *)
Definition py_endswith (s suffix : string) : bool :=
  (String.length suffix <=? String.length s)%nat &&
  bool_decide (substring (String.length s - String.length suffix) (String.length suffix) s = suffix).

(** ** maven_artifact.py *)

Record MavenArtifact := mkMavenArtifact {
  groupId : string;
  artifactId : string;
  artifactType : option string;
  version : string;
  classifier : string
}.

Definition getGA (a : MavenArtifact) : string := groupId a ++ ":" ++ artifactId a.

Definition getGATCV (a : MavenArtifact) : string :=
  groupId a ++ ":" ++ artifactId a
  ++ (match artifactType a with Some t => if bool_decide (t = "") then "" else ":" ++ t | None => "" end)
  ++ (if bool_decide (classifier a = "") then "" else ":" ++ classifier a)
  ++ ":" ++ version a.

Definition scopes : list string := ["compile"; "test"; "provided"; "runtime"; "system"; "import"].

(** [l[i]] for a non-negative index: [IndexError] out of range. *)
Definition py_index {A} (l : list A) (i : nat) : Outcome A :=
  match nth_error l i with
  | Some x => Ret x
  | None => Raise IndexError
  end.

(** [MavenArtifact.createFromGAV]; the class-level [gav_cache] dictionary is
    threaded explicitly. [sys.exit(1)] is the [Exit 1] outcome. *)
Definition createFromGAV (gav_cache : gmap string MavenArtifact) (gav : string)
    : Outcome (MavenArtifact * gmap string MavenArtifact) :=
  match gav_cache !! gav with
  | Some r => Ret (r, gav_cache)
  | None =>
    let gavParts := py_split ":" gav in
    if negb (existsb (Nat.eqb (length gavParts)) [3; 4; 5; 6]%nat) then Exit 1
    else
      groupId ← py_index gavParts 0;
      artifactId ← py_index gavParts 1;
      let effectiveParts :=
        if bool_decide (List.last gavParts "" ∈ scopes) then (length gavParts - 1)%nat
        else length gavParts in
      res ← (if Nat.eqb effectiveParts 3 then
                version ← py_index gavParts 2; Ret ("", "", version)
              else
                artifactType ← py_index gavParts 2;
                if Nat.eqb effectiveParts 4 then
                  version ← py_index gavParts 3; Ret (artifactType, "", version)
                else
                  classifier ← py_index gavParts 3;
                  version ← py_index gavParts 4;
                  Ret (artifactType, classifier, version));
      let '(artifactType, classifier, version) := res in
      let result := mkMavenArtifact groupId artifactId (Some artifactType) version classifier in
      Ret (result, <[gav := result]> gav_cache)
  end.

(** ** artifact_list_builder.py: ArtifactType, ArtifactSpec *)

(** One edge of a relationship path; the declaring and target artifacts are
    kept as their GATCV strings. *)
Record ArtifactRelationship := mkArtifactRelationship {
  declaring : option string;
  target : option string;
  rel_type : string;
  extra : option string
}.

Definition RelPath := list ArtifactRelationship.

Record ArtifactType := mkArtifactType {
  artType : string;
  mainType : bool;
  classifiers : gset string
}.

Record ArtifactSpec := mkArtifactSpec {
  url : string;
  artTypes : gmap string ArtifactType;
  paths : list RelPath
}.

(** [ArtifactSpec.merge]: mutates [self]; the model returns the new [self]. *)
Definition merge (self other : ArtifactSpec) : Outcome ArtifactSpec :=
  if negb (bool_decide (url other = "")) && negb (bool_decide (url self = url other)) then
    Raise (ValueError "Cannot merge artifact specs with different URLs")
  else if existsb (fun kv => bool_decide (is_Some (artTypes self !! kv.1)))
                  (map_to_list (artTypes other)) then
    Raise (ValueError "Cannot merge artifact specs with overlapping types")
  else
    Ret {| url := url self;
           artTypes := artTypes other ∪ artTypes self;  (* self.artTypes.update(other.artTypes) *)
           paths := paths self ++ paths other |}.

(** [ArtifactSpec.containsMain]. *)
Definition containsMain (s : ArtifactSpec) : bool :=
  existsb (fun kv => mainType kv.2) (map_to_list (artTypes s)).

Definition set_paths (s : ArtifactSpec) (p : list RelPath) : ArtifactSpec :=
  mkArtifactSpec (url s) (artTypes s) p.
Definition set_artTypes (s : ArtifactSpec) (ats : gmap string ArtifactType) : ArtifactSpec :=
  mkArtifactSpec (url s) ats (paths s).
Definition set_classifiers (t : ArtifactType) (cls : gset string) : ArtifactType :=
  mkArtifactType (artType t) (mainType t) cls.

(** The artifact list: ["<groupId>:<artifactId>" -> priority -> version -> spec]. *)
Abbreviation VersionMap := (gmap string ArtifactSpec).
Abbreviation PriorityMap := (gmap Z VersionMap).
Abbreviation ArtifactList := (gmap string PriorityMap).

(** ** Dictionary iteration helpers *)

(** [for k in d.keys(): ...] where the body either replaces [d[k]] or
    deletes it, and touches no other key. *)
Definition updateEach {K V} `{Countable K} (f : K -> V -> option V) (m : gmap K V) : gmap K V :=
  foldl (fun acc kv =>
           match f kv.1 kv.2 with
           | Some v' => <[kv.1 := v']> acc
           | None => delete kv.1 acc
           end) m (map_to_list m).

(** The same loop when the body may raise. *)
Definition updateEachO {K V} `{Countable K} (f : K -> V -> Outcome (option V)) (m : gmap K V)
    : Outcome (gmap K V) :=
  foldl (fun acc kv =>
           acc' ← acc;
           r ← f kv.1 kv.2;
           Ret (match r with
                | Some v' => <[kv.1 := v']> acc'
                | None => delete kv.1 acc'
                end)) (Ret m) (map_to_list m).

(** [if not d: del parent[key]]: keep a container only while it is non-empty. *)
Definition nonEmpty {K V} `{Countable K} (m : gmap K V) : option (gmap K V) :=
  if Nat.eqb (size m) 0 then None else Some m.

(** [d[k]] raising [KeyError]. *)
Definition py_get {K V} `{Countable K} (m : gmap K V) (k : K) : Outcome V :=
  match m !! k with
  | Some v => Ret v
  | None => Raise KeyError
  end.

Fixpoint count_char (c : ascii) (s : string) : nat :=
  match s with
  | EmptyString => 0
  | String x s' => (if Ascii.eqb x c then 1 else 0) + count_char c s'
  end.

(** ** maven_repo_util (not part of the sources) *)

(** A compiled regular expression, by its pattern text. *)
Record RegExp := mkRegExp { re_pattern : string; re_exact : bool }.

(** Modelled from the spec: [maven_repo_util.getRegExpsFromStrings], which is
    not among the sources; each configured pattern string becomes one compiled
    pattern, in order, keeping its text (and so its colons). *)
Definition getRegExpsFromStrings (strings : list string) (exact : bool) : list RegExp :=
  map (fun s => mkRegExp s exact) strings.

Section FilterModel.

(** [regExp.match(s)] succeeds: the regular expression semantics of the
    configured patterns is left abstract. *)
Variable rmatch : RegExp -> string -> bool.

(** Modelled from the spec: [maven_repo_util.somethingMatch], not among the
    sources; true when one of the patterns matches. *)
Definition somethingMatch (regExps : list RegExp) (s : string) : bool :=
  existsb (fun r => rmatch r s) regExps.

(** [vle a b]: version [a] is lower than or equal to version [b] for the
    external version comparator. *)
Variable vle : string -> string -> bool.

Definition version_ge (a b : string) : Prop := vle b a = true.
#[local] Instance version_ge_dec : RelDecision version_ge.
Proof. intros a b. unfold version_ge. apply _. Defined.

(** Modelled from the spec: [maven_repo_util._sortVersionsWithAtlas], not
    among the sources; the versions sorted from the highest to the lowest
    by the external version comparator. *)
Definition sortVersionsWithAtlas (versions : list string) : list string :=
  merge_sort version_ge versions.

(** [maven_repo_util.gavExists(repoUrl, artifact)]: an external existence
    probe of the artifact in a repository. *)
Variable gavExists : string -> MavenArtifact -> bool.

Record Configuration := mkConfiguration {
  excludedGAVs : list string;
  excludedTypes : list string;
  gatcvWhitelist : list string;
  singleVersion : bool;
  multiVersionGAs : list string;
  excludedRepositories : list string
}.

Variable config : Configuration.

(** *** Filter._filterExcludedGAVs *)

Definition gatcvString (ga artType classifier version : string) : string :=
  if bool_decide (classifier = "") then ga ++ ":" ++ artType ++ ":" ++ version
  else ga ++ ":" ++ artType ++ ":" ++ classifier ++ ":" ++ version.

(** The loop body for one artifact type of a version entry: matching
    classifiers are removed; [None] deletes the type. *)
Definition excludedGATCVType (gatcvRegExps : list RegExp) (ga version artType : string)
    (at0 : ArtifactType) : option ArtifactType :=
  let at1 :=
    foldl (fun at_ classifier =>
             if somethingMatch gatcvRegExps (gatcvString ga artType classifier version)
             then set_classifiers at_ (classifiers at_ ∖ {[classifier]})
             else at_) at0 (elements (classifiers at0)) in
  if Nat.eqb (size (classifiers at1)) 0 then None else Some at1.

(** The loop body for one version entry: [None] deletes the entry. *)
Definition excludedGAVsLeaf (gavRegExps gatcvRegExps : list RegExp) (ga version : string)
    (artSpec : ArtifactSpec) : option ArtifactSpec :=
  let gav := ga ++ ":" ++ version in
  if somethingMatch gavRegExps gav then None
  else
    let ats := updateEach (excludedGATCVType gatcvRegExps ga version) (artTypes artSpec) in
    let artSpec' := set_artTypes artSpec ats in
    if containsMain artSpec' then Some artSpec' else None.

Definition _filterExcludedGAVs (artifactList : ArtifactList) : ArtifactList :=
  let regExps := getRegExpsFromStrings (excludedGAVs config) true in
  let gatcvRegExps := filter (fun r => 2 < count_char ":" (re_pattern r))%nat regExps in
  let gavRegExps := filter (fun r => ~ (2 < count_char ":" (re_pattern r)))%nat regExps in
  updateEach (fun ga pm =>
    nonEmpty (updateEach (fun priority vm =>
      nonEmpty (updateEach (fun version artSpec =>
        excludedGAVsLeaf gavRegExps gatcvRegExps ga version artSpec) vm)) pm)) artifactList.

(** *** Filter._filterExcludedTypes *)

(** [(groupId, artifactId) = ga.split(':')]. *)
Definition unpack2 (ga : string) : Outcome (string * string) :=
  match py_split ":" ga with
  | [g; a] => Ret (g, a)
  | _ => Raise (ValueError "wrong number of values to unpack")
  end.

Definition excludedTypesLeaf (regExps : list RegExp) (exclTypes : list string) (ga version : string)
    (artSpec : ArtifactSpec) : Outcome (option ArtifactSpec) :=
  ats ← foldl (fun acc (kv : string * ArtifactType) =>
                 ats ← acc;
                 let '(artType, artTypeObj) := kv in
                 if bool_decide (artType ∈ exclTypes) then
                   ga2 ← unpack2 ga;
                   let '(groupId, artifactId) := ga2 in
                   let cls :=
                     foldl (fun cls classifier =>
                              let art := mkMavenArtifact groupId artifactId (Some artType) version classifier in
                              if somethingMatch regExps (getGATCV art) then cls
                              else cls ∖ {[classifier]})
                           (classifiers artTypeObj) (elements (classifiers artTypeObj)) in
                   if Nat.eqb (size cls) 0 then Ret (delete artType ats)
                   else Ret (<[artType := set_classifiers artTypeObj cls]> ats)
                 else Ret ats)
              (Ret (artTypes artSpec)) (map_to_list (artTypes artSpec));
  let noMain := negb (existsb (fun kv => mainType kv.2) (map_to_list ats)) in
  if Nat.eqb (size ats) 0 || noMain then Ret None
  else Ret (Some (set_artTypes artSpec ats)).

Definition _filterExcludedTypes (artifactList : ArtifactList) : Outcome ArtifactList :=
  let regExps := getRegExpsFromStrings (gatcvWhitelist config) true in
  let exclTypes := excludedTypes config in
  updateEachO (fun ga pm =>
    pm' ← updateEachO (fun priority vm =>
      vm' ← updateEachO (fun version artSpec =>
        excludedTypesLeaf regExps exclTypes ga version artSpec) vm;
      Ret (nonEmpty vm')) pm;
    Ret (nonEmpty pm')) artifactList.

(** *** Filter._filterDuplicates *)

(** Inner loop for one [version] of bucket [priority]: every higher
    priority holding the same version loses it, after its paths were
    appended to the kept entry. *)
Definition dupVersionStep (priority : Z) (version : string) (pm : PriorityMap) : PriorityMap :=
  foldl (fun acc pr =>
           if (pr <=? priority)%Z then acc
           else match acc !! pr ≫= (fun vm => vm !! version) with
                | Some dup =>
                    let acc1 :=
                      if (0 <? length (paths dup))%nat then
                        alter (alter (fun s => set_paths s (paths s ++ paths dup)) version) priority acc
                      else acc in
                    alter (delete version) pr acc1
                | None => acc
                end) pm (map fst (map_to_list pm)).

(** One iteration of [for priority in sorted(artifactList[ga].keys())]. *)
Definition dupPriorityStep (pm : PriorityMap) (priority : Z) : PriorityMap :=
  let versions := map fst (map_to_list (default ∅ (pm !! priority))) in
  let pm1 := foldl (fun acc version => dupVersionStep priority version acc) pm versions in
  if Nat.eqb (size (default ∅ (pm1 !! priority))) 0 then delete priority pm1 else pm1.

Definition dupGA (pm : PriorityMap) : PriorityMap :=
  foldl dupPriorityStep pm (merge_sort Z.le (map fst (map_to_list pm))).

Definition _filterDuplicates (artifactList : ArtifactList) : ArtifactList :=
  updateEach (fun ga pm => nonEmpty (dupGA pm)) artifactList.

(** *** Filter._filterMultipleVersions *)

Definition multipleVersionsGA (pm : PriorityMap) : Outcome PriorityMap :=
  let priorities := merge_sort Z.le (map fst (map_to_list pm)) in
  priority ← py_index priorities 0;
  let bucket := default ∅ (pm !! priority) in
  let versions := map fst (map_to_list bucket) in
  let versions := if (1 <? length versions)%nat then sortVersionsWithAtlas versions else versions in
  let bucket' := foldl (fun b version => delete version b) bucket (drop 1 versions) in
  let pm1 := <[priority := bucket']> pm in
  Ret (foldl (fun m p => delete p m) pm1 (drop 1 priorities)).

Definition _filterMultipleVersions (artifactList : ArtifactList) : Outcome ArtifactList :=
  let regExps := getRegExpsFromStrings (multiVersionGAs config) false in
  updateEachO (fun ga pm =>
    if somethingMatch regExps ga then Ret (Some pm)
    else pm' ← multipleVersionsGA pm; Ret (nonEmpty pm')) artifactList.

(** *** Filter._filterExcludedRepositories *)

(** [_artifactInRepos]: the artifact is reported when one repository has it. *)
Definition artifactInRepos (repositories : list string) (artifact : MavenArtifact) : bool :=
  existsb (fun repoUrl => gavExists repoUrl artifact) repositories.

(** The pairs [(artifact, priority)] the workers append to [delArtifacts];
    the list is taken in submission order (the workers append in completion
    order, which does not change the deletions below). *)
Definition delArtifacts (artifactList : ArtifactList) : Outcome (list (MavenArtifact * Z)) :=
  foldl (fun acc (gapm : string * PriorityMap) =>
           dels ← acc;
           let '(ga, pm) := gapm in
           groupId ← py_index (py_split ":" ga) 0;
           artifactId ← py_index (py_split ":" ga) 1;
           Ret (app dels
                (flat_map (fun (pvm : Z * VersionMap) =>
                  let '(priority, vm) := pvm in
                  flat_map (fun (vs : string * ArtifactSpec) =>
                    let artifact := mkMavenArtifact groupId artifactId (Some "pom") vs.1 "" in
                    if artifactInRepos (excludedRepositories config) artifact
                    then [(artifact, priority)] else []) (map_to_list vm)) (map_to_list pm))))
        (Ret []) (map_to_list artifactList).

Definition deleteFound (acc : Outcome ArtifactList) (ap : MavenArtifact * Z) : Outcome ArtifactList :=
  artifactList ← acc;
  let '(artifact, priority) := ap in
  let ga := getGA artifact in
  pm ← py_get artifactList ga;
  vm ← py_get pm priority;
  _ ← py_get vm (version artifact);
  let vm' := delete (version artifact) vm in
  let pm' := if Nat.eqb (size vm') 0 then delete priority pm else <[priority := vm']> pm in
  Ret (if Nat.eqb (size pm') 0 then delete ga artifactList else <[ga := pm']> artifactList).

Definition _filterExcludedRepositories (artifactList : ArtifactList) : Outcome ArtifactList :=
  dels ← delArtifacts artifactList;
  foldl deleteFound (Ret artifactList) dels.

(** *** Filter.filter *)

Definition filter_ (artifactList : ArtifactList) : Outcome ArtifactList :=
  al1 ← (if bool_decide (excludedGAVs config = []) then Ret artifactList
         else Ret (_filterExcludedGAVs artifactList));
  al2 ← (if bool_decide (excludedTypes config = []) then Ret al1 else _filterExcludedTypes al1);
  let al3 := _filterDuplicates al2 in
  al4 ← (if singleVersion config then _filterMultipleVersions al3 else Ret al3);
  (if bool_decide (excludedRepositories config = []) then Ret al4
   else _filterExcludedRepositories al4).

End FilterModel.

(** ** Python regular expressions (the subset used by the classifier resolver) *)

Module Regex.

Inductive charclass :=
  | CLit (c : ascii)   (* a literal (or escaped) character *)
  | CAny               (* [.]: any character but a newline *)
  | CNotDot            (* [[^.]] *)
  | CDigit.            (* [\d] *)

Definition cls_match (cc : charclass) (c : ascii) : bool :=
  match cc with
  | CLit d => Ascii.eqb c d
  | CAny => negb (Ascii.eqb c "010"%char)
  | CNotDot => negb (Ascii.eqb c "."%char)
  | CDigit => (48 <=? nat_of_ascii c)%nat && (nat_of_ascii c <=? 57)%nat
  end.

Inductive regex :=
  | REps                          (* the empty pattern *)
  | RCls (cc : charclass)         (* one character of a class *)
  | RPlus (cc : charclass)        (* greedy [+] over a class *)
  | RSeq (r1 r2 : regex)
  | RAlt (r1 r2 : regex)          (* [r1|r2] *)
  | ROpt (r : regex)              (* greedy [(?:r)?] *)
  | RGroup (n : nat) (r : regex)  (* capturing group number [n] *)
  | REnd.                         (* [$]: end of input or before a final newline *)

(** Captured groups, the latest capture of a group first. *)
Definition captures := list (nat * list ascii).

(** The remainders after [+] over a class, longest match first. *)
Fixpoint plus_cls (cc : charclass) (s : list ascii) : list (list ascii) :=
  match s with
  | [] => []
  | c :: s' => if cls_match cc c then plus_cls cc s' ++ [s'] else []
  end.

(** All the ways [r] matches a prefix of [s], in the order Python's
    backtracking matcher tries them: remaining input and captures. *)
Fixpoint matches (r : regex) (s : list ascii) (k : captures) : list (list ascii * captures) :=
  match r with
  | REps => [(s, k)]
  | RCls cc => match s with
               | c :: s' => if cls_match cc c then [(s', k)] else []
               | [] => []
               end
  | RPlus cc => map (fun s' => (s', k)) (plus_cls cc s)
  | RSeq r1 r2 => flat_map (fun sk => matches r2 sk.1 sk.2) (matches r1 s k)
  | RAlt r1 r2 => matches r1 s k ++ matches r2 s k
  | ROpt r => matches r s k ++ [(s, k)]
  | RGroup n r => map (fun sk => (sk.1, (n, take (length s - length sk.1) s) :: sk.2)) (matches r s k)
  | REnd => match s with
            | [] => [(s, k)]
            | ["010"%char] => [(s, k)]
            | _ => []
            end
  end.

(** [re.match(pattern, s)]: the first match found, if any. *)
Definition re_match (r : regex) (s : string) : option captures :=
  match matches r (list_ascii_of_string s) [] with
  | (_, k) :: _ => Some k
  | [] => None
  end.

(** [m.group(n)]: [None] when the group did not take part in the match. *)
Definition group (k : captures) (n : nat) : option string :=
  match find (fun nc => Nat.eqb nc.1 n) k with
  | Some (_, c) => Some (string_of_list_ascii c)
  | None => None
  end.

Definition lit (s : string) : regex :=
  fold_right (fun c r => RSeq (RCls (CLit c)) r) REps (list_ascii_of_string s).

Fixpoint seq (rs : list regex) : regex :=
  match rs with
  | [] => REps
  | [r] => r
  | r :: rs' => RSeq r (seq rs')
  end.

Fixpoint ngroups (r : regex) : nat :=
  match r with
  | RSeq r1 r2 | RAlt r1 r2 => ngroups r1 + ngroups r2
  | ROpt r => ngroups r
  | RGroup _ r => S (ngroups r)
  | _ => 0
  end.

End Regex.

Import Regex.

(** ** Classifier resolver: ArtifactListBuilder._getExtensionsAndClassifiers *)

(** [(SNAPSHOT|\d+\.\d+-\d+)] as group [n]. *)
Definition snapshotGroup (n : nat) : regex :=
  RGroup n (RAlt (lit "SNAPSHOT")
                 (seq [RPlus CDigit; RCls (CLit "."); RPlus CDigit; RCls (CLit "-"); RPlus CDigit])).

(** [version.replace("SNAPSHOT", "(SNAPSHOT|\d+\.\d+-\d+)")] read as a
    pattern: each [SNAPSHOT] becomes the next group, an unescaped [.] matches
    any character, other characters match themselves. *)
Fixpoint snapshotVersionPattern (fuel : nat) (n : nat) (v : list ascii) : list regex :=
  match fuel with
  | O => []
  | S fuel' =>
    match v with
    | [] => []
    | c :: v' =>
      if bool_decide (take 8 v = list_ascii_of_string "SNAPSHOT") then
        snapshotGroup n :: snapshotVersionPattern fuel' (S n) (drop 8 v)
      else (if Ascii.eqb c "." then RCls CAny else RCls (CLit c))
           :: snapshotVersionPattern fuel' n v'
    end
  end.

(** [_getArtifactVersionREString]: [re.escape(artifactId) + "-" + versionPattern]. *)
Definition _getArtifactVersionRE (artifactId version : string) : regex :=
  if py_endswith version "-SNAPSHOT" then
    RSeq (lit artifactId) (RSeq (lit "-")
      (seq (snapshotVersionPattern (String.length version) 1 (list_ascii_of_string version))))
  else RSeq (lit artifactId) (RSeq (lit "-") (RGroup 1 (lit version))).

Definition checksumSuffixes : regex :=
  RAlt (lit "md5") (RAlt (lit "sha1") (RAlt (lit "sha256") (lit "asc"))).

(** [av + ".+\.(md5|sha1|sha256|asc)$"] *)
Definition checksumRegEx (av : regex) : regex :=
  RSeq av (seq [RPlus CAny; RCls (CLit "."); RGroup (S (ngroups av)) checksumSuffixes; REnd]).

(** [av + "(?:-(.+))?\.(tar\.[^.]+)$"] *)
Definition ceRegEx1 (av : regex) : regex :=
  RSeq av (seq [ROpt (RSeq (RCls (CLit "-")) (RGroup (S (ngroups av)) (RPlus CAny)));
                RCls (CLit ".");
                RGroup (S (S (ngroups av))) (seq [lit "tar"; RCls (CLit "."); RPlus CNotDot]);
                REnd]).

(** [av + "(?:-(.+))?\.([^.]+)$"] *)
Definition ceRegEx2 (av : regex) : regex :=
  RSeq av (seq [ROpt (RSeq (RCls (CLit "-")) (RGroup (S (ngroups av)) (RPlus CAny)));
                RCls (CLit ".");
                RGroup (S (S (ngroups av))) (RPlus CNotDot);
                REnd]).

(** Python 2 ordering of [str] values with [None] below every string. *)
Fixpoint str_ltb (a b : list ascii) : bool :=
  match a, b with
  | _, [] => false
  | [], _ :: _ => true
  | x :: a', y :: b' =>
      if (nat_of_ascii x <? nat_of_ascii y)%nat then true
      else if Ascii.eqb x y then str_ltb a' b' else false
  end.

Definition py_lt (a b : option string) : bool :=
  match a, b with
  | None, Some _ => true
  | Some x, Some y => str_ltb (list_ascii_of_string x) (list_ascii_of_string y)
  | _, None => false
  end.

(** The mapping extension -> classifiers ([ce.group(3)] may be [None] when
    the version pattern has several groups) and the latest suffix. *)
Definition ExtState := (gmap (option string) (gset string) * option string)%type.

Definition extStep (av : regex) (version : string) (st : ExtState) (filename : string) : ExtState :=
  let '(extensions, suffix) := st in
  match re_match (checksumRegEx av) filename with
  | Some _ => st   (* the file is a checksum, not an artifact *)
  | None =>
    let ce := match re_match (ceRegEx1 av) filename with
              | Some k => Some k
              | None => re_match (ceRegEx2 av) filename
              end in
    match ce with
    | None => st
    | Some k =>
      let realVersion := group k 1 in
      let classifier := group k 2 in
      let ext := group k 3 in
      let cls := default ∅ (extensions !! ext) in
      let extensions' := <[ext := {[default "" classifier]} ∪ cls]> extensions in
      let suffix' :=
        if bool_decide (realVersion ≠ Some version) then
          (if (match suffix with None => true | Some _ => false end) || py_lt suffix realVersion
           then realVersion else suffix)
        else suffix in
      (extensions', suffix')
    end
  end.

Definition _getExtensionsAndClassifiers (artifactId version : string) (filenames : list string) : ExtState :=
  let av := _getArtifactVersionRE artifactId version in
  foldl (extStep av version) (∅, None) filenames.

(** ** Aggregator: ArtifactListBuilder.buildList *)

Module Aggregator.

(** A declared artifact source: its ["type"] and the rest of its settings. *)
Record Source := mkSource { src_type : string; src_name : string }.

(** The artifacts a collector returns: a dictionary keyed by [MavenArtifact]. *)
Abbreviation Artifacts := (list (MavenArtifact * ArtifactSpec)).

Definition MAX_THREADS_DICT : list (string * nat) :=
  [("mead-tag", 2%nat); ("dependency-list", 1%nat); ("dependency-graph", 6%nat); ("repository", 2%nat)].

Section BuildList.

(** The collector of a source (listing plus the per-source excluded-GAV
    filter of [_read_artifact_source]): it returns the artifacts or raises. *)
Variable readSource : Source -> Outcome Artifacts.

(** State shared by the workers: one error [Queue] per created queue, the
    [results] dictionary, and the queue the name [errors] is bound to. *)
Record State := mkState {
  queues : list (list PyError);
  results : gmap Z Artifacts;
  errors : nat
}.

(** [_read_artifact_source(source, priority, errors)] run by a worker, with
    its callback [_add_result]: a failure is put into the worker's own queue
    and re-raised (the callback is not called); a success is merged into
    [results]. *)
Definition runTask (st : State) (task : Source * Z * nat) : State :=
  let '(source, priority, q) := task in
  match readSource source with
  | Ret artifacts =>
      mkState (queues st) (<[priority := artifacts]> (results st)) (errors st)
  | Raise e =>
      mkState (alter (fun l => app l [e]) q (queues st)) (results st) (errors st)
  | Exit _ => st
  end.

(** The submission loop: [priority += 1], the pool of the source type
    ([KeyError] for an unknown type), [errors = Queue()], [apply_async]. *)
Definition submit (sources : list Source) : Outcome (State * list (Source * Z * nat)) :=
  foldl (fun acc source =>
           stt ← acc;
           let '(st, tasks) := stt in
           _ ← py_get (list_to_map (M := gmap string nat) MAX_THREADS_DICT) (src_type source);
           let priority := Z.of_nat (S (length tasks)) in
           let q := length (queues st) in
           Ret (mkState (app (queues st) [[]]) (results st) q, app tasks [(source, priority, q)]))
        (Ret (mkState [] ∅ 0, [])) sources.

(** [_get_artifact_list]: places every collected artifact under its GA,
    priority and version, merging specs that meet at the same place. *)
Definition _get_artifact_list (results : gmap Z Artifacts) : Outcome ArtifactList :=
  foldl (fun acc (pa : Z * Artifacts) =>
           let '(priority, artifacts) := pa in
           foldl (fun acc (aspec : MavenArtifact * ArtifactSpec) =>
                    artifactList ← acc;
                    let '(artifact, artSpec) := aspec in
                    let ga := getGA artifact in
                    let pm := default ∅ (artifactList !! ga) in
                    let vm := default ∅ (pm !! priority) in
                    spec' ← (match vm !! version artifact with
                             | Some old => merge old artSpec
                             | None => Ret artSpec
                             end);
                    Ret (<[ga := <[priority := <[version artifact := spec']> vm]> pm]> artifactList))
                 acc artifacts)
        (Ret ∅) (map_to_list results).

(** [buildList]. The workers run to completion (the pools are joined); the
    polling loop ends after its first round, and terminating the pools on an
    error seen there only drops work of a run that raises anyway. The
    schedule is taken in submission order: each worker writes only its own
    queue and its own [results] key. *)
Definition buildList (sources : list Source) : Outcome ArtifactList :=
  stt ← submit sources;
  let '(st0, tasks) := stt in
  let st := foldl runTask st0 tasks in
  match nth_error (queues st) (errors st) with
  | Some ((_ :: _) as l) =>
      Raise (RuntimeError (pretty (N.of_nat (length l)) ++ " error(s) occured during reading of artifact list."))
  | _ => _get_artifact_list (results st)
  end.

End BuildList.

End Aggregator.

(** ** Indy client: IndyApi (indy_apis.py) *)

Module Indy.

Record HTTPResponse := mkHTTPResponse { status : Z; body : string }.

Local Unset Elimination Schemes.
Inductive Json :=
  | JNull
  | JBool (b : bool)
  | JStr (s : string)
  | JList (l : list Json)
  | JObj (fields : list (string * Json)).
Local Set Elimination Schemes.

(** [addclassifiers]: [Configuration.ALL_CLASSIFIERS_VALUE] or a list of
    [{"type": t, "classifier": c}] dictionaries. *)
Inductive AddClassifiers :=
  | AllClassifiers
  | AddList (l : list (string * string)).

Definition API_PATH := "api/".

Section Client.

(** [_postUrl(url, data=..., headers=...)]: the final response of the
    service (after the redirects [_request] follows). *)
Variable postUrl : string -> string -> HTTPResponse.
(** [json.dumps]. *)
Variable dumps : Json -> string.

Variable indy_url : string.

Definition strList (l : list string) : Json := JList (map JStr l).

Definition graphComposition (roots : list string) (preset : string) (mutator : option string) : Json :=
  match mutator with
  | Some m => JObj [("graphs", JList [JObj [("roots", strList roots); ("preset", JStr preset); ("mutator", JStr m)]])]
  | None => JObj [("graphs", JList [JObj [("roots", strList roots); ("preset", JStr preset)]])]
  end.

(** A request issued: URL and body. *)
Abbreviation Request := (string * string)%type.

(** [urlmap_response]: the requests issued and the returned content. *)
Definition urlmap_response (wsid sourceKey : string) (gavs : list string) (addclassifiers : AddClassifiers)
    (excludedSources excludedSubgraphs : list string) (preset : string) (mutator : option string)
    (patcherIds injectedBOMs : list string) (resolve : bool) : list Request * string :=
  let url := indy_url ++ API_PATH ++ "depgraph/repo/urlmap" in
  let request :=
    (match addclassifiers with
     | AllClassifiers => [("extras", JList [JObj [("classifier", JStr "*"); ("type", JStr "*")]])]
     | AddList [] => []
     | AddList l => [("extras", JList (map (fun tc => JObj [("type", JStr tc.1); ("classifier", JStr tc.2)]) l))]
     end
    ++ [("workspaceId", JStr wsid); ("source", JStr sourceKey)]
    ++ (if bool_decide (excludedSources = []) then [] else [("excludedSources", strList excludedSources)])
    ++ (if bool_decide (excludedSubgraphs = []) then [] else [("excludedSubgraphs", strList excludedSubgraphs)])
    ++ [("resolve", JBool resolve); ("graphComposition", graphComposition gavs preset mutator)]
    ++ (if bool_decide (patcherIds = []) then [] else [("patcherIds", strList patcherIds)])
    ++ (if bool_decide (injectedBOMs = []) then [] else [("injectedBOMs", strList injectedBOMs)]))%list in
  let data := dumps (JObj request) in
  let response := postUrl url data in
  if Z.eqb (status response) 200 then ([(url, data)], body response)
  else ([(url, data)], "{}").

(** [paths_response]: the requests issued and the returned content. *)
Definition paths_response (wsid sourceKey : string) (roots targets : list string)
    (excludedSources excludedSubgraphs : list string) (preset : string) (mutator : option string)
    (patcherIds injectedBOMs : list string) (resolve : bool) : list Request * string :=
  let url := indy_url ++ API_PATH ++ "depgraph/repo/paths" in
  let request :=
    ([("workspaceId", JStr wsid); ("source", JStr sourceKey)]
    ++ (if bool_decide (excludedSources = []) then [] else [("excludedSources", strList excludedSources)])
    ++ (if bool_decide (excludedSubgraphs = []) then [] else [("excludedSubgraphs", strList excludedSubgraphs)])
    ++ [("resolve", JBool resolve); ("graphComposition", graphComposition roots preset mutator);
        ("targets", strList targets)]
    ++ (if bool_decide (patcherIds = []) then [] else [("patcherIds", strList patcherIds)])
    ++ (if bool_decide (injectedBOMs = []) then [] else [("injectedBOMs", strList injectedBOMs)]))%list in
  let data := dumps (JObj request) in
  let response := postUrl url data in
  let '(sent, response) :=
    if Z.eqb (status response) 404 then
      let url' := indy_url ++ API_PATH ++ "depgraph/graph/paths" in
      ([(url, data); (url', data)], postUrl url' data)
    else ([(url, data)], response) in
  if Z.eqb (status response) 200 then (sent, body response)
  else (sent, "{}").

End Client.

Section CacheNames.

(** [hashlib.sha256(s).hexdigest()]. *)
Variable sha256hex : string -> string.
Variable CACHE_PATH : string.
(** [str(addclassifiers)]. *)
Variable str_addclassifiers : AddClassifiers -> string.

Definition str_mutator (mutator : option string) : string :=
  match mutator with Some m => m | None => "None" end.

(** The joined key first built in [get_urlmap_cache_filename]. *)
Definition urlmap_full_key (sourceKey : string) (gavs : list string) (addclassifiers : AddClassifiers)
    (excludedSources excludedSubgraphs : list string) (preset : string) (mutator : option string)
    (patcherIds injectedBOMs : list string) : string :=
    py_join "_" gavs ++ "_|_" ++ sourceKey ++ "_|_" ++ str_addclassifiers addclassifiers ++ "_|_"
    ++ py_join "_" excludedSources ++ "_|_" ++ py_join "_" excludedSubgraphs ++ "_|_" ++ preset ++ "_|_"
    ++ str_mutator mutator ++ "_|_" ++ py_join "_" patcherIds ++ "_|_" ++ py_join "_" injectedBOMs.

(** The value of [cache_filename] in [get_urlmap_cache_filename]. *)
Definition urlmap_cache_key (sourceKey : string) (gavs : list string) (addclassifiers : AddClassifiers)
    (excludedSources excludedSubgraphs : list string) (preset : string) (mutator : option string)
    (patcherIds injectedBOMs : list string) : string :=
  let cache_filename := urlmap_full_key sourceKey gavs addclassifiers excludedSources excludedSubgraphs
                          preset mutator patcherIds injectedBOMs in
  if (243 <? String.length cache_filename)%nat then
    let sha256 := sha256hex cache_filename in
    let cache_filename' := py_join "-" gavs ++ "_|_" ++ sha256 in
    if (243 <? String.length cache_filename')%nat then sha256 else cache_filename'
  else cache_filename.

Definition get_urlmap_cache_filename sourceKey gavs addclassifiers excludedSources excludedSubgraphs
    preset mutator patcherIds injectedBOMs : string :=
  CACHE_PATH ++ "/urlmap_" ++ urlmap_cache_key sourceKey gavs addclassifiers excludedSources
    excludedSubgraphs preset mutator patcherIds injectedBOMs ++ ".json".

(** The joined key first built in [get_paths_cache_filename]. *)
Definition paths_full_key (sourceKey : string) (roots targets : list string)
    (excludedSources excludedSubgraphs : list string) (preset : string) (mutator : option string)
    (patcherIds injectedBOMs : list string) : string :=
    py_join "_" roots ++ "_|_" ++ py_join "_" targets ++ "_|_" ++ sourceKey ++ "_|_"
    ++ py_join "_" excludedSources ++ "_|_" ++ py_join "_" excludedSubgraphs ++ "_|_" ++ preset ++ "_|_"
    ++ str_mutator mutator ++ "_|_" ++ py_join "_" patcherIds ++ "_|_" ++ py_join "-" injectedBOMs.

(** The value of [cache_filename] in [get_paths_cache_filename]. *)
Definition paths_cache_key (sourceKey : string) (roots targets : list string)
    (excludedSources excludedSubgraphs : list string) (preset : string) (mutator : option string)
    (patcherIds injectedBOMs : list string) : string :=
  let cache_filename := paths_full_key sourceKey roots targets excludedSources excludedSubgraphs
                          preset mutator patcherIds injectedBOMs in
  if (244 <? String.length cache_filename)%nat then
    let sha256 := sha256hex cache_filename in
    let cache_filename' := py_join "_" roots ++ "_|_" ++ py_join "_" targets ++ "_|_" ++ sha256 in
    if (244 <? String.length cache_filename')%nat then sha256 else cache_filename'
  else cache_filename.

(** [re.sub(":.*", "", target)]: the text before the first colon. *)
Definition before_colon (s : string) : string := List.hd "" (py_split ":" s).

(** [str.replace(":", "$")]. *)
Fixpoint colons_to_dollars (s : string) : string :=
  match s with
  | EmptyString => EmptyString
  | String c s' => String (if Ascii.eqb c ":" then "$"%char else c) (colons_to_dollars s')
  end.

(** The directory loops: extend while the joined name stays below 255. *)
Fixpoint bounded_join (acc : string) (items : list string) : string :=
  match items with
  | [] => acc
  | x :: xs =>
      let temp := if bool_decide (acc = "") then x else acc ++ "_|_" ++ x in
      if (String.length temp <? 255)%nat then bounded_join temp xs else acc
  end.

Definition get_paths_cache_filename sourceKey roots targets excludedSources excludedSubgraphs
    preset mutator patcherIds injectedBOMs : string :=
  let cache_filename := paths_cache_key sourceKey roots targets excludedSources excludedSubgraphs
                          preset mutator patcherIds injectedBOMs in
  let root_dir := bounded_join "" (map colons_to_dollars roots) in
  let target_dir := bounded_join "" (map before_colon targets) in
  CACHE_PATH ++ "/" ++ root_dir ++ "/" ++ target_dir ++ "/paths_" ++ cache_filename ++ ".json".

End CacheNames.

End Indy.

(** ** maven_artifact.py: paths and file names *)










(** ** artifact_list_builder.py: listing artifacts *)


(** [ArtifactListBuilder.notMainExtClassifiers]. *)
Definition notMainExtClassifiers : list string :=
  ["pom:"; "jar:javadoc"; "jar:sources"; "jar:tests"; "jar:test-sources";
   "tar.gz:project-sources"; "xml:site"; "zip:patches"; "zip:scm-sources"].

(** [extClassifier not in self.notMainExtClassifiers] for
    [extClassifier = "%s:%s" % (ext, classifier or "")]. *)
Definition isMainExtClassifier (ext classifier : string) : bool :=
  negb (bool_decide (ext ++ ":" ++ classifier ∈ notMainExtClassifiers)).

(** [_containsMainArtifact(extsAndClass)]. *)
Definition _containsMainArtifact (extsAndClass : gmap string (gset string)) : bool :=
  existsb (fun ec : string * gset string => existsb (isMainExtClassifier ec.1) (elements ec.2))
          (map_to_list extsAndClass).

(** The artifacts dictionary of a listing: each [MavenArtifact] key (equal
    by [repr], i.e. by its five fields) with its instance attribute
    [snapshotVersionSuffix] ([None]: the class attribute is used). *)
Abbreviation ListedArtifacts := (list ((MavenArtifact * option string) * ArtifactSpec)).

#[global] Instance MavenArtifact_eq_dec : EqDecision MavenArtifact.
Proof. solve_decision. Defined.

(** [ArtifactSpec(url, artTypes)] for a list of [ArtifactType]s. *)
Definition specFromList (url : string) (artTypes : list ArtifactType) : ArtifactSpec :=
  mkArtifactSpec url (foldl (fun m t => <[artType t := t]> m) ∅ artTypes) [].

(** [if mavenArtifact in artifacts: artifacts[mavenArtifact].merge(spec)
    else: artifacts[mavenArtifact] = spec]. *)
Fixpoint addOrMerge (ma : MavenArtifact) (suffix : option string) (spec : ArtifactSpec)
    (artifacts : ListedArtifacts) : Outcome ListedArtifacts :=
  match artifacts with
  | [] => Ret [((ma, suffix), spec)]
  | ((k, ksfx), s) :: rest =>
      if bool_decide (k = ma) then
        s' ← merge s spec; Ret (((k, ksfx), s') :: rest)
      else
        rest' ← addOrMerge ma suffix spec rest; Ret (((k, ksfx), s) :: rest')
  end.

(** [_addArtifact(artifacts, groupId, artifactId, version, extsAndClass, suffix, url)]. *)
Definition _addArtifact (artifacts : ListedArtifacts) (groupId artifactId version : string)
    (extsAndClass : gmap string (gset string)) (suffix : option string) (url : string)
    : Outcome ListedArtifacts :=
  let pomMain :=
    negb ((1 <? size extsAndClass)%nat && _containsMainArtifact extsAndClass
          && bool_decide ("pom" ∈ dom extsAndClass)) in
  let artTypes :=
    map (fun ec : string * gset string =>
           let '(ext, classifiers) := ec in
           let main := (bool_decide (ext = "pom") && pomMain)
                       || existsb (isMainExtClassifier ext) (elements classifiers) in
           mkArtifactType ext main classifiers) (map_to_list extsAndClass) in
  let mavenArtifact := mkMavenArtifact groupId artifactId None version "" in
  addOrMerge mavenArtifact suffix (specFromList url artTypes) artifacts.

Section Listing.

(** [self.configuration.isAllClassifiers()]. *)
Variable allClassifiers : bool.
(** [self.configuration.addClassifiers], as (type, classifier) pairs. *)
Variable addClassifiers : list (string * string).

Definition inAddClassifiers (extension classifier : string) : bool :=
  existsb (fun tc : string * string => bool_decide (extension = tc.1) && bool_decide (classifier = tc.2))
          addClassifiers.

(** [d.setdefault(extension, set()).add(classifier)]. *)
Definition addClassifier (d : gmap string (gset string)) (extension classifier : string)
    : gmap string (gset string) :=
  <[extension := {[classifier]} ∪ default ∅ (d !! extension)]> d.

(** [_updateExtensionsAndClassifiers(d, u, classifiersFilter)]; the dictionary
    [d] is updated in place, the model returns it. *)
Definition _updateExtensionsAndClassifiers (d u : gmap string (gset string))
    (classifiersFilter : option (gmap string (gset string))) : gmap string (gset string) :=
  foldl (fun d (ec : string * gset string) =>
           let '(extension, classifiers) := ec in
           if allClassifiers then
             <[extension := default ∅ (d !! extension) ∪ classifiers]> d
           else
             foldl (fun d classifier =>
                      if bool_decide (classifier = "") then addClassifier d extension classifier
                      else if inAddClassifiers extension classifier then addClassifier d extension classifier
                      else match classifiersFilter with
                           | Some cf =>
                               if negb (bool_decide (cf = ∅))
                                  && existsb (fun ac : string * gset string =>
                                                bool_decide (extension = ac.1) && bool_decide (classifier ∈ ac.2))
                                             (map_to_list cf)
                               then addClassifier d extension classifier else d
                           | None => d
                           end) d (elements classifiers))
        d (map_to_list u).





Variable rmatch : RegExp -> string -> bool.


End Listing.

(** The last loop of [_getPrefixes]: [patterns.pop()] takes the elements of
    [patterns] in some order, given here as the list [order]; a pattern is
    kept when no remaining pattern and no kept prefix is a prefix of it. *)
Fixpoint prefixLoop (order : list string) (prefixes : gset string) : gset string :=
  match order with
  | [] => prefixes
  | pattern :: rest =>
      if existsb (fun prefix => String.prefix prefix pattern) (elements (list_to_set rest ∪ prefixes))
      then prefixLoop rest prefixes
      else prefixLoop rest ({[pattern]} ∪ prefixes)
  end.

(** * Test inputs and reference definitions *)

(** A collector that fails for the source named ["broken"]. *)
Definition failingCollector (source : Aggregator.Source) : Outcome Aggregator.Artifacts :=
  if bool_decide (Aggregator.src_name source = "broken") then Raise (ValueError "unreachable")
  else Ret [].

(** Every version entry of an artifact list satisfies [P]. *)
Definition AllLeaves (P : ArtifactSpec -> Prop) (al : ArtifactList) : Prop :=
  forall ga pm p vm v s, al !! ga = Some pm -> pm !! p = Some vm -> vm !! v = Some s -> P s.

(** The entry of version [v] at priority [p] of one group:artifact. *)
Definition look (pm : PriorityMap) (p : Z) (v : string) : option ArtifactSpec :=
  pm !! p ≫= (fun vm => vm !! v).

(** A configuration that enables no optional filter stage. *)
Definition emptyConfig : Configuration := mkConfiguration [] [] [] false [] [].

(** A version entry holding only a sources jar, which is not a main type. *)
Definition sourcesOnlySpec : ArtifactSpec :=
  mkArtifactSpec "http://repo/" {["jar" := mkArtifactType "jar" false {["sources"]}]} [].

Definition sourcesOnlyList : ArtifactList := {["g:a" := {[1%Z := {["1.0" := sourcesOnlySpec]}]}]}.

(** The excluded-GAV rule as the specification words it, per version entry:
    a pattern with at most two colons that matches ["ga:version"] drops the
    entry; otherwise every classifier matched by a pattern with more than two
    colons is dropped, a type left without classifiers is dropped, and the
    entry is dropped when no main type remains. *)
Definition excludedGAVsRule (rmatch : RegExp -> string -> bool) (patterns : list string)
    (ga version : string) (s : ArtifactSpec) : option ArtifactSpec :=
  let gavPattern (r : string) := (count_char ":" r <=? 2)%nat in
  let gavMatch str := existsb (fun r => gavPattern r && rmatch (mkRegExp r true) str) patterns in
  let gatcvMatch str := existsb (fun r => negb (gavPattern r) && rmatch (mkRegExp r true) str) patterns in
  if gavMatch (ga ++ ":" ++ version) then None
  else
    let ats := map_imap (fun t at0 =>
                 let cls := filter (fun c => gatcvMatch (gatcvString ga t c version) = false)
                                   (classifiers at0) in
                 if bool_decide (cls = ∅) then None else Some (set_classifiers at0 cls))
               (artTypes s) in
    if containsMain (set_artTypes s ats) then Some (set_artTypes s ats) else None.

(** A version entry with a jar (main and sources classifiers) and a pom. *)
Definition twoTypesSpec : ArtifactSpec :=
  mkArtifactSpec "http://repo/"
    {["jar" := mkArtifactType "jar" true {[""; "sources"]}; "pom" := mkArtifactType "pom" true {[""]}]} [].

Definition twoTypesList : ArtifactList := {["g:a" := {[1%Z := {["1.0" := twoTypesSpec]}]}]}.

(** Patterns compared as plain text, standing for regular expressions that
    match exactly their own text. *)
Definition literalMatch (r : RegExp) (str : string) : bool := bool_decide (re_pattern r = str).

(** A version comparator for tests: versions compared by their last character. *)
Definition lastChar (v : string) : nat :=
  match String.get (String.length v - 1) v with
  | Some c => nat_of_ascii c
  | None => 0
  end.

Definition lastCharLe (a b : string) : bool := (lastChar a <=? lastChar b)%nat.

(** Versions 1.0, 1.2 and 1.1 at priority 1 and version 2.0 at priority 3
    for g:a, and one version at two priorities for x:y. *)
Definition threeVersionsList : ArtifactList :=
  {["g:a" := {[1%Z := {["1.0" := twoTypesSpec; "1.2" := twoTypesSpec; "1.1" := twoTypesSpec]};
               3%Z := {["2.0" := twoTypesSpec]}]};
    "x:y" := {[1%Z := {["1.0" := twoTypesSpec]}; 2%Z := {["1.1" := twoTypesSpec]}]}]}.

Definition singleVersionConfig : Configuration := mkConfiguration [] [] [] true ["x:y"] [].

(** Version 1.0 of g:a at priorities 2 and 5, each with one provenance path. *)
Definition pathFrom (d : string) : RelPath := [mkArtifactRelationship (Some d) (Some "g:a:jar:1.0") "DEPENDENCY" None].

Definition specWithPath (d : string) : ArtifactSpec :=
  mkArtifactSpec "http://repo/" {["jar" := mkArtifactType "jar" true {[""]}]} [pathFrom d].

Definition twoPrioritiesPM : PriorityMap :=
  {[2%Z := {["1.0" := specWithPath "r:two:1"]}; 5%Z := {["1.0" := specWithPath "r:five:1"; "2.0" := specWithPath "r:five:2"]}]}.

Definition twoPrioritiesList : ArtifactList := {["g:a" := twoPrioritiesPM]}.

(** The checksum suffixes the classifier resolver discards. *)
Definition checksumSuffixList : list string := ["md5"; "sha1"; "sha256"; "asc"].

(** The file name ends in ["." ++ x]. *)
Definition endsWithDotSuffix (f x : string) : bool :=
  let l := list_ascii_of_string f in
  let sfx := "."%char :: list_ascii_of_string x in
  bool_decide (drop (length l - length sfx) l = sfx).

(** One way the artifact-version pattern [av] matches a prefix of the file
    name stops right before its final ["." ++ x]. *)
Definition versionReachesSuffix (av : regex) (f x : string) : bool :=
  existsb (fun sk => bool_decide (sk.1 = "."%char :: list_ascii_of_string x))
          (matches av (list_ascii_of_string f) []).

(** A checksum file name that the artifact-version pattern does not reach up
    to its suffix. *)
Definition ignoredChecksumFile (av : regex) (f : string) : bool :=
  existsb (fun x => endsWithDotSuffix f x && negb (versionReachesSuffix av f x)) checksumSuffixList.

(** ** Reference definitions for the listing and filter properties *)

(** The entry of an artifact list at group:artifact [ga], priority [p] and
    version [v]. *)
Definition look3 (al : ArtifactList) (ga : string) (p : Z) (v : string) : option ArtifactSpec :=
  al !! ga ≫= (fun pm => look pm p v).

(** No group:artifact holds an empty priority dictionary, and no priority an
    empty version dictionary. *)
Definition NoEmpty (al : ArtifactList) : Prop :=
  forall ga pm, al !! ga = Some pm -> pm <> ∅ /\ forall p vm, pm !! p = Some vm -> vm <> ∅.

(** Each version appears at one priority at most. *)
Definition oneColumn (pm : PriorityMap) : Prop :=
  forall p q v s t, look pm p v = Some s -> look pm q v = Some t -> p = q.


(** The key of the place an entry of [delArtifacts] deletes. *)
Definition delKey (ap : MavenArtifact * Z) : string * Z * string := (getGA ap.1, ap.2, version ap.1).

Definition gaDels gavExists config (groupId artifactId : string) (pm : PriorityMap) : list (MavenArtifact * Z) :=
  flat_map (fun (pvm : Z * VersionMap) =>
    let '(priority, vm) := pvm in
    flat_map (fun (vs : string * ArtifactSpec) =>
      let artifact := mkMavenArtifact groupId artifactId (Some "pom") vs.1 "" in
      if artifactInRepos gavExists (excludedRepositories config) artifact
      then [(artifact, priority)] else []) (map_to_list vm)) (map_to_list pm).

Definition alDels gavExists config (al : ArtifactList) : list (MavenArtifact * Z) :=
  flat_map (fun gapm : string * PriorityMap =>
              match py_split ":" gapm.1 with
              | [g; a] => gaDels gavExists config g a gapm.2
              | _ => []
              end) (map_to_list al).


(** The spec of artifact [ma] in a listing dictionary. *)
Definition lookupListed (ma : MavenArtifact) (artifacts : ListedArtifacts) : option ArtifactSpec :=
  snd <$> List.find (fun e => bool_decide (e.1.1 = ma)) artifacts.

(** The value an outcome returns, or [d]. *)
Definition retValue {A} (d : A) (o : Outcome A) : A :=
  match o with Ret a => a | _ => d end.

(** A repository lookup: only ["http://bad/"] holds, and only versions
    ["1.1"]. *)
Definition badRepoHas (repoUrl : string) (artifact : MavenArtifact) : bool :=
  bool_decide (repoUrl = "http://bad/") && bool_decide (version artifact = "1.1").

Definition badRepoConfig : Configuration := mkConfiguration [] [] [] false [] ["http://bad/"].

Definition gaArtifact : MavenArtifact := mkMavenArtifact "g" "a" None "1.0" "".


Definition pomAndJarClassifiers : gmap string (gset string) := {["pom" := {[""]}; "jar" := {[""; "sources"]}]}.

(** * Properties *)

(** ** MavenArtifact.createFromGAV *)

(** Claim C10 (code_bug): a GAV string of three parts whose last part is a
    scope name, such as ["g:a:test"], is read as [groupId:artifactId:scope],
    so only two parts are left and [gavParts[3]] raises [IndexError]; a
    six-part string whose last part is not a scope silently drops that part. *)
Lemma createFromGAV_scope_slip :
  createFromGAV ∅ "g:a:test" = Raise IndexError /\
  (exists c, createFromGAV ∅ "g:a:jar:c:1.0:x" =
             Ret (mkMavenArtifact "g" "a" (Some "jar") "1.0" "c", c)).
Proof. split; [reflexivity | eexists; reflexivity]. Qed.

(** ** ArtifactSpec.merge *)

(** Claim C2 (corrected): [merge self other] raises when the two [artTypes]
    share a key, and raises when [other.url] is non-empty and differs from
    [self.url] (an empty [self.url] does not excuse a different non-empty
    [other.url]); otherwise it yields [self.url], the union of the two
    [artTypes] and [self.paths ++ other.paths]. *)
Lemma merge_outcomes (self other : ArtifactSpec) :
  ((exists k, is_Some (artTypes self !! k) /\ is_Some (artTypes other !! k)) ->
     exists e, merge self other = Raise e) /\
  (url other <> "" -> url self <> url other -> exists e, merge self other = Raise e) /\
  ((url other = "" \/ url self = url other) ->
   (forall k, is_Some (artTypes self !! k) -> artTypes other !! k = None) ->
     merge self other =
       Ret (mkArtifactSpec (url self) (artTypes self ∪ artTypes other) (paths self ++ paths other))).
Proof.
  unfold merge. split; [| split].
  - intros [k [[a Ha] [b Hb]]].
    destruct (negb _ && negb _); [eexists; reflexivity |].
    assert (Hex : existsb (fun kv => bool_decide (is_Some (artTypes self !! kv.1)))
                          (map_to_list (artTypes other)) = true).
    { apply existsb_exists. exists (k, b). split.
      - apply list_elem_of_In. by apply elem_of_map_to_list.
      - simpl. rewrite Ha. by apply bool_decide_eq_true. }
    rewrite Hex. eexists; reflexivity.
  - intros Hne1 Hne2.
    rewrite (bool_decide_eq_false_2 _ Hne1), (bool_decide_eq_false_2 _ Hne2). simpl.
    eexists; reflexivity.
  - intros Hurl Hdisj.
    assert (Hu : negb (bool_decide (url other = "")) && negb (bool_decide (url self = url other)) = false).
    { destruct Hurl as [H | H]; [rewrite (bool_decide_eq_true_2 _ H) | rewrite (bool_decide_eq_true_2 _ H)];
        [reflexivity | apply andb_false_r]. }
    rewrite Hu.
    assert (Hex : existsb (fun kv => bool_decide (is_Some (artTypes self !! kv.1)))
                          (map_to_list (artTypes other)) = false).
    { apply not_true_iff_false. intros Hx. apply existsb_exists in Hx as [[k b] [Hin Hk]].
      apply bool_decide_eq_true in Hk. simpl in Hk.
      apply list_elem_of_In, elem_of_map_to_list in Hin.
      specialize (Hdisj k Hk). congruence. }
    rewrite Hex. do 2 f_equal.
    apply map_union_comm. apply map_disjoint_spec.
    intros k a b Ha Hb. assert (Hs : is_Some (artTypes self !! k)) by eauto.
    specialize (Hdisj k Hs). congruence.
Qed.

(** Claim C2: a spec with an empty URL cannot absorb a spec with a URL,
    even with disjoint types. *)
Lemma merge_empty_self_url_raises :
  merge (mkArtifactSpec "" ∅ [])
        (mkArtifactSpec "http://repo/" {["jar" := mkArtifactType "jar" true {[""]}]} []) =
  Raise (ValueError "Cannot merge artifact specs with different URLs").
Proof. reflexivity. Qed.

(** ** Indy client *)

(** Claim C8: an urlmap query issues one request and returns the body only
    on status 200, ["{}"] otherwise; a paths query whose primary endpoint
    answers 404 re-sends the same body to the legacy endpoint, and then
    returns the body only on status 200, ["{}"] otherwise. *)
Lemma indy_non_success_is_empty postUrl dumps indy_url wsid sourceKey gavs roots targets addclassifiers
    excludedSources excludedSubgraphs preset mutator patcherIds injectedBOMs resolve :
  (let '(sent, out) := Indy.urlmap_response postUrl dumps indy_url wsid sourceKey gavs addclassifiers
                         excludedSources excludedSubgraphs preset mutator patcherIds injectedBOMs resolve in
   let u := indy_url ++ Indy.API_PATH ++ "depgraph/repo/urlmap" in
   exists data, sent = [(u, data)] /\
     out = (if Z.eqb (Indy.status (postUrl u data)) 200 then Indy.body (postUrl u data) else "{}")) /\
  (let '(sent, out) := Indy.paths_response postUrl dumps indy_url wsid sourceKey roots targets
                         excludedSources excludedSubgraphs preset mutator patcherIds injectedBOMs resolve in
   let u := indy_url ++ Indy.API_PATH ++ "depgraph/repo/paths" in
   let u' := indy_url ++ Indy.API_PATH ++ "depgraph/graph/paths" in
   exists data,
     if Z.eqb (Indy.status (postUrl u data)) 404 then
       sent = [(u, data); (u', data)] /\
       out = (if Z.eqb (Indy.status (postUrl u' data)) 200 then Indy.body (postUrl u' data) else "{}")
     else
       sent = [(u, data)] /\
       out = (if Z.eqb (Indy.status (postUrl u data)) 200 then Indy.body (postUrl u data) else "{}")).
Proof.
  split.
  - unfold Indy.urlmap_response. cbv zeta.
    match goal with |- context [postUrl ?u ?d] => set (data := d) end.
    destruct (Z.eqb (Indy.status (postUrl _ data)) 200) eqn:E; exists data; rewrite E; split; reflexivity.
  - unfold Indy.paths_response. cbv zeta.
    match goal with |- context [postUrl (indy_url ++ Indy.API_PATH ++ "depgraph/repo/paths") ?d] =>
      set (data := d) end.
    destruct (Z.eqb (Indy.status (postUrl (indy_url ++ Indy.API_PATH ++ "depgraph/repo/paths") data)) 404)
      eqn:H404; cbv beta iota zeta.
    + destruct (Z.eqb (Indy.status (postUrl (indy_url ++ Indy.API_PATH ++ "depgraph/graph/paths") data)) 200)
        eqn:E; exists data; rewrite H404, E; split; reflexivity.
    + destruct (Z.eqb (Indy.status (postUrl (indy_url ++ Indy.API_PATH ++ "depgraph/repo/paths") data)) 200)
        eqn:E; exists data; rewrite H404, E; split; reflexivity.
Qed.

(** Claim C9: the cache keys are functions of the query parameters only;
    each key has at most 243 (urlmap) or 244 (paths) characters when the
    hash has 64 hex digits; the joined key is kept when it fits, otherwise
    it is replaced by a short form ending in the hash of the joined key,
    or by that hash alone when the short form is still too long. *)
Theorem cache_keys_bounded (sha256hex : string -> string) str_addclassifiers
    (sha256hex_length : forall s, String.length (sha256hex s) = 64%nat)
    sourceKey gavs roots targets addclassifiers excludedSources excludedSubgraphs preset mutator
    patcherIds injectedBOMs :
  (let full := Indy.urlmap_full_key str_addclassifiers sourceKey gavs addclassifiers excludedSources
                 excludedSubgraphs preset mutator patcherIds injectedBOMs in
   let short := py_join "-" gavs ++ "_|_" ++ sha256hex full in
   let key := Indy.urlmap_cache_key sha256hex str_addclassifiers sourceKey gavs addclassifiers
                excludedSources excludedSubgraphs preset mutator patcherIds injectedBOMs in
   (String.length key <= 243)%nat /\
   ((String.length full <= 243)%nat -> key = full) /\
   ((243 < String.length full)%nat -> (String.length short <= 243)%nat -> key = short) /\
   ((243 < String.length full)%nat -> (243 < String.length short)%nat -> key = sha256hex full)) /\
  (let full := Indy.paths_full_key sourceKey roots targets excludedSources excludedSubgraphs
                 preset mutator patcherIds injectedBOMs in
   let short := py_join "_" roots ++ "_|_" ++ py_join "_" targets ++ "_|_" ++ sha256hex full in
   let key := Indy.paths_cache_key sha256hex sourceKey roots targets excludedSources excludedSubgraphs
                preset mutator patcherIds injectedBOMs in
   (String.length key <= 244)%nat /\
   ((String.length full <= 244)%nat -> key = full) /\
   ((244 < String.length full)%nat -> (String.length short <= 244)%nat -> key = short) /\
   ((244 < String.length full)%nat -> (244 < String.length short)%nat -> key = sha256hex full)).
Proof.
  split; cbv zeta; [unfold Indy.urlmap_cache_key | unfold Indy.paths_cache_key]; cbv zeta;
  repeat match goal with
  | |- context [Nat.ltb ?n ?m] => let E := fresh "E" in destruct (Nat.ltb n m) eqn:E;
                                  [apply Nat.ltb_lt in E | apply Nat.ltb_ge in E]
  end;
  rewrite ?sha256hex_length; repeat split; intros; try reflexivity; lia.
Qed.

(** The hash length holds for some hex digest function. *)
Lemma cache_keys_bounded_witness :
  let sha := fun _ : string => "0123456789abcdef0123456789abcdef0123456789abcdef0123456789abcdef" in
  (forall s, String.length (sha s) = 64%nat) /\
  (String.length (Indy.urlmap_cache_key sha (fun _ => "[]") "src" ["g:a:1"] (Indy.AddList []) [] [] "p"
                    None [] []) <= 243)%nat.
Proof.
  cbv zeta. split; [intros; reflexivity|].
  apply (cache_keys_bounded (fun _ => "0123456789abcdef0123456789abcdef0123456789abcdef0123456789abcdef")
           (fun _ => "[]") ltac:(intros; reflexivity) "src" ["g:a:1"] [] [] (Indy.AddList [])
           [] [] "p" None [] []).
Defined.

(** ** Aggregator *)

(** Claim C4: the error check of [buildList] reads only the error queue of
    the last declared source. With two repository sources, a failure of the
    first collector is not reported: [buildList] returns normally and the
    priority 1 key is missing from the collected results. When both fail,
    the error reports one failure. *)
Theorem buildList_misses_earlier_failures :
  (Aggregator.buildList failingCollector
     [Aggregator.mkSource "repository" "broken"; Aggregator.mkSource "repository" "ok"] = Ret ∅) /\
  (Aggregator.buildList failingCollector
     [Aggregator.mkSource "repository" "ok"; Aggregator.mkSource "repository" "broken"] =
   Raise (RuntimeError "1 error(s) occured during reading of artifact list.")) /\
  (Aggregator.buildList failingCollector
     [Aggregator.mkSource "repository" "broken"; Aggregator.mkSource "repository" "broken"] =
   Raise (RuntimeError "1 error(s) occured during reading of artifact list.")).
Proof. split; [|split]; vm_compute; reflexivity. Qed.

(** ** Dictionary loops *)

Lemma map_fmap_list {A B} (f : A -> B) (l : list A) : map f l = f <$> l.
Proof. induction l as [|x l IH]; simpl; [done|]. by rewrite IH. Qed.

Section DictLoops.
Context {K V : Type} `{Countable K}.

Lemma update_fold_notin (f : K -> V -> option V) (l : list (K * V)) (acc : gmap K V) k :
  k ∉ l.*1 ->
  foldl (fun acc kv => match f kv.1 kv.2 with
                       | Some v' => <[kv.1 := v']> acc
                       | None => delete kv.1 acc
                       end) acc l !! k = acc !! k.
Proof.
  revert acc. induction l as [|[k' v'] l IH]; intros acc Hk; simpl; [done|].
  simpl in Hk. apply not_elem_of_cons in Hk as [Hne Hk].
  rewrite IH by done. destruct (f k' v');
    [apply lookup_insert_ne | apply lookup_delete_ne]; congruence.
Qed.

Lemma update_fold_in (f : K -> V -> option V) (l : list (K * V)) (acc : gmap K V) k v :
  NoDup l.*1 -> (k, v) ∈ l ->
  foldl (fun acc kv => match f kv.1 kv.2 with
                       | Some v' => <[kv.1 := v']> acc
                       | None => delete kv.1 acc
                       end) acc l !! k = f k v.
Proof.
  revert acc. induction l as [|[k' v'] l IH]; intros acc Hnd Hin.
  { by apply elem_of_nil in Hin. }
  simpl in Hnd. apply NoDup_cons in Hnd as [Hnin Hnd].
  apply elem_of_cons in Hin as [Heq|Hin].
  - injection Heq as Hk1 Hv1; subst k' v'. simpl. rewrite update_fold_notin by done.
    destruct (f k v); [apply lookup_insert_eq | apply lookup_delete_eq].
  - simpl. by apply IH.
Qed.

(** [updateEach f m] looks like [m] with [f] applied at every key. *)
Lemma updateEach_lookup (f : K -> V -> option V) (m : gmap K V) k :
  updateEach f m !! k = m !! k ≫= f k.
Proof.
  unfold updateEach. destruct (m !! k) as [v|] eqn:Hk; simpl.
  - apply update_fold_in; [apply NoDup_fst_map_to_list|]. by apply elem_of_map_to_list.
  - rewrite update_fold_notin; [done|]. intros Hin. apply list_elem_of_fmap in Hin as [[k' v'] [Heq Hin]].
    simpl in Heq; subst k'. apply elem_of_map_to_list in Hin. congruence.
Qed.

Lemma updateO_fold_raise (f : K -> V -> Outcome (option V)) (l : list (K * V)) e :
  foldl (fun (acc : Outcome (gmap K V)) (kv : K * V) => acc' ← acc; r ← f kv.1 kv.2;
                       Ret (match r with Some v' => <[kv.1 := v']> acc' | None => delete kv.1 acc' end))
        (Raise e) l = Raise e.
Proof. induction l as [|kv l IH]; simpl; done. Qed.

Lemma updateO_fold_exit (f : K -> V -> Outcome (option V)) (l : list (K * V)) c :
  foldl (fun (acc : Outcome (gmap K V)) (kv : K * V) => acc' ← acc; r ← f kv.1 kv.2;
                       Ret (match r with Some v' => <[kv.1 := v']> acc' | None => delete kv.1 acc' end))
        (Exit c) l = Exit c.
Proof. induction l as [|kv l IH]; simpl; done. Qed.

Lemma updateO_fold_ret (f : K -> V -> Outcome (option V)) (l : list (K * V)) acc m' :
  NoDup l.*1 ->
  foldl (fun (acc : Outcome (gmap K V)) (kv : K * V) => acc' ← acc; r ← f kv.1 kv.2;
                       Ret (match r with Some v' => <[kv.1 := v']> acc' | None => delete kv.1 acc' end))
        (Ret acc) l = Ret m' ->
  (forall k, k ∉ l.*1 -> m' !! k = acc !! k) /\ (forall k v, (k, v) ∈ l -> f k v = Ret (m' !! k)).
Proof.
  revert acc. induction l as [|[k' v'] l IH]; intros acc Hnd Hrun; simpl in *.
  { injection Hrun as ->. split; [done|]. intros k v Hin. by apply elem_of_nil in Hin. }
  apply NoDup_cons in Hnd as [Hnin Hnd].
  destruct (f k' v') as [r| e | c] eqn:Hf; simpl in Hrun;
    [| by rewrite updateO_fold_raise in Hrun | by rewrite updateO_fold_exit in Hrun].
  destruct (IH _ Hnd Hrun) as [Hout Hin]. split.
  - intros k Hk. apply not_elem_of_cons in Hk as [Hne Hk]. rewrite Hout by done.
    destruct r; [apply lookup_insert_ne | apply lookup_delete_ne]; congruence.
  - intros k v Hkv. apply elem_of_cons in Hkv as [Heq|Hkv].
    + injection Heq as Hk1 Hv1; subst k' v'. rewrite Hf, Hout by done.
      destruct r; [by rewrite lookup_insert_eq | by rewrite lookup_delete_eq].
    + by apply Hin.
Qed.

(** When [updateEachO f m] returns, each key holds what [f] returned for it. *)
Lemma updateEachO_lookup (f : K -> V -> Outcome (option V)) (m m' : gmap K V) :
  updateEachO f m = Ret m' ->
  forall k, (m !! k = None /\ m' !! k = None) \/ (exists v, m !! k = Some v /\ f k v = Ret (m' !! k)).
Proof.
  unfold updateEachO. intros Hrun k.
  destruct (updateO_fold_ret f _ m m' (NoDup_fst_map_to_list m) Hrun) as [Hout Hin].
  destruct (m !! k) as [v|] eqn:Hk.
  - right. exists v. split; [done|]. apply Hin. by apply elem_of_map_to_list.
  - left. split; [done|]. rewrite Hout, Hk; [done|]. intros Hkin.
    apply list_elem_of_fmap in Hkin as [[k' v'] [Heq Hkin]]. simpl in Heq; subst k'.
    apply elem_of_map_to_list in Hkin. congruence.
Qed.

Lemma updateO_fold_total (f : K -> V -> Outcome (option V)) (l : list (K * V)) acc :
  (forall k v, (k, v) ∈ l -> exists r, f k v = Ret r) ->
  exists m', foldl (fun (acc : Outcome (gmap K V)) (kv : K * V) => acc' ← acc; r ← f kv.1 kv.2;
                       Ret (match r with Some v' => <[kv.1 := v']> acc' | None => delete kv.1 acc' end))
               (Ret acc) l = Ret m'.
Proof.
  revert acc. induction l as [|[k' v'] l IH]; intros acc Hall; simpl; [by eexists|].
  destruct (Hall k' v') as [r Hr]; [by left|]. rewrite Hr. simpl.
  apply IH. intros k v Hin. apply Hall. by right.
Qed.

(** [updateEachO f m] returns when [f] returns at every entry. *)
Lemma updateEachO_total (f : K -> V -> Outcome (option V)) (m : gmap K V) :
  (forall k v, m !! k = Some v -> exists r, f k v = Ret r) ->
  exists m', updateEachO f m = Ret m'.
Proof.
  intros Hall. apply updateO_fold_total. intros k v Hin. apply Hall. by apply elem_of_map_to_list.
Qed.

Lemma nonEmpty_Some (m m' : gmap K V) : nonEmpty m = Some m' -> m' = m /\ m <> ∅.
Proof.
  unfold nonEmpty. destruct (Nat.eqb (size m) 0) eqn:E; [done|]. intros [= <-]. split; [done|].
  intros ->. rewrite map_size_empty in E. done.
Qed.

Lemma nonEmpty_None (m : gmap K V) : nonEmpty m = None -> m = ∅.
Proof.
  unfold nonEmpty. destruct (Nat.eqb (size m) 0) eqn:E; [|done]. intros _.
  apply Nat.eqb_eq in E. by apply map_size_empty_iff.
Qed.

End DictLoops.

(** ** Filter stages and the main-type invariant *)

Lemma obind_Ret_inv {A B} (m : Outcome A) (k : A -> Outcome B) b :
  (x ← m; k x) = Ret b -> exists a, m = Ret a /\ k a = Ret b.
Proof. destruct m as [a| |]; simpl; [eauto|discriminate|discriminate]. Qed.

Lemma containsMain_false_iff s :
  containsMain s = false <-> forall k t, artTypes s !! k = Some t -> mainType t = false.
Proof.
  unfold containsMain. split.
  - intros Hex k t Hk. destruct (mainType t) eqn:Ht; [|done].
    assert (existsb (fun kv : string * ArtifactType => mainType kv.2) (map_to_list (artTypes s)) = true)
      as Htrue; [|congruence].
    apply existsb_exists. exists (k, t). split; [|done].
    apply list_elem_of_In. by apply elem_of_map_to_list.
  - intros Hall. destruct (existsb _ _) eqn:Hex; [|done].
    apply existsb_exists in Hex as [[k t] [Hin Ht]].
    apply list_elem_of_In, elem_of_map_to_list in Hin. simpl in Ht. by rewrite (Hall k t Hin) in Ht.
Qed.

Section Leaves.
Variable P : ArtifactSpec -> Prop.

Definition LeafP (pm : PriorityMap) : Prop :=
  forall p vm v s, pm !! p = Some vm -> vm !! v = Some s -> P s.

Lemma AllLeaves_intro al : (forall ga pm, al !! ga = Some pm -> LeafP pm) -> AllLeaves P al.
Proof. intros H ga pm p vm v s Hga. by apply (H ga pm Hga). Qed.

Lemma LeafP_delete pm q : LeafP pm -> LeafP (delete q pm).
Proof. intros H p vm v s Hp. apply lookup_delete_Some in Hp as [_ Hp]. by apply (H p vm v s Hp). Qed.

Lemma LeafP_foldl_delete pm l : LeafP pm -> LeafP (foldl (fun m p => delete p m) pm l).
Proof. revert pm. induction l as [|q l IH]; intros pm H; simpl; [done|]. by apply IH, LeafP_delete. Qed.

Lemma LeafP_alter pm q (h : VersionMap -> VersionMap) :
  (forall vm, (forall v s, vm !! v = Some s -> P s) -> forall v s, h vm !! v = Some s -> P s) ->
  LeafP pm -> LeafP (alter h q pm).
Proof.
  intros Hh H p vm v s Hp. apply lookup_alter_Some in Hp as [[-> [vm0 [Hq ->]]]|[_ Hp]].
  - apply Hh. intros v' s'. by apply H with (p := p).
  - by apply (H p vm v s Hp).
Qed.

Lemma leaves_foldl_delete (vm : VersionMap) l v s :
  foldl (fun b version => delete version b) vm l !! v = Some s -> vm !! v = Some s.
Proof.
  revert vm. induction l as [|w l IH]; intros vm H; simpl in *; [done|].
  apply IH in H. by apply lookup_delete_Some in H as [_ H].
Qed.

Hypothesis P_set_paths : forall s ps, P s -> P (set_paths s ps).

Lemma LeafP_dupVersionStep priority version pm : LeafP pm -> LeafP (dupVersionStep priority version pm).
Proof.
  unfold dupVersionStep. generalize (map fst (map_to_list pm)) as l. intros l.
  revert pm. induction l as [|pr l IH]; intros pm H; simpl; [done|]. apply IH.
  destruct (pr <=? priority)%Z; [done|].
  destruct (pm !! pr ≫= (fun vm => vm !! version)) as [dup|]; [|done].
  apply LeafP_alter.
  { intros vm Hvm v s Hv. apply lookup_delete_Some in Hv as [_ Hv]. by apply (Hvm v s). }
  destruct (0 <? length (paths dup))%nat; [|done].
  apply LeafP_alter; [|done].
  intros vm Hvm v s Hv. apply lookup_alter_Some in Hv as [[_ [s0 [Hs0 ->]]]|[_ Hv]].
  - apply P_set_paths. exact (Hvm v s0 Hs0).
  - by apply (Hvm v s).
Qed.

Lemma LeafP_dupPriorityStep pm priority : LeafP pm -> LeafP (dupPriorityStep pm priority).
Proof.
  unfold dupPriorityStep. intros H.
  assert (LeafP (foldl (fun acc version => dupVersionStep priority version acc) pm
                   (map fst (map_to_list (default ∅ (pm !! priority)))))) as H1.
  { generalize (map fst (map_to_list (default ∅ (pm !! priority)))) as l. intros l.
    revert pm H. induction l as [|w l IH]; intros pm H; simpl; [done|].
    by apply IH, LeafP_dupVersionStep. }
  destruct (Nat.eqb _ 0); [by apply LeafP_delete|done].
Qed.

Lemma LeafP_dupGA pm : LeafP pm -> LeafP (dupGA pm).
Proof.
  unfold dupGA. generalize (merge_sort Z.le (map fst (map_to_list pm))) as l. intros l.
  revert pm. induction l as [|q l IH]; intros pm H; simpl; [done|].
  by apply IH, LeafP_dupPriorityStep.
Qed.

End Leaves.

Lemma AllLeaves_filterDuplicates P al :
  (forall s ps, P s -> P (set_paths s ps)) -> AllLeaves P al -> AllLeaves P (_filterDuplicates al).
Proof.
  intros HP H. apply AllLeaves_intro. intros ga pm Hga.
  unfold _filterDuplicates in Hga. rewrite updateEach_lookup in Hga.
  destruct (al !! ga) as [pm0|] eqn:Hga0; simpl in Hga; [|discriminate].
  apply nonEmpty_Some in Hga as [-> _]. apply LeafP_dupGA; [done|].
  intros p vm v s Hp Hv. exact (H ga pm0 p vm v s Hga0 Hp Hv).
Qed.

Lemma AllLeaves_filterExcludedGAVs rmatch config al :
  AllLeaves (fun s => containsMain s = true) (_filterExcludedGAVs rmatch config al).
Proof.
  intros ga pm p vm v s Hga Hp Hv. unfold _filterExcludedGAVs in Hga. rewrite updateEach_lookup in Hga.
  destruct (al !! ga) as [pm0|]; simpl in Hga; [|discriminate].
  apply nonEmpty_Some in Hga as [-> _]. rewrite updateEach_lookup in Hp.
  destruct (pm0 !! p) as [vm0|]; simpl in Hp; [|discriminate].
  apply nonEmpty_Some in Hp as [-> _]. rewrite updateEach_lookup in Hv.
  destruct (vm0 !! v) as [s0|]; simpl in Hv; [|discriminate].
  revert Hv. unfold excludedGAVsLeaf. destruct (somethingMatch _ _ _); [discriminate|].
  cbv zeta. destruct (containsMain _) eqn:E; [|discriminate]. intros Hs. injection Hs as <-. done.
Qed.

Lemma excludedTypesLeaf_main rmatch regExps exclTypes ga version s s' :
  excludedTypesLeaf rmatch regExps exclTypes ga version s = Ret (Some s') -> containsMain s' = true.
Proof.
  unfold excludedTypesLeaf. intros H. apply obind_Ret_inv in H as [ats [_ H]].
  destruct (Nat.eqb _ _ || _) eqn:E; [discriminate|]. injection H as <-.
  apply orb_false_iff in E as [_ E]. apply negb_false_iff in E. exact E.
Qed.

Lemma AllLeaves_filterExcludedTypes rmatch config al al' :
  _filterExcludedTypes rmatch config al = Ret al' ->
  AllLeaves (fun s => containsMain s = true) al'.
Proof.
  unfold _filterExcludedTypes. intros Hrun ga pm p vm v s Hga Hp Hv.
  destruct (updateEachO_lookup _ _ _ Hrun ga) as [[_ Hn]|[pm0 [_ Hf]]]; [congruence|].
  rewrite Hga in Hf. apply obind_Ret_inv in Hf as [pm' [Hpm' Hf]].
  injection Hf as Hf. apply nonEmpty_Some in Hf as [-> _].
  destruct (updateEachO_lookup _ _ _ Hpm' p) as [[_ Hn]|[vm0 [_ Hf]]]; [congruence|].
  rewrite Hp in Hf. apply obind_Ret_inv in Hf as [vm' [Hvm' Hf]].
  injection Hf as Hf. apply nonEmpty_Some in Hf as [-> _].
  destruct (updateEachO_lookup _ _ _ Hvm' v) as [[_ Hn]|[s0 [_ Hf]]]; [congruence|].
  rewrite Hv in Hf. by apply excludedTypesLeaf_main in Hf.
Qed.

Section MoreLeaves.
Variable P : ArtifactSpec -> Prop.

Lemma LeafP_insert pm p vm :
  LeafP P pm -> (forall v s, vm !! v = Some s -> P s) -> LeafP P (<[p := vm]> pm).
Proof.
  intros H Hvm p' vm' v s Hp. apply lookup_insert_Some in Hp as [[<- <-]|[_ Hp]].
  - apply Hvm.
  - by apply (H p' vm' v s Hp).
Qed.

Lemma AllLeaves_insert al ga pm : AllLeaves P al -> LeafP P pm -> AllLeaves P (<[ga := pm]> al).
Proof.
  intros H Hpm ga' pm' p vm v s Hga. apply lookup_insert_Some in Hga as [[<- <-]|[_ Hga]].
  - apply Hpm.
  - by apply (H ga' pm' p vm v s Hga).
Qed.

Lemma AllLeaves_delete al ga : AllLeaves P al -> AllLeaves P (delete ga al).
Proof.
  intros H ga' pm' p vm v s Hga. apply lookup_delete_Some in Hga as [_ Hga].
  by apply (H ga' pm' p vm v s Hga).
Qed.

Lemma LeafP_multipleVersionsGA vle pm pm' :
  multipleVersionsGA vle pm = Ret pm' -> LeafP P pm -> LeafP P pm'.
Proof.
  unfold multipleVersionsGA. intros H HL. apply obind_Ret_inv in H as [priority [_ H]].
  cbv beta zeta in H. injection H as <-. apply LeafP_foldl_delete, LeafP_insert; [done|].
  intros v s Hv. apply leaves_foldl_delete in Hv.
  destruct (pm !! priority) as [vm|] eqn:E; simpl in Hv.
  - by apply (HL priority vm v s E).
  - by rewrite lookup_empty in Hv.
Qed.

Lemma AllLeaves_filterMultipleVersions rmatch vle config al al' :
  _filterMultipleVersions rmatch vle config al = Ret al' -> AllLeaves P al -> AllLeaves P al'.
Proof.
  unfold _filterMultipleVersions. intros Hrun HL. apply AllLeaves_intro. intros ga pm Hga.
  destruct (updateEachO_lookup _ _ _ Hrun ga) as [[_ Hn]|[pm0 [Hga0 Hf]]]; [congruence|].
  rewrite Hga in Hf.
  assert (LeafP P pm0) as HL0.
  { intros p vm v s Hp Hv. exact (HL ga pm0 p vm v s Hga0 Hp Hv). }
  destruct (somethingMatch _ _ _).
  - injection Hf as <-. done.
  - apply obind_Ret_inv in Hf as [pm' [Hpm' Hf]]. injection Hf as Hf.
    apply nonEmpty_Some in Hf as [-> _]. by apply (LeafP_multipleVersionsGA vle pm0).
Qed.

Lemma deleteFound_fold_raise l e : foldl deleteFound (Raise e) l = Raise e.
Proof. induction l as [|ap l IH]; simpl; [done|]. destruct ap. exact IH. Qed.

Lemma deleteFound_fold_exit l c : foldl deleteFound (Exit c) l = Exit c.
Proof. induction l as [|ap l IH]; simpl; [done|]. destruct ap. exact IH. Qed.

Lemma AllLeaves_deleteFound al al1 ap :
  deleteFound (Ret al) ap = Ret al1 -> AllLeaves P al -> AllLeaves P al1.
Proof.
  destruct ap as [art pr]. unfold deleteFound, py_get. simpl.
  destruct (al !! getGA art) as [pm|] eqn:Hga; simpl; [|discriminate].
  destruct (pm !! pr) as [vm|] eqn:Hpr; simpl; [|discriminate].
  destruct (vm !! version art) as [s|] eqn:Hv; simpl; [|discriminate].
  intros H HL. injection H as <-.
  assert (LeafP P pm) as HLpm.
  { intros p vm' v s' Hp Hv'. exact (HL _ pm p vm' v s' Hga Hp Hv'). }
  match goal with |- AllLeaves P (if Nat.eqb (size ?x) 0 then _ else _) =>
    assert (LeafP P x) as HLx;
    [|destruct (Nat.eqb (size x) 0); [by apply AllLeaves_delete|by apply AllLeaves_insert]] end.
  destruct (Nat.eqb _ 0); [by apply LeafP_delete|].
  apply LeafP_insert; [done|]. intros v s' Hv'. apply lookup_delete_Some in Hv' as [_ Hv'].
  exact (HLpm pr vm v s' Hpr Hv').
Qed.

Lemma AllLeaves_filterExcludedRepositories gavExists config al al' :
  _filterExcludedRepositories gavExists config al = Ret al' -> AllLeaves P al -> AllLeaves P al'.
Proof.
  unfold _filterExcludedRepositories. intros H. apply obind_Ret_inv in H as [dels [_ H]].
  revert al H. induction dels as [|ap dels IH]; intros al H HL; cbn [foldl] in H.
  - injection H as <-. done.
  - destruct (deleteFound (Ret al) ap) as [al1|e|c] eqn:E.
    + apply (IH al1 H). by apply (AllLeaves_deleteFound al al1 ap).
    + by rewrite deleteFound_fold_raise in H.
    + by rewrite deleteFound_fold_exit in H.
Qed.

End MoreLeaves.

(** Claim C3 (amended): [containsMain] is false exactly when no artifact
    type of the entry is a main type; and when the configuration excludes
    GAVs or types, every version entry left by [Filter.filter] contains a
    main type. *)
Theorem filter_leaves_contain_main rmatch vle gavExists config al al'
    (Hcfg : excludedGAVs config <> [] \/ excludedTypes config <> [])
    (Hrun : filter_ rmatch vle gavExists config al = Ret al') :
  (forall s, containsMain s = false <-> forall k t, artTypes s !! k = Some t -> mainType t = false) /\
  AllLeaves (fun s => containsMain s = true) al'.
Proof.
  split; [exact containsMain_false_iff|].
  unfold filter_ in Hrun.
  apply obind_Ret_inv in Hrun as [al1 [H1 Hrun]].
  apply obind_Ret_inv in Hrun as [al2 [H2 Hrun]].
  cbv beta zeta in Hrun.
  apply obind_Ret_inv in Hrun as [al4 [H4 Hrun]].
  assert (AllLeaves (fun s => containsMain s = true) al2) as HL2.
  { destruct (decide (excludedTypes config = [])) as [Ht|Ht].
    - rewrite bool_decide_true in H2 by done. injection H2 as <-.
      destruct Hcfg as [Hg|Ht']; [|done].
      rewrite bool_decide_false in H1 by done. injection H1 as <-. apply AllLeaves_filterExcludedGAVs.
    - rewrite bool_decide_false in H2 by done. by apply AllLeaves_filterExcludedTypes in H2. }
  assert (AllLeaves (fun s => containsMain s = true) al4) as HL4.
  { assert (AllLeaves (fun s => containsMain s = true) (_filterDuplicates al2)) as HL3.
    { apply AllLeaves_filterDuplicates; [|done]. intros s ps Hs. exact Hs. }
    destruct (singleVersion config).
    - by apply (AllLeaves_filterMultipleVersions _ rmatch vle config _ _ H4).
    - by injection H4 as <-. }
  destruct (decide (excludedRepositories config = [])) as [Hr|Hr].
  - rewrite bool_decide_true in Hrun by done. by injection Hrun as <-.
  - rewrite bool_decide_false in Hrun by done.
    by apply (AllLeaves_filterExcludedRepositories _ gavExists config al4).
Qed.

(** The hypotheses of [filter_leaves_contain_main] hold: with one excluded
    GAV pattern, the entry without a main type is removed. *)
Lemma filter_leaves_contain_main_witness :
  filter_ (fun _ _ => false) (fun _ _ => true) (fun _ _ => false)
    (mkConfiguration ["x:y:2.0"] [] [] false [] []) sourcesOnlyList = Ret ∅ /\
  AllLeaves (fun s => containsMain s = true) (∅ : ArtifactList).
Proof.
  assert (filter_ (fun _ _ => false) (fun _ _ => true) (fun _ _ => false)
            (mkConfiguration ["x:y:2.0"] [] [] false [] []) sourcesOnlyList = Ret ∅) as Hrun
    by (vm_compute; reflexivity).
  split; [exact Hrun|].
  apply (filter_leaves_contain_main (fun _ _ => false) (fun _ _ => true) (fun _ _ => false)
           (mkConfiguration ["x:y:2.0"] [] [] false [] []) sourcesOnlyList ∅
           ltac:(left; discriminate) Hrun).
Defined.

(** Claim C3, counterexample: when neither GAVs nor types are excluded,
    [Filter.filter] returns an entry that holds only a sources jar, whose
    [containsMain] is false. *)
Lemma filter_keeps_entry_without_main :
  filter_ (fun _ _ => false) (fun _ _ => true) (fun _ _ => false) emptyConfig sourcesOnlyList
    = Ret sourcesOnlyList /\
  sourcesOnlyList !! "g:a" ≫= (fun pm => look pm 1 "1.0") = Some sourcesOnlySpec /\
  containsMain sourcesOnlySpec = false.
Proof. split; [|split]; vm_compute; reflexivity. Qed.

(** ** Excluded GAVs *)

Lemma foldl_ext_pointwise {A B} (f g : A -> B -> A) (l : list B) a :
  (forall a x, f a x = g a x) -> foldl f a l = foldl g a l.
Proof. intros Hfg. revert a. induction l as [|x l IH]; intros a; simpl; [done|]. by rewrite Hfg. Qed.

Lemma existsb_filter_map (P : RegExp -> Prop) `{!forall r, Decision (P r)} (f : RegExp -> bool)
    (pats : list string) (g : string -> RegExp) (b : string -> bool) :
  (forall r, bool_decide (P (g r)) = b r) ->
  existsb f (filter P (map g pats)) = existsb (fun r => b r && f (g r)) pats.
Proof.
  intros Hb. induction pats as [|r pats IH]; [done|]. cbn [map].
  destruct (decide (P (g r))) as [HP|HP].
  - rewrite filter_cons_True by done. cbn [existsb]. rewrite <- Hb, bool_decide_true by done.
    by rewrite IH.
  - rewrite filter_cons_False by done. cbn [existsb]. rewrite <- Hb, bool_decide_false by done.
    by rewrite IH.
Qed.

Lemma classifiers_foldl (P : string -> bool) (at_ : ArtifactType) (l : list string) :
  foldl (fun at_ c => if P c then set_classifiers at_ (classifiers at_ ∖ {[c]}) else at_) at_ l =
  set_classifiers at_ (classifiers at_ ∖ list_to_set (List.filter P l)).
Proof.
  revert at_. induction l as [|c l IH]; intros at_; simpl.
  - destruct at_ as [t mn cls]. unfold set_classifiers; simpl. f_equal.
    apply leibniz_equiv. set_solver.
  - destruct (P c) eqn:Hc; rewrite IH; destruct at_ as [t mn cls]; unfold set_classifiers; simpl;
      f_equal; apply leibniz_equiv; set_solver.
Qed.

Lemma updateEach_empty {K V} `{Countable K} (f : K -> V -> option V) (m : gmap K V) k x :
  updateEach f m = ∅ -> m !! k = Some x -> f k x = None.
Proof.
  intros He Hk. pose proof (updateEach_lookup f m k) as E. rewrite He, lookup_empty, Hk in E.
  simpl in E. by symmetry.
Qed.

Lemma excludedGAVsLeaf_rule rmatch patterns ga version s :
  excludedGAVsLeaf rmatch
    (filter (fun r => ~ (2 < count_char ":" (re_pattern r)))%nat (getRegExpsFromStrings patterns true))
    (filter (fun r => 2 < count_char ":" (re_pattern r))%nat (getRegExpsFromStrings patterns true))
    ga version s
  = excludedGAVsRule rmatch patterns ga version s.
Proof.
  assert (forall r, bool_decide (~ (2 < count_char ":" r)%nat) = (count_char ":" r <=? 2)%nat) as E1.
  { intros r. destruct (Nat.leb_spec (count_char ":" r) 2); simpl;
      [apply bool_decide_eq_true|apply bool_decide_eq_false]; lia. }
  assert (forall r, bool_decide (2 < count_char ":" r)%nat = negb (count_char ":" r <=? 2)%nat) as E2.
  { intros r. destruct (Nat.leb_spec (count_char ":" r) 2); simpl;
      [apply bool_decide_eq_false|apply bool_decide_eq_true]; lia. }
  unfold excludedGAVsLeaf, excludedGAVsRule, somethingMatch, getRegExpsFromStrings. cbv zeta.
  rewrite (existsb_filter_map (fun r => ~ (2 < count_char ":" (re_pattern r)))%nat _ _
             (fun s => mkRegExp s true) (fun r => (count_char ":" r <=? 2)%nat) E1).
  destruct (existsb _ _); [done|].
  match goal with |- context [updateEach ?f (artTypes s)] => set (ats := updateEach f (artTypes s)) end.
  match goal with |- context [map_imap ?h (artTypes s)] => set (ats' := map_imap h (artTypes s)) end.
  assert (ats = ats') as ->; [|done].
  apply map_eq. intros t. subst ats ats'. rewrite map_lookup_imap, updateEach_lookup.
  destruct (artTypes s !! t) as [at0|]; simpl; [|done].
  unfold excludedGATCVType, somethingMatch. cbv zeta. rewrite classifiers_foldl.
  set (Pm := fun c => existsb (fun r => rmatch r (gatcvString ga t c version))
                        (filter (fun r => 2 < count_char ":" (re_pattern r))%nat
                           (map (fun s => mkRegExp s true) patterns))).
  set (Pr := fun c => existsb (fun r => negb (count_char ":" r <=? 2)%nat &&
                                      rmatch (mkRegExp r true) (gatcvString ga t c version)) patterns).
  assert (forall c, Pm c = Pr c) as EP.
  { intros c. subst Pm Pr. simpl.
    exact (existsb_filter_map (fun r => 2 < count_char ":" (re_pattern r))%nat _ _
             (fun s => mkRegExp s true) (fun r => negb (count_char ":" r <=? 2)%nat) E2). }
  assert (classifiers at0 ∖ list_to_set (List.filter Pm (elements (classifiers at0))) =
          filter (fun c => Pr c = false) (classifiers at0)) as EC.
  { apply leibniz_equiv. intros c. rewrite elem_of_difference, elem_of_list_to_set, elem_of_filter.
    rewrite list_elem_of_In, filter_In, <- list_elem_of_In, elem_of_elements, EP.
    destruct (Pr c); intuition congruence. }
  fold Pm. rewrite EC. destruct at0 as [ty mn cls]. unfold set_classifiers; simpl.
  case_bool_decide as He.
  - change (filter (fun c => Pr c = false) cls = ∅) in He. rewrite He, size_empty. done.
  - change (filter (fun c => Pr c = false) cls <> ∅) in He.
    destruct (Nat.eqb _ 0) eqn:Hs; [|done]. exfalso. apply Nat.eqb_eq in Hs.
    apply He. apply leibniz_equiv. by apply size_empty_iff.
Qed.

(** Claim C5: after [_filterExcludedGAVs], each version entry is what the
    excluded-GAV rule gives: removed when a pattern with at most two colons
    matches ["ga:version"] (whatever types and classifiers it holds);
    otherwise only the classifiers matched by a pattern with more than two
    colons are removed, then the types left without classifiers, then the
    entry when no main type remains. *)
Theorem filterExcludedGAVs_rule rmatch config al ga pm p vm v s
    (Hga : al !! ga = Some pm) (Hp : pm !! p = Some vm) (Hv : vm !! v = Some s) :
  _filterExcludedGAVs rmatch config al !! ga ≫= (fun pm' => look pm' p v)
    = excludedGAVsRule rmatch (excludedGAVs config) ga v s /\
  (forall r, r ∈ excludedGAVs config -> (count_char ":" r <= 2)%nat ->
     rmatch (mkRegExp r true) (ga ++ ":" ++ v) = true ->
     _filterExcludedGAVs rmatch config al !! ga ≫= (fun pm' => look pm' p v) = None).
Proof.
  assert (_filterExcludedGAVs rmatch config al !! ga ≫= (fun pm' => look pm' p v)
          = excludedGAVsRule rmatch (excludedGAVs config) ga v s) as Hrule.
  { unfold _filterExcludedGAVs. cbv zeta. rewrite updateEach_lookup, Hga. simpl.
    destruct (nonEmpty _) as [pm'|] eqn:E1; simpl.
    - apply nonEmpty_Some in E1 as [E1 _]. unfold look. rewrite E1, updateEach_lookup, Hp. simpl.
      destruct (nonEmpty _) as [vm'|] eqn:E2; simpl.
      + apply nonEmpty_Some in E2 as [E2 _]. rewrite E2, updateEach_lookup, Hv. simpl.
        apply excludedGAVsLeaf_rule.
      + apply nonEmpty_None in E2. rewrite <- excludedGAVsLeaf_rule.
        symmetry. exact (updateEach_empty _ _ v s E2 Hv).
    - apply nonEmpty_None in E1. pose proof (updateEach_empty _ _ p vm E1 Hp) as E2.
      apply nonEmpty_None in E2. rewrite <- excludedGAVsLeaf_rule.
      symmetry. exact (updateEach_empty _ _ v s E2 Hv). }
  split; [exact Hrule|].
  intros r Hr Hc Hm. rewrite Hrule. unfold excludedGAVsRule. cbv zeta.
  replace (existsb _ _) with true; [done|]. symmetry.
  apply existsb_exists. exists r. split; [by apply list_elem_of_In|].
  rewrite Hm. apply Nat.leb_le in Hc. rewrite Hc. done.
Qed.

(** The excluded-GAV pattern ["g:a:1.0"] removes version 1.0 of g:a, which
    has two types and three classifiers. *)
Lemma filterExcludedGAVs_rule_witness :
  _filterExcludedGAVs literalMatch (mkConfiguration ["g:a:1.0"] [] [] false [] []) twoTypesList !! "g:a"
    ≫= (fun pm' => look pm' 1 "1.0") = None.
Proof.
  apply (proj2 (filterExcludedGAVs_rule literalMatch (mkConfiguration ["g:a:1.0"] [] [] false [] [])
                  twoTypesList "g:a" _ 1 _ "1.0" twoTypesSpec
                  ltac:(vm_compute; reflexivity) ltac:(vm_compute; reflexivity)
                  ltac:(vm_compute; reflexivity)) "g:a:1.0").
  - left.
  - simpl. lia.
  - vm_compute. reflexivity.
Defined.

(** ** Duplicate filter: shape of the result *)

Lemma keys_elem {K V} `{Countable K} (m : gmap K V) k : k ∈ map fst (map_to_list m) <-> is_Some (m !! k).
Proof.
  rewrite map_fmap_list, list_elem_of_fmap. split.
  - intros [[k' x] [-> Hin]]. apply elem_of_map_to_list in Hin. by exists x.
  - intros [x Hx]. exists (k, x). split; [done|]. by apply elem_of_map_to_list.
Qed.

Lemma dupVersionStep_lower q v acc p : (p < q)%Z -> dupVersionStep q v acc !! p = acc !! p.
Proof.
  intros Hpq. unfold dupVersionStep. generalize (map fst (map_to_list acc)) as l. intros l.
  revert acc. induction l as [|pr l IH]; intros acc; simpl; [done|]. rewrite IH.
  destruct (pr <=? q)%Z eqn:Hpr; [done|]. apply Z.leb_gt in Hpr.
  destruct (acc !! pr ≫= _) as [dup|]; [|done].
  rewrite lookup_alter_ne by lia.
  destruct (0 <? _)%nat; [|done]. rewrite lookup_alter_ne by lia. done.
Qed.

Lemma dupVersionStep_dom q v acc p : is_Some (dupVersionStep q v acc !! p) <-> is_Some (acc !! p).
Proof.
  unfold dupVersionStep. generalize (map fst (map_to_list acc)) as l. intros l.
  revert acc. induction l as [|pr l IH]; intros acc; simpl; [done|]. rewrite IH.
  destruct (pr <=? q)%Z; [done|].
  destruct (acc !! pr ≫= _) as [dup|]; [|done].
  rewrite lookup_alter_is_Some. destruct (0 <? _)%nat; [|done]. by rewrite lookup_alter_is_Some.
Qed.

Lemma versions_fold_lower q vs acc p : (p < q)%Z ->
  foldl (fun acc version => dupVersionStep q version acc) acc vs !! p = acc !! p.
Proof.
  intros Hpq. revert acc. induction vs as [|w vs IH]; intros acc; simpl; [done|].
  rewrite IH. by apply dupVersionStep_lower.
Qed.

Lemma versions_fold_dom q vs acc p :
  is_Some (foldl (fun acc version => dupVersionStep q version acc) acc vs !! p) <-> is_Some (acc !! p).
Proof.
  revert acc. induction vs as [|w vs IH]; intros acc; simpl; [done|].
  rewrite IH. apply dupVersionStep_dom.
Qed.

Lemma dupPriorityStep_lower acc q p : (p < q)%Z -> dupPriorityStep acc q !! p = acc !! p.
Proof.
  intros Hpq. unfold dupPriorityStep. cbv zeta.
  destruct (Nat.eqb _ 0); [rewrite lookup_delete_ne by lia|]; by apply versions_fold_lower.
Qed.

Lemma dupPriorityStep_dom acc q p : is_Some (dupPriorityStep acc q !! p) -> is_Some (acc !! p).
Proof.
  unfold dupPriorityStep. cbv zeta. intros H.
  destruct (Nat.eqb _ 0); [apply lookup_delete_is_Some in H as [_ H]|]; by apply versions_fold_dom in H.
Qed.

Lemma dupPriorityStep_self acc q vm : dupPriorityStep acc q !! q = Some vm -> vm <> ∅.
Proof.
  unfold dupPriorityStep. cbv zeta.
  destruct (Nat.eqb _ 0) eqn:E; [by rewrite lookup_delete_eq|].
  intros Hq. rewrite Hq in E. simpl in E. intros ->. rewrite map_size_empty in E. done.
Qed.

Lemma StronglySorted_le_lt (l : list Z) : StronglySorted Z.le l -> NoDup l -> StronglySorted Z.lt l.
Proof.
  induction l as [|x l IH]; intros Hs Hnd; [constructor|].
  apply StronglySorted_inv in Hs as [Hs Hf]. apply NoDup_cons in Hnd as [Hx Hnd].
  constructor; [by apply IH|]. apply Forall_forall. intros y Hy.
  rewrite Forall_forall in Hf. pose proof (Hf y Hy) as Hle.
  assert (x <> y); [|lia]. intros ->. by apply Hx.
Qed.

Lemma dupGA_fold_nonempty l acc :
  StronglySorted Z.lt l ->
  (forall p vm, acc !! p = Some vm -> p ∈ l \/ (vm <> ∅ /\ forall q, q ∈ l -> (p < q)%Z)) ->
  forall p vm, foldl dupPriorityStep acc l !! p = Some vm -> vm <> ∅.
Proof.
  revert acc. induction l as [|q l IH]; intros acc Hs Hinv; simpl.
  { intros p vm Hp. destruct (Hinv p vm Hp) as [Hin|[Hne _]]; [by apply elem_of_nil in Hin|done]. }
  apply StronglySorted_inv in Hs as [Hs Hf]. rewrite Forall_forall in Hf.
  apply IH; [done|]. intros p vm Hp.
  destruct (Z.lt_trichotomy p q) as [Hlt|[->|Hgt]].
  - rewrite dupPriorityStep_lower in Hp by done.
    destruct (Hinv p vm Hp) as [Hin|[Hne Hall]].
    + exfalso. apply elem_of_cons in Hin as [->|Hin]; [lia|].
      pose proof (Hf p Hin). lia.
    + right. split; [done|]. intros q' Hq'. apply Hall. by right.
  - right. split; [by apply (dupPriorityStep_self acc q)|].
    intros q' Hq'. by apply Hf.
  - destruct (dupPriorityStep_dom acc q p) as [vm0 Hvm0]; [by rewrite Hp|].
    destruct (Hinv p vm0 Hvm0) as [Hin|[_ Hall]].
    + left. apply elem_of_cons in Hin as [->|Hin]; [lia|done].
    + exfalso. assert (p < q)%Z by (apply Hall; left). lia.
Qed.

Lemma dupGA_nonempty pm p vm : dupGA pm !! p = Some vm -> vm <> ∅.
Proof.
  unfold dupGA. apply dupGA_fold_nonempty.
  - apply StronglySorted_le_lt.
    + apply StronglySorted_merge_sort; [apply _|]. intros x y. lia.
    + rewrite (merge_sort_Permutation Z.le). rewrite map_fmap_list. apply NoDup_fst_map_to_list.
  - intros p' vm' Hp'. left. rewrite (merge_sort_Permutation Z.le). apply keys_elem. by exists vm'.
Qed.

(** The group:artifacts left by the duplicate filter have a non-empty
    priority map whose version maps are non-empty. *)
Lemma filterDuplicates_nonempty al ga pm :
  _filterDuplicates al !! ga = Some pm -> pm <> ∅ /\ forall p vm, pm !! p = Some vm -> vm <> ∅.
Proof.
  unfold _filterDuplicates. rewrite updateEach_lookup.
  destruct (al !! ga) as [pm0|]; simpl; [|discriminate].
  intros H. apply nonEmpty_Some in H as [-> Hne]. split; [done|]. apply dupGA_nonempty.
Qed.

(** ** Single-version filter *)

Section FoldDelete.
Context {K V : Type} `{Countable K}.

Lemma foldl_delete_notin (m : gmap K V) l k : k ∉ l -> foldl (fun b k => delete k b) m l !! k = m !! k.
Proof.
  revert m. induction l as [|k' l IH]; intros m Hl; simpl; [done|].
  apply not_elem_of_cons in Hl as [Hne Hl]. rewrite IH by done. apply lookup_delete_ne. congruence.
Qed.

Lemma foldl_delete_in (m : gmap K V) l k : k ∈ l -> foldl (fun b k => delete k b) m l !! k = None.
Proof.
  revert m. induction l as [|k' l IH]; intros m Hin; [by apply elem_of_nil in Hin|]. simpl.
  destruct (decide (k ∈ l)) as [Hl|Hl]; [by apply IH|].
  apply elem_of_cons in Hin as [->|Hin]; [|done].
  rewrite foldl_delete_notin by done. apply lookup_delete_eq.
Qed.

End FoldDelete.

Section SingleVersion.
Variable vle : string -> string -> bool.
Hypothesis vle_total : forall a b, vle a b = true \/ vle b a = true.
Hypothesis vle_trans : forall a b c, vle a b = true -> vle b c = true -> vle a c = true.

#[local] Instance version_ge_dec' : RelDecision (version_ge vle) := version_ge_dec vle.

#[local] Instance version_ge_trans : Transitive (version_ge vle).
Proof. intros a b c Hab Hbc. unfold version_ge in *. eapply vle_trans; eauto. Qed.

#[local] Instance version_ge_total : Total (version_ge vle).
Proof. intros a b. unfold version_ge. destruct (vle_total a b); auto. Qed.

(** The versions [_filterMultipleVersions] walks: the first one is a maximum. *)
Lemma sorted_versions_head (versions : list string) :
  versions <> [] -> NoDup versions ->
  let vs := if (1 <? length versions)%nat then sortVersionsWithAtlas vle versions else versions in
  exists v rest, vs = v :: rest /\ vs ≡ₚ versions /\ NoDup vs /\ forall v', v' ∈ vs -> vle v' v = true.
Proof.
  intros Hne Hnd. cbv zeta. destruct (1 <? length versions)%nat eqn:Hlen.
  - unfold sortVersionsWithAtlas.
    pose proof (merge_sort_Permutation (version_ge vle) versions) as Hperm.
    pose proof (StronglySorted_merge_sort (version_ge vle) versions) as Hsort.
    destruct (merge_sort (version_ge vle) versions) as [|v rest] eqn:Hms.
    + exfalso. apply Hne. symmetry in Hperm. by apply Permutation_nil_r in Hperm.
    + exists v, rest. split; [done|]. split; [done|]. split; [by rewrite Hperm|].
      apply StronglySorted_inv in Hsort as [_ Hf]. rewrite Forall_forall in Hf.
      intros v' Hv'. apply elem_of_cons in Hv' as [->|Hv'].
      * by destruct (vle_total v v) as [E|E].
      * exact (Hf v' Hv').
  - destruct versions as [|v [|w rest]]; [done| |done].
    exists v, []. split; [done|]. split; [done|]. split; [done|].
    intros v' Hv'. apply list_elem_of_singleton in Hv' as ->. by destruct (vle_total v v).
Qed.

(** [_filterMultipleVersions] on one group:artifact whose priority map and
    version maps are non-empty: only the lowest priority is kept, with only
    a highest version. *)
Lemma multipleVersionsGA_single (pm : PriorityMap) :
  pm <> ∅ -> (forall p vm, pm !! p = Some vm -> vm <> ∅) ->
  exists p0 vm v s,
    pm !! p0 = Some vm /\ (forall p, is_Some (pm !! p) -> (p0 <= p)%Z) /\
    vm !! v = Some s /\ (forall v' s', vm !! v' = Some s' -> vle v' v = true) /\
    multipleVersionsGA vle pm = Ret {[p0 := {[v := s]}]}.
Proof.
  intros Hne Hb. unfold multipleVersionsGA.
  pose proof (merge_sort_Permutation Z.le (map fst (map_to_list pm))) as Hperm.
  pose proof (StronglySorted_merge_sort Z.le (map fst (map_to_list pm)))
    as Hsort.
  assert (NoDup (merge_sort Z.le (map fst (map_to_list pm)))) as Hnd.
  { rewrite Hperm, map_fmap_list. apply NoDup_fst_map_to_list. }
  destruct (merge_sort Z.le (map fst (map_to_list pm))) as [|p0 ps] eqn:Hms.
  { exfalso. apply Hne. symmetry in Hperm. apply Permutation_nil_r in Hperm.
    rewrite map_fmap_list in Hperm. apply fmap_nil_inv in Hperm. by apply map_to_list_empty_iff. }
  assert (is_Some (pm !! p0)) as [vm Hvm].
  { apply keys_elem. rewrite <- Hperm. left. }
  assert (forall p, is_Some (pm !! p) -> p ∈ p0 :: ps) as Hkeys.
  { intros p Hp. rewrite Hperm. by apply keys_elem. }
  apply StronglySorted_inv in Hsort as [_ Hf]. rewrite Forall_forall in Hf.
  apply NoDup_cons in Hnd as [Hp0 Hnd].
  assert (NoDup (map fst (map_to_list vm))) as Hvnd.
  { rewrite map_fmap_list. apply NoDup_fst_map_to_list. }
  assert (map fst (map_to_list vm) <> []) as Hvne.
  { intros E. apply (Hb p0 vm Hvm). rewrite map_fmap_list in E. apply fmap_nil_inv in E.
    by apply map_to_list_empty_iff. }
  destruct (sorted_versions_head _ Hvne Hvnd) as (v & rest & Hvs & Hvperm & Hvsnd & Hmax).
  revert Hvs Hvperm Hvsnd Hmax.
  set (vs := if (1 <? length (map fst (map_to_list vm)))%nat
             then sortVersionsWithAtlas vle (map fst (map_to_list vm)) else map fst (map_to_list vm)).
  intros Hvs Hvperm Hvsnd Hmax.
  assert (is_Some (vm !! v)) as [s Hs].
  { apply keys_elem. rewrite <- Hvperm, Hvs. left. }
  pose proof Hvsnd as Hvsnd'. rewrite Hvs in Hvsnd'. apply NoDup_cons in Hvsnd' as [Hvr _].
  exists p0, vm, v, s. split; [done|]. split.
  { intros p Hp. apply Hkeys in Hp. apply elem_of_cons in Hp as [->|Hp]; [lia|]. by apply Hf. }
  split; [done|]. split.
  { intros v' s' Hv'. apply Hmax. rewrite Hvperm. apply keys_elem. by exists s'. }
  change (py_index (p0 :: ps) 0) with (Ret p0 : Outcome Z).
  cbn [mbind Outcome_bind obind]. rewrite Hvm. cbn [default]. cbv zeta.
  match goal with |- context [if (1 <? length ?x)%nat then ?a else ?b] =>
    change (if (1 <? length x)%nat then a else b) with vs end.
  rewrite Hvs. cbn [drop]. f_equal. apply map_eq. intros k.
  destruct (decide (k = p0)) as [->|Hk].
  - rewrite foldl_delete_notin by done. rewrite lookup_insert_eq, lookup_singleton_eq. f_equal.
    apply map_eq. intros w. destruct (decide (w = v)) as [->|Hw].
    + rewrite foldl_delete_notin by done. by rewrite lookup_singleton_eq.
    + rewrite lookup_singleton_ne by congruence.
      destruct (decide (w ∈ rest)) as [Hin|Hin]; [by apply foldl_delete_in|].
      rewrite foldl_delete_notin by done. destruct (vm !! w) as [x|] eqn:E; [|done].
      exfalso. assert (w ∈ vs) as Hw'.
      { rewrite Hvperm. apply keys_elem. by exists x. }
      rewrite Hvs in Hw'. apply elem_of_cons in Hw' as [->|Hw']; done.
  - rewrite lookup_singleton_ne by congruence.
    destruct (decide (k ∈ ps)) as [Hin|Hin]; [by apply foldl_delete_in|].
    rewrite foldl_delete_notin by done. rewrite lookup_insert_ne by congruence.
    destruct (pm !! k) as [x|] eqn:E; [|done].
    exfalso. assert (k ∈ p0 :: ps) as Hk' by (apply Hkeys; by exists x).
    apply elem_of_cons in Hk' as [->|Hk']; done.
Qed.

End SingleVersion.

(** Claim C6: after the single-version filter, which runs on the output of the
    duplicate filter, every group:artifact that no allow-list pattern matches
    keeps exactly its lowest priority and, in it, exactly one version, a
    maximum of that bucket for the version comparator; a group:artifact an
    allow-list pattern matches is unchanged, and no group:artifact appears. *)
Theorem filterMultipleVersions_single rmatch vle config al
  (vle_total : forall a b, vle a b = true \/ vle b a = true)
  (vle_trans : forall a b c, vle a b = true -> vle b c = true -> vle a c = true) :
  exists al', _filterMultipleVersions rmatch vle config (_filterDuplicates al) = Ret al' /\
  (forall ga pm, _filterDuplicates al !! ga = Some pm ->
     (somethingMatch rmatch (getRegExpsFromStrings (multiVersionGAs config) false) ga = true ->
        al' !! ga = Some pm) /\
     (somethingMatch rmatch (getRegExpsFromStrings (multiVersionGAs config) false) ga = false ->
        exists p0 vm v s, pm !! p0 = Some vm /\ (forall p, is_Some (pm !! p) -> (p0 <= p)%Z) /\
          vm !! v = Some s /\ (forall v' s', vm !! v' = Some s' -> vle v' v = true) /\
          al' !! ga = Some {[p0 := {[v := s]}]})) /\
  (forall ga, _filterDuplicates al !! ga = None -> al' !! ga = None).
Proof.
  unfold _filterMultipleVersions.
  edestruct (updateEachO_total (K:=string) (V:=PriorityMap)) as [al' Hal'];
    [|exists al'; split; [exact Hal'|]].
  { intros ga pm Hga. simpl. destruct (somethingMatch rmatch (getRegExpsFromStrings (multiVersionGAs config) false) ga); [by eexists|].
    destruct (filterDuplicates_nonempty _ _ _ Hga) as [Hne Hb].
    destruct (multipleVersionsGA_single vle vle_total vle_trans pm Hne Hb) as (p0&vm&v&s&_&_&_&_&Hr).
    rewrite Hr. simpl. by eexists. }
  split.
  - intros ga pm Hga.
    destruct (updateEachO_lookup _ _ _ Hal' ga) as [[H1 _]|(pm0 & H1 & H2)]; [congruence|].
    rewrite Hga in H1. injection H1 as <-. split.
    + intros Hm. rewrite Hm in H2. by injection H2.
    + intros Hm. rewrite Hm in H2.
      destruct (filterDuplicates_nonempty _ _ _ Hga) as [Hne Hb].
      destruct (multipleVersionsGA_single vle vle_total vle_trans pm Hne Hb)
        as (p0&vm&v&s&Hvm&Hmin&Hs&Hmax&Hr).
      rewrite Hr in H2. simpl in H2. unfold nonEmpty in H2. rewrite map_size_singleton in H2.
      simpl in H2. injection H2 as H2.
      exists p0, vm, v, s. repeat split; auto.
  - intros ga Hga.
    destruct (updateEachO_lookup _ _ _ Hal' ga) as [[_ H1]|(pm0 & H1 & _)]; [done|congruence].
Qed.

Lemma filterMultipleVersions_single_witness :
  exists al', _filterMultipleVersions literalMatch lastCharLe singleVersionConfig
                (_filterDuplicates threeVersionsList) = Ret al' /\
  al' !! "g:a" = Some {[1%Z := {["1.2" := twoTypesSpec]}]}.
Proof.
  destruct (filterMultipleVersions_single literalMatch lastCharLe singleVersionConfig threeVersionsList)
    as [al' [Hrun _]].
  - intros a b. unfold lastCharLe. destruct (Nat.leb_spec (lastChar a) (lastChar b)); [left; done|].
    right. apply Nat.leb_le. lia.
  - intros a b c. unfold lastCharLe. rewrite !Nat.leb_le. lia.
  - exists al'. split; [exact Hrun|].
    vm_compute in Hrun. injection Hrun as <-. vm_compute. reflexivity.
Defined.

(** ** Duplicate filter: the entries of one version across priorities *)

Section Column.
Variable v : string.

Lemma look_delete_eq (m : PriorityMap) q : look (delete q m) q v = None.
Proof. unfold look. by rewrite lookup_delete_eq. Qed.

Lemma look_delete_ne (m : PriorityMap) q p : q <> p -> look (delete q m) p v = look m p v.
Proof. intros Hne. unfold look. by rewrite lookup_delete_ne. Qed.

Lemma look_alter_ne (f : VersionMap -> VersionMap) (m : PriorityMap) q p :
  q <> p -> look (alter f q m) p v = look m p v.
Proof. intros Hne. unfold look. by rewrite lookup_alter_ne. Qed.

Lemma look_alter_version_ne (g : VersionMap -> VersionMap) (m : PriorityMap) q p :
  (forall vm, g vm !! v = vm !! v) -> look (alter g q m) p v = look m p v.
Proof.
  intros Hg. unfold look. destruct (decide (q = p)) as [->|Hne].
  - rewrite lookup_alter_eq. destruct (m !! p); simpl; [apply Hg|done].
  - by rewrite lookup_alter_ne.
Qed.

Lemma look_alter_delete (m : PriorityMap) pr : look (alter (delete v) pr m) pr v = None.
Proof.
  unfold look. rewrite lookup_alter_eq. destruct (m !! pr); simpl; [apply lookup_delete_eq|done].
Qed.

Lemma look_alter_alter (g : ArtifactSpec -> ArtifactSpec) (m : PriorityMap) q s :
  look m q v = Some s -> look (alter (alter g v) q m) q v = Some (g s).
Proof.
  unfold look. rewrite lookup_alter_eq. destruct (m !! q) as [vm|]; simpl; [|discriminate].
  intros Hs. by rewrite lookup_alter_eq, Hs.
Qed.

(** The loop body for another version leaves the entries of [v] alone. *)
Lemma dupVersionStep_other q w acc p : w <> v -> look (dupVersionStep q w acc) p v = look acc p v.
Proof.
  intros Hw. unfold dupVersionStep. generalize (map fst (map_to_list acc)) as l. intros l.
  revert acc. induction l as [|pr l IH]; intros acc; simpl; [done|]. rewrite IH.
  destruct (pr <=? q)%Z; [done|].
  destruct (acc !! pr ≫= _) as [dup|]; [|done].
  rewrite look_alter_version_ne by (intros vm; by apply lookup_delete_ne).
  destruct (0 <? _)%nat; [|done].
  apply look_alter_version_ne. intros vm. by apply lookup_alter_ne.
Qed.

Lemma versions_fold_other q vs acc p : v ∉ vs ->
  look (foldl (fun acc version => dupVersionStep q version acc) acc vs) p v = look acc p v.
Proof.
  revert acc. induction vs as [|w vs IH]; intros acc Hv; simpl; [done|].
  apply not_elem_of_cons in Hv as [Hw Hv]. rewrite IH by done. apply dupVersionStep_other. congruence.
Qed.

(** A priority that does not hold [v] leaves the entries of [v] alone. *)
Lemma dupPriorityStep_other acc q p : look acc q v = None -> look (dupPriorityStep acc q) p v = look acc p v.
Proof.
  intros Hq. unfold dupPriorityStep. cbv zeta.
  assert (v ∉ map fst (map_to_list (default ∅ (acc !! q)))) as Hv.
  { rewrite keys_elem. unfold look in Hq. intros [x Hx].
    destruct (acc !! q); simpl in *; [congruence|by rewrite lookup_empty in Hx]. }
  destruct (Nat.eqb _ 0).
  - destruct (decide (q = p)) as [->|Hne].
    + rewrite look_delete_eq. by rewrite Hq.
    + rewrite look_delete_ne by done. by apply versions_fold_other.
  - by apply versions_fold_other.
Qed.

(** The loop body for [v] at priority [q]: the entry of [q] is kept and
    gathers the paths of [v] at every higher priority, which all lose [v]. *)
Lemma dupVersionStep_same q acc sq : look acc q v = Some sq ->
  exists s', look (dupVersionStep q v acc) q v = Some s' /\ url s' = url sq /\
    artTypes s' = artTypes sq /\ incl (paths sq) (paths s') /\
    (forall pr d, (q < pr)%Z -> look acc pr v = Some d -> incl (paths d) (paths s')) /\
    (forall pr, (q < pr)%Z -> look (dupVersionStep q v acc) pr v = None).
Proof.
  unfold dupVersionStep.
  assert (forall pr, is_Some (acc !! pr) -> pr ∈ map fst (map_to_list acc)) as Hkeys.
  { intros pr Hpr. by apply keys_elem. }
  revert Hkeys. generalize (map fst (map_to_list acc)) as l. intros l Hkeys.
  assert (forall pr, (q < pr)%Z -> pr ∉ l -> look acc pr v = None) as Hout.
  { intros pr _ Hpr. unfold look. destruct (acc !! pr) eqn:E; [|done].
    exfalso. apply Hpr, Hkeys. by eexists. }
  clear Hkeys.
  assert (forall pr d, (q < pr)%Z -> look acc pr v = Some d -> pr ∈ l) as Hin.
  { intros pr d Hq Hd. destruct (decide (pr ∈ l)); [done|]. rewrite Hout in Hd by done. discriminate. }
  clear Hout. revert acc sq Hin.
  induction l as [|pr l IH]; intros acc sq Hin Hsq; simpl.
  { exists sq. split_and!; [done|done|done|apply incl_refl| |].
    - intros pr d Hq Hd. apply Hin in Hd; [by apply elem_of_nil in Hd|done].
    - intros pr Hq. destruct (look acc pr v) eqn:E; [|done]. apply Hin in E; [by apply elem_of_nil in E|done]. }
  destruct (pr <=? q)%Z eqn:Hpr.
  { apply Z.leb_le in Hpr. apply IH; [|done]. intros pr' d Hq Hd.
    apply Hin in Hd as Hd'; [|done]. apply elem_of_cons in Hd' as [->|Hd']; [lia|done]. }
  apply Z.leb_gt in Hpr.
  change (acc !! pr ≫= (fun vm => vm !! v)) with (look acc pr v).
  destruct (look acc pr v) as [dup|] eqn:Hdup.
  2:{ apply IH; [|done]. intros pr' d Hq Hd.
      apply Hin in Hd as Hd'; [|done]. apply elem_of_cons in Hd' as [->|Hd']; [congruence|done]. }
  set (acc1 := if (0 <? length (paths dup))%nat then
                 alter (alter (fun s => set_paths s (paths s ++ paths dup)) v) q acc else acc).
  set (sq1 := if (0 <? length (paths dup))%nat then set_paths sq (paths sq ++ paths dup) else sq).
  assert (look acc1 q v = Some sq1) as Hq1.
  { unfold acc1, sq1. destruct (0 <? _)%nat; [|done].
    by apply (look_alter_alter (fun s => set_paths s (paths s ++ paths dup))). }
  assert (forall p, p <> q -> look acc1 p v = look acc p v) as Hne1.
  { intros p Hp. unfold acc1. destruct (0 <? _)%nat; [by apply look_alter_ne|done]. }
  assert (url sq1 = url sq /\ artTypes sq1 = artTypes sq /\ incl (paths sq) (paths sq1) /\
          incl (paths dup) (paths sq1)) as (Hu1 & Ha1 & Hi1 & Hd1).
  { unfold sq1. destruct (0 <? length (paths dup))%nat eqn:E; simpl.
    - split_and!; [done|done|apply incl_appl, incl_refl|apply incl_appr, incl_refl].
    - apply Nat.ltb_ge in E. destruct (paths dup); [|simpl in E; lia].
      split_and!; [done|done|apply incl_refl|apply incl_nil_l]. }
  destruct (IH (alter (delete v) pr acc1) sq1) as (s' & Hs' & Hu & Ha & Hi & Hd & Hnone).
  { intros pr' d Hq Hd. destruct (decide (pr' = pr)) as [->|Hne].
    - by rewrite look_alter_delete in Hd.
    - rewrite look_alter_ne, Hne1 in Hd by lia. apply Hin in Hd as Hd'; [|done].
      apply elem_of_cons in Hd' as [->|Hd']; [congruence|done]. }
  { rewrite look_alter_ne by lia. done. }
  exists s'. split_and!; [done|congruence|congruence|by eapply incl_tran|..].
  - intros pr' d Hq Hd'. destruct (decide (pr' = pr)) as [->|Hne].
    + rewrite Hdup in Hd'. injection Hd' as <-. by eapply incl_tran.
    + apply Hd with pr'; [done|]. rewrite look_alter_ne, Hne1 by lia. done.
  - done.
Qed.

Lemma versions_fold_same q vs acc sq : v ∈ vs -> look acc q v = Some sq ->
  exists s', look (foldl (fun acc version => dupVersionStep q version acc) acc vs) q v = Some s' /\
    url s' = url sq /\ artTypes s' = artTypes sq /\ incl (paths sq) (paths s') /\
    (forall pr d, (q < pr)%Z -> look acc pr v = Some d -> incl (paths d) (paths s')) /\
    (forall pr, (q < pr)%Z -> look (foldl (fun acc version => dupVersionStep q version acc) acc vs) pr v = None).
Proof.
  revert acc sq. induction vs as [|w vs IH]; intros acc sq Hv Hsq; [by apply elem_of_nil in Hv|]. simpl.
  destruct (decide (w = v)) as [->|Hw].
  - destruct (dupVersionStep_same q acc sq Hsq) as (s1 & Hs1 & Hu1 & Ha1 & Hi1 & Hd1 & Hn1).
    destruct (decide (v ∈ vs)) as [Hvs|Hvs].
    + destruct (IH _ s1 Hvs Hs1) as (s' & Hs' & Hu & Ha & Hi & Hd & Hn).
      exists s'. split_and!; [done|congruence|congruence|by eapply incl_tran| |done].
      intros pr d Hq Hd'. eapply incl_tran; [by eapply Hd1|done].
    + exists s1. rewrite !versions_fold_other by done. split_and!; try done.
      intros pr Hq. rewrite versions_fold_other by done. by apply Hn1.
  - apply elem_of_cons in Hv as [->|Hv]; [done|].
    destruct (IH (dupVersionStep q w acc) sq Hv) as (s' & Hs' & Hu & Ha & Hi & Hd & Hn).
    { rewrite dupVersionStep_other by congruence. done. }
    exists s'. split_and!; try done.
    intros pr d Hq Hd'. apply (Hd pr d Hq). rewrite dupVersionStep_other by congruence. done.
Qed.

(** The iteration for a priority that holds [v]. *)
Lemma dupPriorityStep_same acc q sq : look acc q v = Some sq ->
  exists s', look (dupPriorityStep acc q) q v = Some s' /\
    url s' = url sq /\ artTypes s' = artTypes sq /\ incl (paths sq) (paths s') /\
    (forall pr d, (q < pr)%Z -> look acc pr v = Some d -> incl (paths d) (paths s')) /\
    (forall pr, (q < pr)%Z -> look (dupPriorityStep acc q) pr v = None).
Proof.
  intros Hsq. unfold dupPriorityStep. cbv zeta.
  assert (v ∈ map fst (map_to_list (default ∅ (acc !! q)))) as Hv.
  { rewrite keys_elem. unfold look in Hsq. destruct (acc !! q); simpl in *; [by eexists|discriminate]. }
  destruct (versions_fold_same q _ acc sq Hv Hsq) as (s' & Hs' & Hu & Ha & Hi & Hd & Hn).
  set (pm1 := foldl _ acc _) in *.
  assert (Nat.eqb (size (default ∅ (pm1 !! q))) 0 = false) as ->.
  { unfold look in Hs'. destruct (pm1 !! q) as [b|]; simpl in *; [|discriminate].
    destruct (Nat.eqb_spec (size b) 0) as [E|E]; [|done].
    apply map_size_empty_iff in E. subst b. by rewrite lookup_empty in Hs'. }
  exists s'. done.
Qed.

Lemma dupGA_fold_other l acc : (forall q, q ∈ l -> look acc q v = None) ->
  forall p, look (foldl dupPriorityStep acc l) p v = look acc p v.
Proof.
  revert acc. induction l as [|q l IH]; intros acc Hl p; simpl; [done|].
  assert (forall p, look (dupPriorityStep acc q) p v = look acc p v) as Hstep.
  { intros p'. apply dupPriorityStep_other, Hl. by left. }
  rewrite IH, Hstep; [done|]. intros q' Hq'. rewrite Hstep. apply Hl. by right.
Qed.

Lemma dupGA_fold_column l acc p0 s0 :
  StronglySorted Z.lt l -> p0 ∈ l -> look acc p0 v = Some s0 ->
  (forall p s, look acc p v = Some s -> (p0 <= p)%Z) ->
  exists s', look (foldl dupPriorityStep acc l) p0 v = Some s' /\
    url s' = url s0 /\ artTypes s' = artTypes s0 /\
    (forall p s, look acc p v = Some s -> incl (paths s) (paths s')) /\
    (forall p, p <> p0 -> look (foldl dupPriorityStep acc l) p v = None).
Proof.
  revert acc. induction l as [|q l IH]; intros acc Hs Hp0 Hs0 Hmin; [by apply elem_of_nil in Hp0|]. simpl.
  apply StronglySorted_inv in Hs as [Hs Hf]. rewrite Forall_forall in Hf.
  destruct (decide (q = p0)) as [->|Hq].
  - destruct (dupPriorityStep_same acc p0 s0 Hs0) as (s' & Hs' & Hu & Ha & Hi & Hd & Hn).
    assert (forall q, q ∈ l -> look (dupPriorityStep acc p0) q v = None) as Hl.
    { intros q Hq. apply Hn, Hf, Hq. }
    exists s'. rewrite dupGA_fold_other by done. split_and!; try done.
    + intros p s Hps. destruct (decide (p = p0)) as [->|Hne].
      * rewrite Hs0 in Hps. by injection Hps as <-.
      * apply (Hd p s); [|done]. specialize (Hmin p s Hps). lia.
    + intros p Hne. rewrite dupGA_fold_other by done.
      destruct (Z.lt_total p p0) as [Hlt|[Heq|Hgt]]; [|done|by apply Hn].
      unfold look at 1. rewrite dupPriorityStep_lower by done. fold (look acc p v).
      destruct (look acc p v) eqn:E; [|done]. specialize (Hmin p a E). lia.
  - apply elem_of_cons in Hp0 as [->|Hp0]; [done|].
    assert (q < p0)%Z as Hqp by (by apply Hf).
    assert (look acc q v = None) as Hqn.
    { destruct (look acc q v) eqn:E; [|done]. specialize (Hmin q a E). lia. }
    destruct (IH (dupPriorityStep acc q)) as (s' & Hs' & Hu & Ha & Hi & Hn); [done|done|..].
    { by rewrite dupPriorityStep_other. }
    { intros p s Hps. rewrite dupPriorityStep_other in Hps by done. by apply (Hmin p s). }
    exists s'. split_and!; try done.
    intros p s Hps. apply (Hi p s). by rewrite dupPriorityStep_other.
Qed.

End Column.

(** Claim C1: after the duplicate filter, a version of a group:artifact
    remains only at the lowest priority that held it; that entry keeps its
    url and types, and its paths include the paths of every entry of the
    version at the other priorities. *)
Theorem filterDuplicates_lowest_priority_wins al ga pm v p0 s0 :
  al !! ga = Some pm -> look pm p0 v = Some s0 ->
  (forall p s, look pm p v = Some s -> (p0 <= p)%Z) ->
  exists pm' s', _filterDuplicates al !! ga = Some pm' /\ look pm' p0 v = Some s' /\
    (forall p, p <> p0 -> look pm' p v = None) /\
    url s' = url s0 /\ artTypes s' = artTypes s0 /\
    (forall p s, look pm p v = Some s -> incl (paths s) (paths s')).
Proof.
  intros Hga Hs0 Hmin. unfold _filterDuplicates. rewrite updateEach_lookup, Hga. simpl.
  pose proof (merge_sort_Permutation Z.le (map fst (map_to_list pm))) as Hperm.
  pose proof (StronglySorted_merge_sort Z.le (map fst (map_to_list pm))) as Hsort.
  assert (NoDup (merge_sort Z.le (map fst (map_to_list pm)))) as Hnd.
  { rewrite Hperm, map_fmap_list. apply NoDup_fst_map_to_list. }
  assert (p0 ∈ merge_sort Z.le (map fst (map_to_list pm))) as Hp0.
  { rewrite Hperm. apply keys_elem. unfold look in Hs0.
    destruct (pm !! p0); simpl in *; [by eexists|discriminate]. }
  destruct (dupGA_fold_column v _ pm p0 s0 (StronglySorted_le_lt _ Hsort Hnd) Hp0 Hs0 Hmin)
    as (s' & Hs' & Hu & Ha & Hi & Hn).
  fold (dupGA pm) in Hs', Hn.
  assert (nonEmpty (dupGA pm) = Some (dupGA pm)) as ->.
  { unfold nonEmpty. destruct (Nat.eqb_spec (size (dupGA pm)) 0) as [E|E]; [|done].
    apply map_size_empty_iff in E. rewrite E in Hs'. unfold look in Hs'.
    by rewrite lookup_empty in Hs'. }
  exists (dupGA pm), s'. done.
Qed.

Lemma filterDuplicates_lowest_priority_wins_witness :
  exists pm' s', _filterDuplicates twoPrioritiesList !! "g:a" = Some pm' /\
    look pm' 2 "1.0" = Some s' /\ (forall p, p <> 2%Z -> look pm' p "1.0" = None) /\
    url s' = url (specWithPath "r:two:1") /\ artTypes s' = artTypes (specWithPath "r:two:1") /\
    (forall p s, look twoPrioritiesPM p "1.0" = Some s -> incl (paths s) (paths s')).
Proof.
  apply (filterDuplicates_lowest_priority_wins twoPrioritiesList "g:a" twoPrioritiesPM "1.0" 2
           (specWithPath "r:two:1")).
  - reflexivity.
  - reflexivity.
  - intros p s H. unfold look, twoPrioritiesPM in H.
    destruct (decide (p = 2%Z)) as [->|H2]; [lia|].
    destruct (decide (p = 5%Z)) as [->|H5]; [lia|].
    rewrite lookup_insert_ne, lookup_singleton_ne in H by congruence. discriminate.
Defined.

(** ** Classifier resolver: checksum files *)

Section ChecksumFiles.
Local Open Scope list_scope.

Lemma plus_cls_suffix cc s s' : s' ∈ plus_cls cc s ->
  exists p, s = p ++ s' /\ p <> [] /\ Forall (fun c => cls_match cc c = true) p.
Proof.
  induction s as [|c s IH]; simpl; [by intros ?%elem_of_nil|].
  destruct (cls_match cc c) eqn:Hc; [|by intros ?%elem_of_nil].
  intros [Hin|Hin%list_elem_of_singleton]%elem_of_app.
  - destruct (IH Hin) as (p & -> & Hp & Hf). exists (c :: p). split_and!; [done|done|by constructor].
  - subst s'. exists [c]. split_and!; [done|done|by constructor].
Qed.

Lemma plus_cls_complete cc p t : p <> [] -> Forall (fun c => cls_match cc c = true) p ->
  t ∈ plus_cls cc (p ++ t).
Proof.
  induction p as [|c p IH]; intros Hne Hf; [done|]. apply Forall_cons in Hf as [Hc Hf].
  simpl. rewrite Hc. apply elem_of_app. destruct p as [|c' p].
  - right. by left.
  - left. by apply IH.
Qed.

Lemma flat_map_elem {A B} (f : A -> list B) l x : x ∈ flat_map f l <-> exists y, y ∈ l /\ x ∈ f y.
Proof.
  rewrite list_elem_of_In, in_flat_map. setoid_rewrite list_elem_of_In. done.
Qed.

(** Every match leaves a suffix of the input. *)
Lemma matches_suffix r s k s' k' : (s', k') ∈ matches r s k -> exists p, s = p ++ s'.
Proof.
  revert s k s' k'. induction r as [| cc | cc | r1 IH1 r2 IH2 | r1 IH1 r2 IH2 | r IH | n r IH |];
    intros s k s' k' H; simpl in H.
  - apply list_elem_of_singleton in H. injection H as -> ->. by exists [].
  - destruct s as [|c s]; [by apply elem_of_nil in H|].
    destruct (cls_match cc c); [|by apply elem_of_nil in H].
    apply list_elem_of_singleton in H. injection H as -> ->. by exists [c].
  - apply list_elem_of_fmap in H as [s0 [Heq Hin]]. injection Heq as -> ->.
    destruct (plus_cls_suffix _ _ _ Hin) as (p & -> & _). by exists p.
  - apply flat_map_elem in H as [[s1 k1] [H1 H2]]. simpl in H2.
    destruct (IH1 _ _ _ _ H1) as [p1 ->]. destruct (IH2 _ _ _ _ H2) as [p2 ->].
    exists (p1 ++ p2). by rewrite app_assoc.
  - apply elem_of_app in H as [H|H]; [by eapply IH1|by eapply IH2].
  - apply elem_of_app in H as [H|H]; [by eapply IH|].
    apply list_elem_of_singleton in H. injection H as -> ->. by exists [].
  - apply list_elem_of_fmap in H as [[s1 k1] [Heq Hin]]. simpl in Heq. injection Heq as -> _.
    by eapply IH.
  - assert (matches REnd s k = [(s, k)] \/ matches REnd s k = []) as Hend.
    { destruct s as [|c [|c' s]]; [by left| |right; by destruct c as [[] [] [] [] [] [] [] []]].
      destruct c as [[] [] [] [] [] [] [] []]; simpl; auto. }
    simpl in Hend. destruct Hend as [Hend|Hend]; rewrite Hend in H; [|by apply elem_of_nil in H].
    apply list_elem_of_singleton in H. injection H as -> ->. by exists [].
Qed.

Lemma REnd_inv s k s' k' : (s', k') ∈ matches REnd s k -> s' = s /\ (s = [] \/ s = ["010"%char]).
Proof.
  destruct s as [|c [|c' s]]; simpl.
  - intros H. apply list_elem_of_singleton in H. injection H as -> ->. auto.
  - destruct c as [[] [] [] [] [] [] [] []]; simpl; intros H;
      try (by apply elem_of_nil in H); apply list_elem_of_singleton in H; injection H as -> ->; auto.
  - destruct c as [[] [] [] [] [] [] [] []]; simpl; intros H; by apply elem_of_nil in H.
Qed.

Lemma RCls_inv cc s k s' k' : (s', k') ∈ matches (RCls cc) s k ->
  exists c, s = c :: s' /\ cls_match cc c = true /\ k' = k.
Proof.
  simpl. destruct s as [|c s]; [by intros ?%elem_of_nil|].
  destruct (cls_match cc c) eqn:Hc; [|by intros ?%elem_of_nil].
  intros H. apply list_elem_of_singleton in H. injection H as -> ->. by exists c.
Qed.

Lemma RPlus_inv cc s k s' k' : (s', k') ∈ matches (RPlus cc) s k ->
  exists p, s = p ++ s' /\ p <> [] /\ Forall (fun c => cls_match cc c = true) p.
Proof.
  simpl. intros H. apply list_elem_of_fmap in H as [s0 [Heq Hin]]. injection Heq as -> ->.
  by apply plus_cls_suffix.
Qed.

Lemma RSeq_inv r1 r2 s k s' k' : (s', k') ∈ matches (RSeq r1 r2) s k ->
  exists s1 k1, (s1, k1) ∈ matches r1 s k /\ (s', k') ∈ matches r2 s1 k1.
Proof. simpl. intros H. apply flat_map_elem in H as [[s1 k1] [H1 H2]]. by exists s1, k1. Qed.

Lemma RSeq_intro r1 r2 s k s1 k1 s' k' : (s1, k1) ∈ matches r1 s k -> (s', k') ∈ matches r2 s1 k1 ->
  (s', k') ∈ matches (RSeq r1 r2) s k.
Proof. intros H1 H2. simpl. apply flat_map_elem. by exists (s1, k1). Qed.

Lemma RGroup_inv n r s k s' k' : (s', k') ∈ matches (RGroup n r) s k ->
  exists k1, (s', k1) ∈ matches r s k.
Proof.
  simpl. intros H. apply list_elem_of_fmap in H as [[s1 k1] [Heq Hin]]. simpl in Heq.
  injection Heq as -> _. by exists k1.
Qed.

Lemma ROpt_inv r s k s' k' : (s', k') ∈ matches (ROpt r) s k ->
  (s', k') ∈ matches r s k \/ (s' = s /\ k' = k).
Proof.
  simpl. intros [H|H]%elem_of_app; [by left|]. apply list_elem_of_singleton in H.
  injection H as -> ->. by right.
Qed.

Lemma lit_inv (l : list ascii) s k s' k' :
  (s', k') ∈ matches (fold_right (fun c r => RSeq (RCls (CLit c)) r) REps l) s k -> s = l ++ s'.
Proof.
  revert s k. induction l as [|c l IH]; intros s k H; simpl in H.
  - apply list_elem_of_singleton in H. by injection H as -> ->.
  - apply flat_map_elem in H as [[s1 k1] [H1 H2]]. simpl in H2.
    destruct s as [|c' s]; [by apply elem_of_nil in H1|]. simpl in H1.
    destruct (Ascii.eqb c' c) eqn:E; [|by apply elem_of_nil in H1].
    apply Ascii.eqb_eq in E as ->. apply list_elem_of_singleton in H1. injection H1 as -> ->.
    simpl. f_equal. by eapply IH.
Qed.

(** [cls_match] of the classes the checksum pattern uses. *)
Lemma Forall_notdot e : Forall (fun c => cls_match CNotDot c = true) e -> "."%char ∉ e.
Proof. intros Hf Hin. rewrite Forall_forall in Hf. specialize (Hf _ Hin). discriminate. Qed.

Lemma app_dot_inj (a b c d : list ascii) :
  a ++ "."%char :: b = c ++ "."%char :: d -> "."%char ∉ b -> "."%char ∉ d -> a = c /\ b = d.
Proof.
  revert c. induction a as [|y a IH]; intros c H Hb Hd; destruct c as [|z c]; simpl in H.
  - injection H as H. auto.
  - injection H as H1 H2. subst z. exfalso. apply Hb. rewrite H2. apply elem_of_app. right. by left.
  - injection H as H1 H2. subst y. exfalso. apply Hd. rewrite <- H2. apply elem_of_app. right. by left.
  - injection H as H1 H2. subst z. destruct (IH c H2 Hb Hd) as [-> ->]. auto.
Qed.

Lemma checksumSuffix_chars x : x ∈ checksumSuffixList ->
  ("."%char ∉ list_ascii_of_string x) /\ ("010"%char ∉ list_ascii_of_string x) /\
  forall k, ([], k) ∈ matches checksumSuffixes (list_ascii_of_string x) k.
Proof.
  intros Hx. unfold checksumSuffixList in Hx.
  repeat (apply elem_of_cons in Hx as [->|Hx]; [split_and!; [by vm_compute; intros ?%list_elem_of_In; simpl in *; intuition discriminate
     | by vm_compute; intros ?%list_elem_of_In; simpl in *; intuition discriminate
     | intros k; simpl; set_solver]|]).
  by apply elem_of_nil in Hx.
Qed.

(** The checksum pattern matches when [av] leaves a non-empty text without
    newline, then the final ["." ++ x]. *)
Lemma checksumRegEx_matches av l k1 z x :
  x ∈ checksumSuffixList -> z <> [] -> Forall (fun c => cls_match CAny c = true) z ->
  (z ++ "."%char :: list_ascii_of_string x, k1) ∈ matches av l [] ->
  matches (checksumRegEx av) l [] <> [].
Proof.
  intros Hx Hz Hf Hav. destruct (checksumSuffix_chars x Hx) as (_ & _ & Hcs).
  assert (exists k, ([], k) ∈ matches (checksumRegEx av) l []) as [k Hk].
  { eexists. unfold checksumRegEx. eapply RSeq_intro; [exact Hav|]. simpl seq.
    eapply RSeq_intro.
    { simpl. apply list_elem_of_fmap. exists ("."%char :: list_ascii_of_string x). split; [done|].
      by apply plus_cls_complete. }
    eapply RSeq_intro.
    { simpl. by left. }
    eapply RSeq_intro.
    { simpl. apply list_elem_of_fmap. exists ([], k1). split; [|apply Hcs].
      simpl. rewrite Nat.sub_0_r, firstn_all. done. }
    simpl. by left. }
  intros Hnil. rewrite Hnil in Hk. by apply elem_of_nil in Hk.
Qed.

Lemma re_match_Some r f k : re_match r f = Some k -> exists s', (s', k) ∈ matches r (list_ascii_of_string f) [].
Proof.
  unfold re_match. destruct (matches r _ []) as [|[s' k'] rest]; [done|]. intros [= ->].
  exists s'. by left.
Qed.

Lemma re_match_None r f : re_match r f = None -> matches r (list_ascii_of_string f) [] = [].
Proof. unfold re_match. by destruct (matches r _ []) as [|[s' k'] rest]. Qed.

(** A checksum file name is skipped unless [av] stops right before its
    final ["." ++ x]. *)
Lemma extStep_checksum av version st f ys x :
  x ∈ checksumSuffixList ->
  list_ascii_of_string f = ys ++ "."%char :: list_ascii_of_string x ->
  (forall k, ("."%char :: list_ascii_of_string x, k) ∉ matches av (list_ascii_of_string f) []) ->
  extStep av version st f = st.
Proof.
  intros Hx Hf Hnot. destruct (checksumSuffix_chars x Hx) as (Hxdot & Hxnl & _).
  destruct st as [extensions suffix]. unfold extStep.
  destruct (re_match (checksumRegEx av) f) eqn:Hcs; [done|].
  apply re_match_None in Hcs.
  assert (forall z k1, z <> [] -> Forall (fun c => cls_match CAny c = true) z ->
            (z ++ "."%char :: list_ascii_of_string x, k1) ∈ matches av (list_ascii_of_string f) [] -> False)
    as Hno.
  { intros z k1 Hz Hzf Hav. by apply (checksumRegEx_matches av _ k1 z x Hx Hz Hzf Hav). }
  assert (forall e r4, Forall (fun c => cls_match CNotDot c = true) e -> (r4 = [] \/ r4 = ["010"%char]) ->
            forall pre, pre ++ "."%char :: e ++ r4 = ys ++ "."%char :: list_ascii_of_string x ->
            pre = ys /\ e = list_ascii_of_string x /\ r4 = []) as Htail.
  { intros e r4 He Hr4 pre Heq. apply app_dot_inj in Heq as [-> Heq]; [| |done].
    - destruct Hr4 as [ -> | -> ]; [rewrite app_nil_r in Heq; by split_and!|].
      exfalso. apply Hxnl. rewrite <- Heq. apply elem_of_app. right. by left.
    - apply Forall_notdot in He. intros [Hin|Hin]%elem_of_app; [done|].
      destruct Hr4 as [ -> | -> ]; [by apply elem_of_nil in Hin|].
      apply list_elem_of_singleton in Hin. discriminate. }
  (* the part [(?:-(.+))?] of both patterns: what [av] left starts with it *)
  assert (forall r1 k1 r2 k2, (r1, k1) ∈ matches av (list_ascii_of_string f) [] ->
            (r2, k2) ∈ matches (ROpt (RSeq (RCls (CLit "-")) (RGroup (S (ngroups av)) (RPlus CAny)))) r1 k1 ->
            exists q, r1 = q ++ r2 /\ Forall (fun c => cls_match CAny c = true) q) as Hopt.
  { intros r1 k1 r2 k2 Hav H. apply ROpt_inv in H as [H|[-> _]]; [|by exists []].
    apply RSeq_inv in H as (s1 & k3 & H1 & H2). apply RCls_inv in H1 as (c & -> & Hc & _).
    apply RGroup_inv in H2 as [k4 H2]. apply RPlus_inv in H2 as (w & -> & _ & Hw).
    exists (c :: w). split; [done|]. constructor; [|done]. simpl in Hc.
    apply Ascii.eqb_eq in Hc as ->. done. }
  destruct (re_match (ceRegEx1 av) f) as [k|] eqn:Hce1.
  - exfalso. apply re_match_Some in Hce1 as [s' Hm]. unfold ceRegEx1 in Hm. simpl seq in Hm.
    apply RSeq_inv in Hm as (r1 & k1 & Hav & Hm).
    apply RSeq_inv in Hm as (r2 & k2 & Hop & Hm).
    apply RSeq_inv in Hm as (r3 & k3 & Hdot & Hm).
    apply RSeq_inv in Hm as (r4 & k4 & Hgrp & Hend).
    apply RGroup_inv in Hgrp as [k5 Hgrp].
    apply RSeq_inv in Hgrp as (r5 & k6 & Htar & Hgrp).
    apply RSeq_inv in Hgrp as (r6 & k7 & Hdot2 & Hext).
    apply RCls_inv in Hdot as (c1 & -> & Hc1 & _). simpl in Hc1. apply Ascii.eqb_eq in Hc1 as ->.
    apply lit_inv in Htar as ->.
    apply RCls_inv in Hdot2 as (c2 & -> & Hc2 & _). simpl in Hc2. apply Ascii.eqb_eq in Hc2 as ->.
    apply RPlus_inv in Hext as (e & -> & _ & He).
    apply REnd_inv in Hend as [-> Hr4].
    destruct (Hopt _ _ _ _ Hav Hop) as (q & -> & Hq).
    destruct (matches_suffix _ _ _ _ _ Hav) as [pre Hpre].
    rewrite Hf in Hpre.
    assert (pre ++ (q ++ "."%char :: list_ascii_of_string "tar") ++ "."%char :: e ++ r4 =
            ys ++ "."%char :: list_ascii_of_string x) as Heq.
    { rewrite Hpre. simpl. by rewrite <- !app_assoc. }
    rewrite app_assoc in Heq. apply (Htail e r4 He Hr4) in Heq as (_ & -> & ->).
    apply (Hno (q ++ "."%char :: list_ascii_of_string "tar") k1).
    + by destruct q.
    + apply Forall_app. split; [done|]. repeat constructor.
    + assert (q ++ "."%char :: list_ascii_of_string "tar" ++ "."%char :: list_ascii_of_string x ++ [] =
              (q ++ "."%char :: list_ascii_of_string "tar") ++ "."%char :: list_ascii_of_string x) as <-.
      { rewrite app_nil_r, <- app_assoc. done. }
      exact Hav.
  - destruct (re_match (ceRegEx2 av) f) as [k|] eqn:Hce2; [|done]. exfalso.
    apply re_match_Some in Hce2 as [s' Hm]. unfold ceRegEx2 in Hm. simpl seq in Hm.
    apply RSeq_inv in Hm as (r1 & k1 & Hav & Hm).
    apply RSeq_inv in Hm as (r2 & k2 & Hop & Hm).
    apply RSeq_inv in Hm as (r3 & k3 & Hdot & Hm).
    apply RSeq_inv in Hm as (r4 & k4 & Hgrp & Hend).
    apply RGroup_inv in Hgrp as [k5 Hext].
    apply RCls_inv in Hdot as (c1 & -> & Hc1 & _). simpl in Hc1. apply Ascii.eqb_eq in Hc1 as ->.
    apply RPlus_inv in Hext as (e & -> & _ & He).
    apply REnd_inv in Hend as [-> Hr4].
    destruct (Hopt _ _ _ _ Hav Hop) as (q & -> & Hq).
    destruct (matches_suffix _ _ _ _ _ Hav) as [pre Hpre].
    rewrite Hf, app_assoc in Hpre. symmetry in Hpre.
    apply (Htail e r4 He Hr4) in Hpre as (Hys & -> & ->).
    rewrite app_nil_r in Hav. destruct q as [|c q].
    + by apply (Hnot k1).
    + by apply (Hno (c :: q) k1).
Qed.

(** Claim C7 (as amended): removing from the file names every checksum file
    (ending in .md5, .sha1, .sha256 or .asc) that the artifactId-version
    pattern does not match right up to its final ".suffix" does not change
    what the classifier resolver returns: such a checksum file never
    contributes. *)
Theorem getExtensionsAndClassifiers_checksum artifactId version filenames :
  _getExtensionsAndClassifiers artifactId version filenames =
  _getExtensionsAndClassifiers artifactId version
    (List.filter (fun f => negb (ignoredChecksumFile (_getArtifactVersionRE artifactId version) f))
                 filenames).
Proof.
  unfold _getExtensionsAndClassifiers. cbv zeta.
  set (av := _getArtifactVersionRE artifactId version).
  generalize (∅ : gmap (option string) (gset string), @None string). intros st.
  revert st. induction filenames as [|f fs IH]; intros st; simpl; [done|].
  destruct (ignoredChecksumFile av f) eqn:Hign; simpl; [|apply IH].
  rewrite <- IH. f_equal.
  unfold ignoredChecksumFile in Hign. apply existsb_exists in Hign as [x [Hx Hxf]].
  apply andb_true_iff in Hxf as [Hend Hreach]. apply negb_true_iff in Hreach.
  unfold endsWithDotSuffix in Hend. apply bool_decide_eq_true in Hend.
  apply (extStep_checksum av version st f
           (take (length (list_ascii_of_string f) - length ("."%char :: list_ascii_of_string x))
                 (list_ascii_of_string f)) x).
  - by apply list_elem_of_In.
  - rewrite <- Hend at 2. by rewrite take_drop.
  - intros k Hin. unfold versionReachesSuffix in Hreach.
    assert (existsb (fun sk => bool_decide (sk.1 = "."%char :: list_ascii_of_string x))
              (matches av (list_ascii_of_string f) []) = true) as Htrue.
    { apply existsb_exists. exists ("."%char :: list_ascii_of_string x, k).
      split; [by apply list_elem_of_In|]. by apply bool_decide_eq_true. }
    congruence.
Qed.

(** Claim C7, counterexample: the checksum file a-1.0.md5 of artifact a,
    version 1.0, is classified with extension md5 and the empty classifier. *)
Lemma checksum_file_classified :
  _getExtensionsAndClassifiers "a" "1.0" ["a-1.0.md5"] = ({[Some "md5" := {[""]}]}, None).
Proof. vm_compute. reflexivity. Qed.

End ChecksumFiles.



(** ** [py_split] and [py_join] *)

Lemma py_split_nonempty c s : py_split c s <> [].
Proof.
  induction s as [|d s IH]; simpl; [done|].
  destruct (Ascii.eqb d c); [done|]. destruct (py_split c s); done.
Qed.

Lemma py_join_cons sep x xs : xs <> [] -> py_join sep (x :: xs) = x ++ sep ++ py_join sep xs.
Proof. destruct xs; done. Qed.

Lemma py_join_split c s : py_join (String c "") (py_split c s) = s.
Proof.
  induction s as [|d s IH]; simpl; [done|].
  destruct (Ascii.eqb_spec d c) as [->|Hne].
  - rewrite py_join_cons by apply py_split_nonempty. simpl. by rewrite IH.
  - pose proof (py_split_nonempty c s) as Hn.
    destruct (py_split c s) as [|r rs] eqn:E; [done|].
    destruct rs as [|r' rs].
    + simpl in *. by rewrite IH.
    + rewrite <- IH. rewrite !py_join_cons by done. reflexivity.
Qed.




(** ** MavenArtifact.createFromGAV: round trip *)



(** ** Filter._filterDuplicates: idempotence *)

Lemma list_min_Z (l : list Z) : l <> [] -> exists m, m ∈ l /\ forall x, x ∈ l -> (m <= x)%Z.
Proof.
  induction l as [|y l IH]; intros Hne; [done|].
  destruct l as [|z l].
  - exists y. split; [left|]. intros x Hx. apply list_elem_of_singleton in Hx. lia.
  - destruct IH as (m & Hm & Hmin); [done|].
    destruct (Z.le_gt_cases y m).
    + exists y. split; [left|]. intros x Hx. apply elem_of_cons in Hx as [->|Hx]; [lia|].
      specialize (Hmin x Hx). lia.
    + exists m. split; [by right|]. intros x Hx. apply elem_of_cons in Hx as [->|Hx]; [lia|]. by apply Hmin.
Qed.

Lemma look_min pm v : (forall q, look pm q v = None) \/
  exists p0 s0, look pm p0 v = Some s0 /\ forall q t, look pm q v = Some t -> (p0 <= q)%Z.
Proof.
  set (l := List.filter (fun q => bool_decide (is_Some (look pm q v))) (map fst (map_to_list pm))).
  assert (forall q, q ∈ l <-> is_Some (look pm q v)) as Hl.
  { intros q. unfold l. rewrite list_elem_of_In, filter_In, <- list_elem_of_In, keys_elem, bool_decide_eq_true.
    unfold look. split; [by intros [_ ?]|]. intros H. split; [|done].
    destruct (pm !! q); [by eexists|]. simpl in H. by destruct H. }
  destruct (decide (l = [])) as [Hnil|Hne].
  - left. intros q. destruct (look pm q v) eqn:E; [|done]. exfalso.
    assert (q ∈ l) as Hq by (apply Hl; by eexists). rewrite Hnil in Hq. by apply elem_of_nil in Hq.
  - right. destruct (list_min_Z l) as (p0 & Hp0 & Hmin); [done|].
    apply Hl in Hp0 as [s0 Hs0]. exists p0, s0. split; [done|].
    intros q t Hq. apply Hmin, Hl. by eexists.
Qed.

Lemma dupVersionStep_id q w pm : oneColumn pm -> is_Some (look pm q w) -> dupVersionStep q w pm = pm.
Proof.
  intros Hone [sq Hsq]. unfold dupVersionStep. generalize (map fst (map_to_list pm)) as l. intros l.
  induction l as [|pr l IH]; simpl; [done|].
  destruct (pr <=? q)%Z eqn:Hpr; [done|]. apply Z.leb_gt in Hpr.
  destruct (pm !! pr ≫= _) as [dup|] eqn:Hdup; [|done].
  exfalso. assert (pr = q) by (apply (Hone pr q w dup sq); done). lia.
Qed.

Lemma dupPriorityStep_id pm q : oneColumn pm -> (forall p vm, pm !! p = Some vm -> vm <> ∅) ->
  dupPriorityStep pm q = pm.
Proof.
  intros Hone Hne. unfold dupPriorityStep. cbv zeta.
  assert (foldl (fun acc version => dupVersionStep q version acc) pm
            (map fst (map_to_list (default ∅ (pm !! q)))) = pm) as ->.
  { assert (forall w, w ∈ map fst (map_to_list (default ∅ (pm !! q))) -> is_Some (look pm q w)) as Hw.
    { intros w Hw. apply keys_elem in Hw. unfold look. destruct (pm !! q); simpl in *; [done|].
      rewrite lookup_empty in Hw. by destruct Hw. }
    induction (map fst (map_to_list (default ∅ (pm !! q)))) as [|w ws IH]; simpl; [done|].
    rewrite dupVersionStep_id; [|done|by apply Hw; left]. apply IH. intros w' Hw'. apply Hw. by right. }
  destruct (pm !! q) as [vm|] eqn:Hq; simpl.
  - destruct (Nat.eqb_spec (size vm) 0) as [E|E]; [|done].
    exfalso. apply (Hne q vm Hq). by apply map_size_empty_iff.
  - by apply delete_id.
Qed.

Lemma dupGA_id pm : oneColumn pm -> (forall p vm, pm !! p = Some vm -> vm <> ∅) -> dupGA pm = pm.
Proof.
  intros Hone Hne. unfold dupGA. generalize (merge_sort Z.le (map fst (map_to_list pm))) as l. intros l.
  induction l as [|q l IH]; simpl; [done|]. by rewrite dupPriorityStep_id.
Qed.

Lemma dupGA_oneColumn pm : oneColumn (dupGA pm).
Proof.
  intros p q v s t Hp Hq.
  pose proof (merge_sort_Permutation Z.le (map fst (map_to_list pm))) as Hperm.
  pose proof (StronglySorted_merge_sort Z.le (map fst (map_to_list pm))) as Hsort.
  assert (NoDup (merge_sort Z.le (map fst (map_to_list pm)))) as Hnd.
  { rewrite Hperm, map_fmap_list. apply NoDup_fst_map_to_list. }
  pose proof (StronglySorted_le_lt _ Hsort Hnd) as Hlt.
  destruct (look_min pm v) as [Hnone|(p0 & s0 & Hs0 & Hmin)]; cycle 1.
  - assert (p0 ∈ merge_sort Z.le (map fst (map_to_list pm))) as Hp0.
    { rewrite Hperm. apply keys_elem. unfold look in Hs0.
      destruct (pm !! p0); simpl in *; [by eexists|discriminate]. }
    destruct (dupGA_fold_column v _ pm p0 s0 Hlt Hp0 Hs0 Hmin) as (s1 & _ & _ & _ & _ & Hn).
    fold (dupGA pm) in Hn.
    destruct (decide (p = p0)) as [->|Hp0p]; [|by rewrite Hn in Hp].
    destruct (decide (q = p0)) as [->|Hq0]; [done|by rewrite Hn in Hq].
  - exfalso. unfold dupGA in Hp. rewrite dupGA_fold_other in Hp by (intros; apply Hnone).
    by rewrite Hnone in Hp.
Qed.

(** Extra X2 ([Filter._filterDuplicates]): running the duplicate filter on
    its own result changes nothing. *)
Theorem filterDuplicates_idempotent al : _filterDuplicates (_filterDuplicates al) = _filterDuplicates al.
Proof.
  apply map_eq. intros ga. unfold _filterDuplicates at 1. rewrite updateEach_lookup.
  destruct (_filterDuplicates al !! ga) as [pm'|] eqn:E; simpl; [|done].
  unfold _filterDuplicates in E. rewrite updateEach_lookup in E.
  destruct (al !! ga) as [pm|]; simpl in E; [|discriminate].
  apply nonEmpty_Some in E as [-> Hne].
  rewrite dupGA_id; [| apply dupGA_oneColumn | apply dupGA_nonempty].
  unfold nonEmpty. destruct (Nat.eqb_spec (size (dupGA pm)) 0) as [E|E]; [|done].
  exfalso. apply Hne. by apply map_size_empty_iff.
Qed.

(** ** Filter._filterMultipleVersions: idempotence *)

Lemma updateEachO_id {K V} `{Countable K} (f : K -> V -> Outcome (option V)) (m : gmap K V) :
  (forall k v, m !! k = Some v -> f k v = Ret (Some v)) -> updateEachO f m = Ret m.
Proof.
  intros Hf. unfold updateEachO.
  assert (forall kv, kv ∈ map_to_list m -> m !! kv.1 = Some kv.2) as Hl.
  { intros [k v] Hin. by apply elem_of_map_to_list. }
  induction (map_to_list m) as [|[k v] l IH]; simpl; [done|].
  assert (m !! k = Some v) as Hk by (apply (Hl (k, v)); left).
  rewrite (Hf k v Hk). simpl. rewrite insert_id by done. apply IH.
  intros kv Hkv. apply Hl. by right.
Qed.

Lemma size_le1 {A} (m : gmap string A) w : (forall k, k <> w -> m !! k = None) -> (size m <= 1)%nat.
Proof.
  intros Hk. assert (m = match m !! w with Some x => {[w := x]} | None => ∅ end) as Hm.
  { apply map_eq. intros k. destruct (decide (k = w)) as [->|Hkw].
    - destruct (m !! w) eqn:E; [by rewrite lookup_singleton_eq|by rewrite lookup_empty].
    - rewrite Hk by done. destruct (m !! w); [by rewrite lookup_singleton_ne|by rewrite lookup_empty]. }
  rewrite Hm. destruct (m !! w); [rewrite map_size_singleton|rewrite map_size_empty]; lia.
Qed.

Lemma multipleVersionsGA_shape vle pm pm' :
  multipleVersionsGA vle pm = Ret pm' -> exists p b, pm' = {[p := b]} /\ (size b <= 1)%nat.
Proof.
  unfold multipleVersionsGA.
  pose proof (merge_sort_Permutation Z.le (map fst (map_to_list pm))) as Hperm.
  assert (NoDup (merge_sort Z.le (map fst (map_to_list pm)))) as Hnd.
  { rewrite Hperm, map_fmap_list. apply NoDup_fst_map_to_list. }
  assert (forall q, q ∈ merge_sort Z.le (map fst (map_to_list pm)) <-> is_Some (pm !! q)) as Hkeys.
  { intros q. rewrite Hperm. apply keys_elem. }
  destruct (merge_sort Z.le (map fst (map_to_list pm))) as [|p rest]; simpl; [discriminate|].
  apply NoDup_cons in Hnd as [Hprest Hnd].
  set (bucket := default ∅ (pm !! p)).
  set (versions0 := map fst (map_to_list bucket)).
  set (versions := if (1 <? length versions0)%nat then sortVersionsWithAtlas vle versions0 else versions0).
  assert (versions ≡ₚ versions0) as Hvp.
  { unfold versions. destruct (1 <? length versions0)%nat; [apply merge_sort_Permutation|done]. }
  intros [= <-].
  exists p, (foldl (fun b version => delete version b) bucket (drop 1 versions)). split.
  - apply map_eq. intros q. destruct (decide (q = p)) as [->|Hqp].
    + rewrite foldl_delete_notin by done. by rewrite lookup_insert_eq, lookup_singleton_eq.
    + rewrite lookup_singleton_ne by congruence.
      destruct (decide (q ∈ rest)) as [Hq|Hq]; [by apply foldl_delete_in|].
      rewrite foldl_delete_notin by done. rewrite lookup_insert_ne by congruence.
      destruct (pm !! q) eqn:E; [|done]. exfalso.
      assert (q ∈ p :: rest) as Hq' by (apply Hkeys; by eexists).
      apply elem_of_cons in Hq' as [->|Hq']; done.
  - assert (forall k, k ∈ versions <-> is_Some (bucket !! k)) as Hv.
    { intros k. rewrite Hvp. apply keys_elem. }
    destruct versions as [|w ws] eqn:Hvs; simpl.
    + assert (bucket = ∅) as ->; [|rewrite map_size_empty; lia].
      apply map_eq. intros k. rewrite lookup_empty. destruct (bucket !! k) eqn:E; [|done].
      exfalso. assert (k ∈ @nil string) as Hk by (apply Hv; by eexists). by apply elem_of_nil in Hk.
    + apply (size_le1 _ w). intros k Hkw.
      destruct (decide (k ∈ ws)) as [Hin|Hin]; [by apply foldl_delete_in|].
      rewrite foldl_delete_notin by done. destruct (bucket !! k) eqn:E; [|done]. exfalso.
      assert (k ∈ w :: ws) as Hk by (apply Hv; by eexists).
      apply elem_of_cons in Hk as [->|Hk]; done.
Qed.

Lemma multipleVersionsGA_fix vle p b : (size b <= 1)%nat -> multipleVersionsGA vle {[p := b]} = Ret {[p := b]}.
Proof.
  intros Hb. unfold multipleVersionsGA. rewrite map_to_list_singleton.
  assert (merge_sort Z.le (map fst [(p, b)]) = [p]) as -> by reflexivity.
  simpl. rewrite lookup_singleton_eq. simpl.
  assert (length (map fst (map_to_list b)) = size b) as Hlen.
  { by rewrite length_map, length_map_to_list. }
  assert ((1 <? length (map fst (map_to_list b)))%nat = false) as -> by (apply Nat.ltb_ge; lia).
  assert (drop 1 (map fst (map_to_list b)) = []) as ->.
  { apply length_zero_iff_nil. rewrite length_drop. lia. }
  simpl. by rewrite insert_singleton_eq.
Qed.

(** Extra X3 ([Filter._filterMultipleVersions]): when the multiple-version
    filter returns a list, running it again on that list returns the same
    list. *)
Theorem filterMultipleVersions_idempotent rmatch vle config al al' :
  _filterMultipleVersions rmatch vle config al = Ret al' ->
  _filterMultipleVersions rmatch vle config al' = Ret al'.
Proof.
  intros Hrun. unfold _filterMultipleVersions in *. apply updateEachO_id.
  intros ga pm' Hga.
  destruct (updateEachO_lookup _ _ _ Hrun ga) as [[_ Hn]|(pm & Hpm & Hf)]; [congruence|].
  rewrite Hga in Hf.
  destruct (somethingMatch rmatch (getRegExpsFromStrings (multiVersionGAs config) false) ga); [done|].
  apply obind_Ret_inv in Hf as (pm1 & Hmv & Hne). injection Hne as Hne.
  apply nonEmpty_Some in Hne as [-> _].
  destruct (multipleVersionsGA_shape vle pm pm1 Hmv) as (p & b & -> & Hb).
  rewrite multipleVersionsGA_fix by done. simpl. unfold nonEmpty. by rewrite map_size_singleton.
Qed.

Lemma filterMultipleVersions_idempotent_witness :
  let al' := retValue ∅ (_filterMultipleVersions literalMatch lastCharLe singleVersionConfig
                           (_filterDuplicates threeVersionsList)) in
  _filterMultipleVersions literalMatch lastCharLe singleVersionConfig al' = Ret al'.
Proof.
  intros al'.
  apply (filterMultipleVersions_idempotent literalMatch lastCharLe singleVersionConfig
           (_filterDuplicates threeVersionsList) al').
  vm_compute. reflexivity.
Defined.

(** ** Filter._filterExcludedRepositories: the entries removed *)

Section ListFacts.
Local Open Scope list_scope.

Lemma NoDup_flat_map_disj {A B} (f : A -> list B) (l : list A) :
  NoDup l -> (forall x, x ∈ l -> NoDup (f x)) ->
  (forall x y b, x ∈ l -> y ∈ l -> b ∈ f x -> b ∈ f y -> x = y) -> NoDup (flat_map f l).
Proof.
  induction l as [|x l IH]; intros Hnd Hf Hdisj; simpl; [constructor|].
  apply NoDup_cons in Hnd as [Hx Hnd]. apply NoDup_app. split_and!.
  - apply Hf. by left.
  - intros b Hb Hb'. apply flat_map_elem in Hb' as (y & Hy & Hby).
    assert (x = y) as <- by (apply (Hdisj x y b); [left|right|..]; done). done.
  - apply IH; [done| |].
    + intros y Hy. apply Hf. by right.
    + intros y z b Hy Hz. apply Hdisj; by right.
Qed.

Lemma map_flat_map' {A B C} (g : B -> C) (f : A -> list B) (l : list A) :
  map g (flat_map f l) = flat_map (fun x => map g (f x)) l.
Proof. induction l as [|x l IH]; simpl; [done|]. by rewrite map_app, IH. Qed.

Lemma map_to_list_fun {K V} `{Countable K} (m : gmap K V) k v v' :
  (k, v) ∈ map_to_list m -> (k, v') ∈ map_to_list m -> v = v'.
Proof. rewrite !elem_of_map_to_list. congruence. Qed.

End ListFacts.

Lemma length_py_split c s : length (py_split c s) = S (count_char c s).
Proof.
  induction s as [|d s IH]; simpl; [done|].
  destruct (Ascii.eqb d c); simpl; [by rewrite IH|].
  destruct (py_split c s) as [|r rs]; simpl in *; lia.
Qed.

Lemma py_split_two c s : count_char c s = 1%nat -> exists g a, py_split c s = [g; a].
Proof.
  intros H. pose proof (length_py_split c s) as Hl. rewrite H in Hl.
  destruct (py_split c s) as [|g [|a [|? ?]]]; simpl in Hl; try lia. by exists g, a.
Qed.

Lemma py_split_two_join c s g a : py_split c s = [g; a] -> s = g ++ String c "" ++ a.
Proof. intros H. rewrite <- (py_join_split c s), H. reflexivity. Qed.

Lemma look3_Some al ga p v s :
  look3 al ga p v = Some s <-> exists pm vm, al !! ga = Some pm /\ pm !! p = Some vm /\ vm !! v = Some s.
Proof.
  unfold look3, look. split.
  - intros H. destruct (al !! ga) as [pm|]; simpl in H; [|discriminate].
    destruct (pm !! p) as [vm|] eqn:E; simpl in H; [|discriminate]. eauto.
  - intros (pm & vm & -> & Hvm & Hs). simpl. by rewrite Hvm.
Qed.

Lemma deleteFound_step m art p s :
  look3 m (getGA art) p (version art) = Some s ->
  exists m1, deleteFound (Ret m) (art, p) = Ret m1 /\
    (forall ga q v, look3 m1 ga q v =
       if bool_decide ((ga, q, v) = delKey (art, p)) then None else look3 m ga q v) /\
    (forall ga, is_Some (m1 !! ga) -> is_Some (m !! ga)) /\
    (NoEmpty m -> NoEmpty m1).
Proof.
  intros H. apply look3_Some in H as (pm & vm & Hpm & Hvm & Hs).
  unfold deleteFound. simpl. unfold py_get. rewrite Hpm. simpl. rewrite Hvm. simpl. rewrite Hs. simpl.
  set (ga0 := getGA art) in *. set (v0 := version art) in *.
  set (vm' := delete v0 vm).
  set (pm' := if Nat.eqb (size vm') 0 then delete p pm else <[p := vm']> pm).
  assert (forall q v, look pm' q v = if bool_decide ((q, v) = (p, v0)) then None else look pm q v) as Hpm'.
  { intros q v. unfold pm', look. destruct (Nat.eqb_spec (size vm') 0) as [E|E].
    - apply map_size_empty_iff in E. destruct (decide (q = p)) as [->|Hq].
      + rewrite lookup_delete_eq, Hvm. simpl. case_bool_decide as Hqv; [done|].
        assert (v <> v0) as Hv by congruence. rewrite <- (lookup_delete_ne vm v0 v) by congruence.
        fold vm'. by rewrite E, lookup_empty.
      + rewrite lookup_delete_ne by congruence. case_bool_decide; [congruence|done].
    - destruct (decide (q = p)) as [->|Hq].
      + rewrite lookup_insert_eq, Hvm. simpl. unfold vm'. case_bool_decide as Hqv.
        * injection Hqv as ->. apply lookup_delete_eq.
        * apply lookup_delete_ne. congruence.
      + rewrite lookup_insert_ne by congruence. case_bool_decide; [congruence|done]. }
  eexists. split; [reflexivity|]. split_and!.
  - intros ga q v. unfold look3. destruct (decide (ga = ga0)) as [->|Hga].
    + rewrite Hpm. simpl. unfold delKey. simpl. fold ga0 v0.
      assert (look pm' q v = if bool_decide ((ga0, q, v) = (ga0, p, v0)) then None else look pm q v) as Heq.
      { rewrite Hpm'. case_bool_decide as H1; case_bool_decide as H2; try done; congruence. }
      destruct (Nat.eqb_spec (size pm') 0) as [E|E].
      * rewrite lookup_delete_eq. simpl. rewrite <- Heq. apply map_size_empty_iff in E.
        unfold look. by rewrite E, lookup_empty.
      * rewrite lookup_insert_eq. simpl. done.
    + unfold delKey. simpl. fold ga0. case_bool_decide; [congruence|].
      destruct (Nat.eqb (size pm') 0);
        [rewrite lookup_delete_ne by congruence | rewrite lookup_insert_ne by congruence]; done.
  - intros ga. destruct (decide (ga = ga0)) as [->|Hga].
    + intros _. rewrite Hpm. by eexists.
    + destruct (Nat.eqb (size pm') 0);
        [rewrite lookup_delete_ne by congruence | rewrite lookup_insert_ne by congruence]; done.
  - intros Hne ga pm1 Hpm1. destruct (decide (ga = ga0)) as [->|Hga].
    + destruct (Nat.eqb_spec (size pm') 0) as [E|E]; [by rewrite lookup_delete_eq in Hpm1|].
      rewrite lookup_insert_eq in Hpm1. injection Hpm1 as <-. split.
      * intros ->. by rewrite map_size_empty in E.
      * intros q vm1 Hq. unfold pm' in Hq. destruct (Nat.eqb_spec (size vm') 0) as [E'|E'].
        -- destruct (decide (q = p)) as [->|Hqp]; [by rewrite lookup_delete_eq in Hq|].
           rewrite lookup_delete_ne in Hq by congruence. by apply (proj2 (Hne ga0 pm Hpm) q).
        -- destruct (decide (q = p)) as [->|Hqp].
           ++ rewrite lookup_insert_eq in Hq. injection Hq as <-. intros ->. by rewrite map_size_empty in E'.
           ++ rewrite lookup_insert_ne in Hq by congruence. by apply (proj2 (Hne ga0 pm Hpm) q).
    + apply (Hne ga pm1). destruct (Nat.eqb (size pm') 0);
        [rewrite lookup_delete_ne in Hpm1 by congruence | rewrite lookup_insert_ne in Hpm1 by congruence]; done.
Qed.

Lemma deleteFound_fold dels m :
  NoDup (map delKey dels) ->
  (forall x, x ∈ dels -> exists s, look3 m (delKey x).1.1 (delKey x).1.2 (delKey x).2 = Some s) ->
  exists m', foldl (deleteFound) (Ret m) dels = Ret m' /\
    (forall ga q v, look3 m' ga q v =
       if bool_decide ((ga, q, v) ∈ map delKey dels) then None else look3 m ga q v) /\
    (forall ga, is_Some (m' !! ga) -> is_Some (m !! ga)) /\
    (NoEmpty m -> NoEmpty m').
Proof.
  revert m. induction dels as [|[art p] dels IH]; intros m Hnd Hin.
  { exists m. split_and!; try done. }
  change (map delKey ((art, p) :: dels)) with (delKey (art, p) :: map delKey dels) in *.
  change (foldl deleteFound (Ret m) ((art, p) :: dels)) with (foldl deleteFound (deleteFound (Ret m) (art, p)) dels).
  apply NoDup_cons in Hnd as [Hx Hnd].
  destruct (Hin (art, p)) as [s Hs]; [left|].
  destruct (deleteFound_step m art p s Hs) as (m1 & -> & Hl1 & Hk1 & Hn1).
  destruct (IH m1) as (m' & -> & Hl' & Hk' & Hn'); [done| |].
  { intros y Hy. destruct (Hin y) as [t Ht]; [by right|]. exists t. rewrite Hl1.
    case_bool_decide as Heq; [|done]. exfalso. apply Hx. rewrite <- Heq.
    apply list_elem_of_fmap. exists y. split; [|done]. by destruct (delKey y) as [[? ?] ?]. }
  exists m'. split_and!; [done| | |].
  - intros ga q v. rewrite Hl', Hl1.
    destruct (decide ((ga, q, v) ∈ map delKey dels)) as [H1|H1].
    + rewrite (bool_decide_eq_true_2 _ H1), bool_decide_eq_true_2; [done|]. by right.
    + rewrite (bool_decide_eq_false_2 _ H1).
      destruct (decide ((ga, q, v) = delKey (art, p))) as [H2|H2].
      * rewrite (bool_decide_eq_true_2 _ H2), bool_decide_eq_true_2; [done|]. rewrite H2. by left.
      * rewrite (bool_decide_eq_false_2 _ H2), bool_decide_eq_false_2; [done|].
        intros H3. apply elem_of_cons in H3 as [H3|H3]; done.
  - intros ga H. by apply Hk1, Hk'.
  - intros H. by apply Hn', Hn1.
Qed.

(** The entries the workers report for one group:artifact [groupId:artifactId]. *)
Lemma delArtifacts_eq gavExists config al :
  (forall ga pm, al !! ga = Some pm -> exists g a, py_split ":" ga = [g; a]) ->
  delArtifacts gavExists config al = Ret (alDels gavExists config al).
Proof.
  intros Hal. unfold delArtifacts, alDels.
  assert (forall x, x ∈ map_to_list al -> exists g a, py_split ":" x.1 = [g; a]) as Hl.
  { intros [ga pm] Hin. apply elem_of_map_to_list in Hin. by apply (Hal ga pm). }
  revert Hl. generalize (map_to_list al) as l. intros l Hl.
  match goal with |- foldl ?F (Ret []) l = _ =>
    enough (forall acc, foldl F (Ret acc) l = Ret (app acc (flat_map (fun gapm : string * PriorityMap =>
              match py_split ":" gapm.1 with
              | [g; a] => gaDels gavExists config g a gapm.2
              | _ => []
              end) l))) as H by apply H end.
  induction l as [|[ga pm] l IH]; intros acc; simpl.
  { by rewrite app_nil_r. }
  destruct (Hl (ga, pm)) as (g & a & Hs); [left|]. simpl in Hs. rewrite Hs. simpl.
  rewrite IH; [|intros x Hx; apply Hl; by right]. f_equal. rewrite app_assoc. reflexivity.
Qed.

Lemma gaDels_elem gavExists config g a pm x :
  x ∈ gaDels gavExists config g a pm <->
  exists p vm v s, pm !! p = Some vm /\ vm !! v = Some s /\
    x = (mkMavenArtifact g a (Some "pom") v "", p) /\
    artifactInRepos gavExists (excludedRepositories config) (mkMavenArtifact g a (Some "pom") v "") = true.
Proof.
  unfold gaDels. rewrite flat_map_elem. split.
  - intros ([p vm] & Hin & H). apply flat_map_elem in H as ([v s] & Hin2 & H). simpl in H.
    destruct (artifactInRepos gavExists _ _) eqn:E; [|by apply elem_of_nil in H].
    apply list_elem_of_singleton in H as ->.
    apply elem_of_map_to_list in Hin. apply elem_of_map_to_list in Hin2. exists p, vm, v, s. done.
  - intros (p & vm & v & s & Hp & Hv & -> & Hf). exists (p, vm). split; [by apply elem_of_map_to_list|].
    apply flat_map_elem. exists (v, s). split; [by apply elem_of_map_to_list|]. simpl. rewrite Hf. by left.
Qed.

Lemma gaDels_NoDup gavExists config g a pm : NoDup (map delKey (gaDels gavExists config g a pm)).
Proof.
  unfold gaDels. rewrite map_flat_map'. apply NoDup_flat_map_disj; [apply NoDup_map_to_list| |].
  - intros [p vm] _. rewrite map_flat_map'. apply NoDup_flat_map_disj; [apply NoDup_map_to_list| |].
    + intros [v s] _. simpl. destruct (artifactInRepos gavExists _ _); simpl; [apply NoDup_singleton|apply NoDup_nil_2].
    + intros [v s] [v' s'] b H1 H2 Hb Hb'. simpl in Hb, Hb'.
      destruct (artifactInRepos _ _ (mkMavenArtifact g a _ v _)); [|by apply elem_of_nil in Hb].
      destruct (artifactInRepos _ _ (mkMavenArtifact g a _ v' _)); [|by apply elem_of_nil in Hb'].
      simpl in Hb, Hb'. apply list_elem_of_singleton in Hb, Hb'. rewrite Hb in Hb'.
      unfold delKey in Hb'. simpl in Hb'. injection Hb' as <-. f_equal. by apply (map_to_list_fun vm v).
  - intros [p vm] [p' vm'] b H1 H2 Hb Hb'.
    assert (forall q wm, b ∈ map delKey (let '(priority, vm) := (q, wm) in
              flat_map (fun vs : string * ArtifactSpec =>
                let artifact := mkMavenArtifact g a (Some "pom") vs.1 "" in
                if artifactInRepos gavExists (excludedRepositories config) artifact
                then [(artifact, priority)] else []) (map_to_list vm)) -> b.1.2 = q) as Hq.
    { intros q wm Hbq. apply list_elem_of_fmap in Hbq as (y & -> & Hy). apply flat_map_elem in Hy as (vs & _ & Hy). simpl in Hy.
      destruct (artifactInRepos gavExists (excludedRepositories config) (mkMavenArtifact g a (Some "pom") vs.1 "")); [|by apply elem_of_nil in Hy].
      apply list_elem_of_singleton in Hy as ->. done. }
    pose proof (Hq p vm Hb) as E1. pose proof (Hq p' vm' Hb') as E2. rewrite E1 in E2. subst p'.
    f_equal. by apply (map_to_list_fun pm p).
Qed.

Lemma alDels_elem gavExists config al x :
  x ∈ alDels gavExists config al <->
  exists ga g a pm p vm v s, al !! ga = Some pm /\ py_split ":" ga = [g; a] /\
    pm !! p = Some vm /\ vm !! v = Some s /\
    x = (mkMavenArtifact g a (Some "pom") v "", p) /\
    artifactInRepos gavExists (excludedRepositories config) (mkMavenArtifact g a (Some "pom") v "") = true.
Proof.
  unfold alDels. rewrite flat_map_elem. split.
  - intros ([ga pm] & Hin & H). simpl in H. apply elem_of_map_to_list in Hin.
    destruct (py_split ":" ga) as [|g [|a [|? ?]]] eqn:Hs; try by apply elem_of_nil in H.
    apply gaDels_elem in H as (p & vm & v & s & Hp & Hv & -> & Hf).
    exists ga, g, a, pm, p, vm, v, s. done.
  - intros (ga & g & a & pm & p & vm & v & s & Hga & Hs & Hp & Hv & -> & Hf).
    exists (ga, pm). split; [by apply elem_of_map_to_list|]. simpl. rewrite Hs.
    apply gaDels_elem. exists p, vm, v, s. done.
Qed.

Lemma delKey_pom g a v p : delKey (mkMavenArtifact g a (Some "pom") v "", p) = (g ++ ":" ++ a, p, v).
Proof. done. Qed.

Lemma alDels_NoDup gavExists config al : NoDup (map delKey (alDels gavExists config al)).
Proof.
  unfold alDels. rewrite map_flat_map'. apply NoDup_flat_map_disj; [apply NoDup_map_to_list| |].
  - intros [ga pm] _. simpl. destruct (py_split ":" ga) as [|g [|a [|? ?]]]; try constructor.
    apply gaDels_NoDup.
  - intros [ga pm] [ga' pm'] b H1 H2 Hb Hb'. simpl in Hb, Hb'.
    assert (forall ga pm, b ∈ map delKey (match py_split ":" ga with
              | [g; a] => gaDels gavExists config g a pm | _ => [] end) -> b.1.1 = ga) as Hga.
    { intros ga0 pm0 Hb0. destruct (py_split ":" ga0) as [|g [|a [|? ?]]] eqn:Hs; try by apply elem_of_nil in Hb0.
      apply list_elem_of_fmap in Hb0 as (y & -> & Hy). apply gaDels_elem in Hy as (p & vm & v & s & _ & _ & -> & _).
      rewrite delKey_pom. simpl. symmetry. by apply py_split_two_join. }
    pose proof (Hga ga pm Hb) as E1. pose proof (Hga ga' pm' Hb') as E2. rewrite E1 in E2. subst ga'.
    f_equal. by apply (map_to_list_fun al ga).
Qed.

(** Extra X4 ([Filter._filterExcludedRepositories]): when every
    group:artifact key has exactly one colon, the filter returns a list in
    which a version entry is removed exactly when the pom of that
    group:artifact:version is found in an excluded repository; every other
    entry is kept unchanged, no key is added, and no empty priority or
    version dictionary is left behind. *)
Theorem filterExcludedRepositories_spec gavExists config al :
  (forall ga pm, al !! ga = Some pm -> count_char ":" ga = 1%nat) ->
  exists al', _filterExcludedRepositories gavExists config al = Ret al' /\
    (forall ga g a p v, py_split ":" ga = [g; a] ->
       look3 al' ga p v =
         if artifactInRepos gavExists (excludedRepositories config) (mkMavenArtifact g a (Some "pom") v "")
         then None else look3 al ga p v) /\
    (forall ga, is_Some (al' !! ga) -> is_Some (al !! ga)) /\
    (NoEmpty al -> NoEmpty al').
Proof.
  intros Hcol. unfold _filterExcludedRepositories.
  rewrite delArtifacts_eq; [|intros ga pm Hga; apply py_split_two; by apply (Hcol ga pm)]. simpl.
  destruct (deleteFound_fold (alDels gavExists config al) al) as (al' & Hrun & Hl & Hk & Hn).
  { apply alDels_NoDup. }
  { intros x Hx. apply alDels_elem in Hx as (ga & g & a & pm & p & vm & v & s & Hga & Hs & Hp & Hv & -> & _).
    exists s. rewrite delKey_pom. simpl. rewrite <- (py_split_two_join _ _ _ _ Hs).
    apply look3_Some. eauto. }
  exists al'. split_and!; [done| |done|done].
  intros ga g a p v Hs. rewrite Hl.
  destruct (look3 al ga p v) as [s|] eqn:Hlook.
  - destruct (artifactInRepos gavExists _ _) eqn:Hf.
    + rewrite bool_decide_eq_true_2; [done|]. apply list_elem_of_fmap.
      exists (mkMavenArtifact g a (Some "pom") v "", p). split.
      * rewrite delKey_pom. by rewrite <- (py_split_two_join _ _ _ _ Hs).
      * apply alDels_elem. apply look3_Some in Hlook as (pm & vm & Hga & Hp & Hv).
        exists ga, g, a, pm, p, vm, v, s. done.
    + rewrite bool_decide_eq_false_2; [done|]. intros Hin.
      apply list_elem_of_fmap in Hin as (x & Heq & Hx).
      apply alDels_elem in Hx as (ga' & g' & a' & pm & p' & vm & v' & s' & Hga & Hs' & Hp & Hv & -> & Hf').
      rewrite delKey_pom in Heq. injection Heq as Hga' -> ->.
      rewrite <- (py_split_two_join _ _ _ _ Hs') in Hga'. subst ga'. rewrite Hs in Hs'.
      injection Hs' as <- <-. congruence.
  - by case_bool_decide; destruct (artifactInRepos gavExists _ _).
Qed.

Lemma filterExcludedRepositories_spec_witness :
  exists al', _filterExcludedRepositories badRepoHas badRepoConfig threeVersionsList = Ret al' /\
    look3 al' "g:a" 1 "1.1" = None /\ look3 al' "g:a" 1 "1.0" = Some twoTypesSpec.
Proof.
  destruct (filterExcludedRepositories_spec badRepoHas badRepoConfig threeVersionsList)
    as (al' & Hrun & Hlook & _ & _).
  - assert (map_Forall (fun ga (_ : PriorityMap) => count_char ":" ga = 1%nat) threeVersionsList) as HF.
    { refine (bool_decide_eq_true_1 _ _). vm_compute. reflexivity. }
    intros ga pm H. exact (map_Forall_lookup_1 _ _ _ _ HF H).
  - exists al'. split; [exact Hrun|].
    rewrite !(Hlook "g:a" "g" "a") by reflexivity. vm_compute. split; reflexivity.
Defined.

Lemma delArtifacts_index_error gavExists config (l : list (string * PriorityMap)) acc :
  (acc = Raise IndexError \/ exists d, acc = Ret d) ->
  (acc = Raise IndexError \/ exists ga pm, (ga, pm) ∈ l /\ count_char ":" ga = 0%nat) ->
  foldl (fun acc (gapm : string * PriorityMap) =>
           dels ← acc;
           let '(ga, pm) := gapm in
           groupId ← py_index (py_split ":" ga) 0;
           artifactId ← py_index (py_split ":" ga) 1;
           Ret (app dels
                (flat_map (fun (pvm : Z * VersionMap) =>
                  let '(priority, vm) := pvm in
                  flat_map (fun (vs : string * ArtifactSpec) =>
                    let artifact := mkMavenArtifact groupId artifactId (Some "pom") vs.1 "" in
                    if artifactInRepos gavExists (excludedRepositories config) artifact
                    then [(artifact, priority)] else []) (map_to_list vm)) (map_to_list pm))))
        acc l = Raise IndexError.
Proof.
  revert acc. induction l as [|[ga pm] l IH]; intros acc Hacc Hbad; simpl.
  { destruct Hbad as [->|(? & ? & Hin & _)]; [done|by apply elem_of_nil in Hin]. }
  destruct Hacc as [->|[d ->]].
  - apply IH; by left.
  - simpl. destruct (py_split ":" ga) as [|g [|a rest]] eqn:Hs.
    + by apply py_split_nonempty in Hs.
    + simpl. apply IH; by left.
    + simpl. apply IH; [by right; eexists|].
      destruct Hbad as [Hd|(ga' & pm' & Hin & Hc)]; [discriminate|].
      apply elem_of_cons in Hin as [Heq|Hin].
      * injection Heq as -> ->. pose proof (length_py_split ":" ga) as Hl. rewrite Hc, Hs in Hl. simpl in Hl. lia.
      * right. eauto.
Qed.

(** Extra X5 ([Filter._filterExcludedRepositories]): a group:artifact key
    without a colon makes [ga.split(":")[1]] raise [IndexError]. *)
Theorem filterExcludedRepositories_colonless_key gavExists config al ga pm :
  al !! ga = Some pm -> count_char ":" ga = 0%nat ->
  _filterExcludedRepositories gavExists config al = Raise IndexError.
Proof.
  intros Hga Hc. unfold _filterExcludedRepositories, delArtifacts.
  rewrite delArtifacts_index_error; [done|right; by eexists|].
  right. exists ga, pm. split; [by apply elem_of_map_to_list|done].
Qed.

Lemma filterExcludedRepositories_colonless_key_witness :
  _filterExcludedRepositories badRepoHas badRepoConfig {["ga" := {[1%Z := {["1.0" := twoTypesSpec]}]}]} =
  Raise IndexError.
Proof.
  apply (filterExcludedRepositories_colonless_key badRepoHas badRepoConfig _ "ga"
           {[1%Z := {["1.0" := twoTypesSpec]}]}); vm_compute; reflexivity.
Defined.

(** ** ArtifactListBuilder._get_artifact_list: placement of the results *)

Lemma foldl_cons_step {A B} (f : A -> B -> A) a x l : foldl f a (x :: l) = foldl f (f a x) l.
Proof. reflexivity. Qed.








(** ** MavenArtifact: directory paths and POM file names *)









(** ** ArtifactListBuilder._addArtifact, _updateExtensionsAndClassifiers, _filterArtifactsByPatterns, _getPrefixes *)

Lemma lookupListed_cons k k0 sf s rest :
  lookupListed k (((k0, sf), s) :: rest) = if bool_decide (k0 = k) then Some s else lookupListed k rest.
Proof. unfold lookupListed. simpl. by destruct (bool_decide (k0 = k)). Qed.

Lemma lookupListed_app_fresh k l ma sfx s :
  lookupListed ma l = None ->
  lookupListed k (l ++ [((ma, sfx), s)])%list = if bool_decide (ma = k) then Some s else lookupListed k l.
Proof.
  induction l as [|[[k0 sf0] s0] l IH]; intros Hl; simpl.
  - rewrite lookupListed_cons. unfold lookupListed. simpl. by destruct (bool_decide (ma = k)).
  - rewrite !lookupListed_cons. rewrite lookupListed_cons in Hl.
    destruct (decide (k0 = ma)) as [->|Hne].
    + by rewrite bool_decide_eq_true_2 in Hl.
    + rewrite bool_decide_eq_false_2 in Hl by done. rewrite IH by done.
      destruct (decide (k0 = k)) as [->|Hk].
      * rewrite bool_decide_eq_true_2 by done. rewrite bool_decide_eq_false_2 by done. done.
      * rewrite !(bool_decide_eq_false_2 (k0 = k)) by done. done.
Qed.

Lemma addOrMerge_lookup ma sfx spec l l' :
  addOrMerge ma sfx spec l = Ret l' ->
  (forall k, k <> ma -> lookupListed k l' = lookupListed k l) /\
  match lookupListed ma l with
  | None => lookupListed ma l' = Some spec
  | Some old => exists s', merge old spec = Ret s' /\ lookupListed ma l' = Some s'
  end.
Proof.
  revert l'. induction l as [|[[k0 sf0] s0] l IH]; intros l' Hrun; simpl in Hrun.
  - injection Hrun as <-. split.
    + intros k Hk. rewrite lookupListed_cons, bool_decide_eq_false_2 by done. done.
    + rewrite lookupListed_cons, bool_decide_eq_true_2 by done. done.
  - destruct (decide (k0 = ma)) as [->|Hne].
    + rewrite bool_decide_eq_true_2 in Hrun by done.
      apply obind_Ret_inv in Hrun as (s' & Hm & Hr). injection Hr as <-.
      rewrite !lookupListed_cons, !bool_decide_eq_true_2 by done. split; [|by exists s'].
      intros k Hk. rewrite !lookupListed_cons, !bool_decide_eq_false_2 by done. done.
    + rewrite bool_decide_eq_false_2 in Hrun by done.
      apply obind_Ret_inv in Hrun as (rest' & Hm & Hr). injection Hr as <-.
      destruct (IH rest' Hm) as [Hoth Hma]. rewrite !lookupListed_cons, !(bool_decide_eq_false_2 (k0 = ma)) by done.
      split; [|done].
      intros k Hk. rewrite !lookupListed_cons. destruct (bool_decide (k0 = k)); [done|]. by apply Hoth.
Qed.

Lemma containsMain_true_iff s :
  containsMain s = true <-> exists k t, artTypes s !! k = Some t /\ mainType t = true.
Proof.
  unfold containsMain. rewrite existsb_exists. split.
  - intros ([k t] & Hin & Ht). apply list_elem_of_In, elem_of_map_to_list in Hin. eauto.
  - intros (k & t & Hk & Ht). exists (k, t). split; [|done]. apply list_elem_of_In. by apply elem_of_map_to_list.
Qed.

Lemma merge_containsMain self other s' :
  merge self other = Ret s' -> containsMain s' = containsMain self || containsMain other.
Proof.
  unfold merge. destruct (_ && _); [discriminate|].
  destruct (existsb _ _) eqn:Hov; [discriminate|]. intros Hr. injection Hr as <-.
  assert (forall k t, artTypes other !! k = Some t -> artTypes self !! k = None) as Hdisj.
  { intros k t Hk. destruct (artTypes self !! k) eqn:Hs; [|done]. exfalso.
    assert (existsb (fun kv : string * ArtifactType => bool_decide (is_Some (artTypes self !! kv.1)))
              (map_to_list (artTypes other)) = true) as Htrue; [|congruence].
    apply existsb_exists. exists (k, t). split.
    - apply list_elem_of_In. by apply elem_of_map_to_list.
    - apply bool_decide_eq_true_2. simpl. by rewrite Hs. }
  apply Bool.eq_iff_eq_true. rewrite Bool.orb_true_iff, !containsMain_true_iff. simpl. split.
  - intros (k & t & Hk & Ht). apply lookup_union_Some_raw in Hk as [Hk|[_ Hk]]; [right|left]; eauto.
  - intros [(k & t & Hk & Ht)|(k & t & Hk & Ht)]; exists k, t; split; try done.
    + apply lookup_union_Some_raw. right. split; [|done].
      destruct (artTypes other !! k) eqn:Ho; [|done]. by rewrite (Hdisj k a Ho) in Hk.
    + by apply lookup_union_Some_l.
Qed.

Lemma foldl_insert_artType_in l (m0 : gmap string ArtifactType) t :
  NoDup (map artType l) -> t ∈ l ->
  foldl (fun m t => <[artType t := t]> m) m0 l !! artType t = Some t.
Proof.
  revert m0. induction l as [|t0 l IH]; intros m0 Hnd Hin; [by apply elem_of_nil in Hin|].
  simpl in Hnd. apply NoDup_cons in Hnd as [Hnin Hnd]. simpl.
  apply elem_of_cons in Hin as [->|Hin].
  - assert (forall k (m1 : gmap string ArtifactType), (forall t', t' ∈ l -> artType t' <> k) ->
              foldl (fun m t => <[artType t := t]> m) m1 l !! k = m1 !! k) as Hkeep.
    { clear. induction l as [|t1 l IH]; intros k m1 Hk; [done|]. simpl.
      rewrite IH; [|intros t' Ht'; apply Hk; by right].
      rewrite lookup_insert_ne; [done|]. apply Hk. left. }
    rewrite Hkeep; [by rewrite lookup_insert_eq|].
    intros t' Ht' Heq. apply Hnin. rewrite <- Heq. apply list_elem_of_fmap. by exists t'.
  - by apply IH.
Qed.

Lemma foldl_insert_artType_notin l (m0 : gmap string ArtifactType) k :
  (forall t, t ∈ l -> artType t <> k) ->
  foldl (fun m t => <[artType t := t]> m) m0 l !! k = m0 !! k.
Proof.
  revert m0. induction l as [|t1 l IH]; intros m0 Hk; [done|]. simpl.
  rewrite IH; [|intros t' Ht'; apply Hk; by right].
  rewrite lookup_insert_ne; [done|]. apply Hk. left.
Qed.

Section AddArtifact.
Variables (e : gmap string (gset string)) (url0 : string).

Let pomMain :=
  negb ((1 <? size e)%nat && _containsMainArtifact e && bool_decide ("pom" ∈ dom e)).
Let mkType (ec : string * gset string) : ArtifactType :=
  let '(ext, classifiers) := ec in
  mkArtifactType ext ((bool_decide (ext = "pom") && pomMain)
                      || existsb (isMainExtClassifier ext) (elements classifiers)) classifiers.

Lemma addArtifact_types_lookup ext :
  artTypes (specFromList url0 (map mkType (map_to_list e))) !! ext = (fun cls => mkType (ext, cls)) <$> e !! ext.
Proof.
  unfold specFromList. simpl.
  assert (map artType (map mkType (map_to_list e)) = map fst (map_to_list e)) as Hk.
  { rewrite map_map. apply map_ext. by intros [k c]. }
  destruct (e !! ext) as [cls|] eqn:He; simpl.
  - change ext with (artType (mkType (ext, cls))) at 1.
    apply foldl_insert_artType_in; [rewrite Hk; apply NoDup_fst_map_to_list|].
    apply list_elem_of_fmap. exists (ext, cls). split; [done|]. by apply elem_of_map_to_list.
  - rewrite foldl_insert_artType_notin; [by rewrite lookup_empty|].
    intros t Ht Heq. apply list_elem_of_fmap in Ht as ([k c] & -> & Hin).
    apply elem_of_map_to_list in Hin. simpl in Heq. subst k. congruence.
Qed.

Lemma addArtifact_spec_containsMain :
  containsMain (specFromList url0 (map mkType (map_to_list e))) =
  bool_decide ("pom" ∈ dom e) || _containsMainArtifact e.
Proof.
  apply Bool.eq_iff_eq_true. rewrite containsMain_true_iff, Bool.orb_true_iff.
  setoid_rewrite addArtifact_types_lookup.
  assert (_containsMainArtifact e = true <->
          exists ext cls cl, e !! ext = Some cls /\ cl ∈ cls /\ isMainExtClassifier ext cl = true) as Hcma.
  { unfold _containsMainArtifact. rewrite existsb_exists. split.
    - intros ([ext cls] & Hin & Hex). apply list_elem_of_In, elem_of_map_to_list in Hin.
      apply existsb_exists in Hex as (cl & Hcl & Hm). apply list_elem_of_In, elem_of_elements in Hcl.
      exists ext, cls, cl. done.
    - intros (ext & cls & cl & Hext & Hcl & Hm). exists (ext, cls). split.
      + apply list_elem_of_In. by apply elem_of_map_to_list.
      + apply existsb_exists. exists cl. split; [|done]. apply list_elem_of_In. by apply elem_of_elements. }
  split.
  - intros (ext & t & Ht & Hm). destruct (e !! ext) as [cls|] eqn:He; [|done].
    simpl in Ht. injection Ht as <-. simpl in Hm.
    apply Bool.orb_true_iff in Hm as [Hm|Hm].
    + apply andb_true_iff in Hm as [Hp _]. apply bool_decide_eq_true_1 in Hp. subst ext.
      left. apply bool_decide_eq_true_2. apply elem_of_dom. by eexists.
    + right. apply Hcma. apply existsb_exists in Hm as (cl & Hcl & Hm).
      apply list_elem_of_In, elem_of_elements in Hcl. exists ext, cls, cl. done.
  - intros [Hp|Hc].
    + destruct (Bool.bool_dec (_containsMainArtifact e) true) as [Hc|Hc].
      * apply Hcma in Hc as (ext & cls & cl & He & Hcl & Hm).
        exists ext, (mkType (ext, cls)). rewrite He. split; [done|]. simpl.
        apply Bool.orb_true_iff. right. apply existsb_exists. exists cl.
        split; [|done]. apply list_elem_of_In. by apply elem_of_elements.
      * apply Bool.not_true_is_false in Hc.
        apply bool_decide_eq_true_1, elem_of_dom in Hp as [cls He].
        exists "pom", (mkType ("pom", cls)). rewrite He. split; [done|]. simpl.
        unfold pomMain. rewrite Hc. simpl. by rewrite andb_false_r.
    + apply Hcma in Hc as (ext & cls & cl & He & Hcl & Hm).
      exists ext, (mkType (ext, cls)). rewrite He. split; [done|]. simpl.
      apply Bool.orb_true_iff. right. apply existsb_exists. exists cl.
      split; [|done]. apply list_elem_of_In. by apply elem_of_elements.
Qed.

End AddArtifact.

(** Extra X9 ([ArtifactListBuilder._addArtifact]): for an artifact not yet
    in the dictionary, a new entry is appended whose spec has the given url,
    no paths, one type per extension with that extension's classifiers, and
    contains a main type exactly when a pom is listed or some
    extension:classifier is a main one. *)
Theorem addArtifact_new artifacts g a v e sfx url0 :
  lookupListed (mkMavenArtifact g a None v "") artifacts = None ->
  exists s, _addArtifact artifacts g a v e sfx url0 =
            Ret (artifacts ++ [((mkMavenArtifact g a None v "", sfx), s)])%list /\
    url s = url0 /\ paths s = [] /\
    (forall ext, classifiers <$> artTypes s !! ext = e !! ext) /\
    containsMain s = bool_decide ("pom" ∈ dom e) || _containsMainArtifact e.
Proof.
  intros Hnone. unfold _addArtifact.
  match goal with |- context [addOrMerge _ _ (specFromList url0 ?L) _] =>
    exists (specFromList url0 L) end.
  split_and!.
  - clear -Hnone. induction artifacts as [|[[k0 sf0] s0] l IH]; [done|]. simpl.
    rewrite lookupListed_cons in Hnone.
    destruct (decide (k0 = mkMavenArtifact g a None v "")) as [->|Hne].
    + by rewrite bool_decide_eq_true_2 in Hnone.
    + rewrite bool_decide_eq_false_2 in Hnone |- * by done. by rewrite IH.
  - done.
  - done.
  - intros ext. rewrite addArtifact_types_lookup. by destruct (e !! ext).
  - apply addArtifact_spec_containsMain.
Qed.

Lemma addArtifact_new_witness :
  exists s, _addArtifact [] "g" "a" "1.0" pomAndJarClassifiers None "http://repo/" =
            Ret [((gaArtifact, None), s)] /\ containsMain s = true.
Proof.
  destruct (addArtifact_new [] "g" "a" "1.0" pomAndJarClassifiers None "http://repo/")
    as (s & Hrun & _ & _ & _ & Hm).
  - reflexivity.
  - exists s. split; [exact Hrun|]. rewrite Hm. vm_compute. reflexivity.
Defined.

(** Extra X10 ([ArtifactListBuilder._addArtifact]): when adding succeeds,
    the artifact is in the dictionary, its spec contains a main type exactly
    when the previous spec did or a pom or a main extension:classifier was
    added, and the entries of all other artifacts are unchanged. *)
Theorem addArtifact_containsMain artifacts g a v e sfx url0 artifacts' :
  _addArtifact artifacts g a v e sfx url0 = Ret artifacts' ->
  exists s, lookupListed (mkMavenArtifact g a None v "") artifacts' = Some s /\
    containsMain s = default false (containsMain <$> lookupListed (mkMavenArtifact g a None v "") artifacts)
                     || bool_decide ("pom" ∈ dom e) || _containsMainArtifact e /\
    (forall k, k <> mkMavenArtifact g a None v "" -> lookupListed k artifacts' = lookupListed k artifacts).
Proof.
  unfold _addArtifact. intros Hrun. apply addOrMerge_lookup in Hrun as [Hoth Hma].
  destruct (lookupListed (mkMavenArtifact g a None v "") artifacts) as [old|] eqn:Hold.
  - destruct Hma as (s' & Hm & Hl). exists s'. split_and!; [done| |done].
    rewrite (merge_containsMain _ _ _ Hm), addArtifact_spec_containsMain. simpl.
    by rewrite orb_assoc.
  - eexists. split_and!; [exact Hma| |done]. simpl.
    apply addArtifact_spec_containsMain.
Qed.

Lemma addArtifact_containsMain_witness :
  exists s, lookupListed gaArtifact
              (retValue [] (_addArtifact [((gaArtifact, None), sourcesOnlySpec)] "g" "a" "1.0"
                              {["pom" := {[""]}]} None "http://repo/")) = Some s /\
            containsMain s = true.
Proof.
  destruct (addArtifact_containsMain [((gaArtifact, None), sourcesOnlySpec)] "g" "a" "1.0"
              {["pom" := {[""]}]} None "http://repo/"
              (retValue [] (_addArtifact [((gaArtifact, None), sourcesOnlySpec)] "g" "a" "1.0"
                              {["pom" := {[""]}]} None "http://repo/"))) as (s & Hl & Hm & _).
  - vm_compute. reflexivity.
  - exists s. split; [exact Hl|]. rewrite Hm. vm_compute. reflexivity.
Defined.

Section UpdateExt.
Variables (allClassifiers : bool) (addClassifiers : list (string * string))
          (classifiersFilter : option (gmap string (gset string))).

Definition filterHas (ext cl : string) : bool :=
  match classifiersFilter with
  | Some cf => negb (bool_decide (cf = ∅))
               && existsb (fun ac : string * gset string => bool_decide (ext = ac.1) && bool_decide (cl ∈ ac.2))
                          (map_to_list cf)
  | None => false
  end.

Lemma filterHas_true ext cl :
  filterHas ext cl = true <-> exists cf acs, classifiersFilter = Some cf /\ cf !! ext = Some acs /\ cl ∈ acs.
Proof.
  unfold filterHas. destruct classifiersFilter as [cf|]; [|split; [done|by intros (? & ? & ? & _)]].
  rewrite andb_true_iff, existsb_exists. split.
  - intros [_ ([k acs] & Hin & Hb)]. apply andb_true_iff in Hb as [H1 H2].
    apply bool_decide_eq_true_1 in H1, H2. simpl in *. subst k.
    apply list_elem_of_In, elem_of_map_to_list in Hin. by exists cf, acs.
  - intros (cf' & acs & Heq & Hk & Hcl). injection Heq as <-. split.
    + apply negb_true_iff, bool_decide_eq_false_2. intros ->. by rewrite lookup_empty in Hk.
    + exists (ext, acs). split; [apply list_elem_of_In; by apply elem_of_map_to_list|].
      apply andb_true_iff. split; by apply bool_decide_eq_true_2.
Qed.

Lemma inAddClassifiers_true ext cl :
  inAddClassifiers addClassifiers ext cl = true <-> (ext, cl) ∈ addClassifiers.
Proof.
  unfold inAddClassifiers. rewrite existsb_exists. split.
  - intros ([t c] & Hin & Hb). apply andb_true_iff in Hb as [H1 H2].
    apply bool_decide_eq_true_1 in H1, H2. simpl in *. subst. by apply list_elem_of_In.
  - intros Hin. exists (ext, cl). split; [by apply list_elem_of_In|].
    apply andb_true_iff. split; by apply bool_decide_eq_true_2.
Qed.

Definition allowedb (ext cl : string) : bool :=
  bool_decide (cl = "") || inAddClassifiers addClassifiers ext cl || filterHas ext cl.

Lemma allowedb_true ext cl :
  allowedb ext cl = true <->
  cl = "" \/ (ext, cl) ∈ addClassifiers \/
  exists cf acs, classifiersFilter = Some cf /\ cf !! ext = Some acs /\ cl ∈ acs.
Proof.
  unfold allowedb. rewrite !orb_true_iff, inAddClassifiers_true, filterHas_true, bool_decide_eq_true.
  tauto.
Qed.

Definition innerStep (extension : string) (d : gmap string (gset string)) (classifier : string) :=
  if bool_decide (classifier = "") then addClassifier d extension classifier
  else if inAddClassifiers addClassifiers extension classifier then addClassifier d extension classifier
  else match classifiersFilter with
       | Some cf =>
           if negb (bool_decide (cf = ∅))
              && existsb (fun ac : string * gset string =>
                            bool_decide (extension = ac.1) && bool_decide (classifier ∈ ac.2))
                         (map_to_list cf)
           then addClassifier d extension classifier else d
       | None => d
       end.

Lemma innerStep_eq extension d classifier :
  innerStep extension d classifier =
  if allowedb extension classifier then addClassifier d extension classifier else d.
Proof.
  unfold innerStep, allowedb, filterHas.
  destruct (bool_decide (classifier = "")); [done|].
  destruct (inAddClassifiers _ _ _); [done|]. simpl. by destruct classifiersFilter.
Qed.

Lemma inner_fold extension l d :
  (forall ext, ext <> extension -> foldl (innerStep extension) d l !! ext = d !! ext) /\
  (forall cl, cl ∈ default ∅ (foldl (innerStep extension) d l !! extension) <->
              cl ∈ default ∅ (d !! extension) \/ (cl ∈ l /\ allowedb extension cl = true)) /\
  (is_Some (foldl (innerStep extension) d l !! extension) <->
   is_Some (d !! extension) \/ exists cl, cl ∈ l /\ allowedb extension cl = true).
Proof.
  revert d. induction l as [|c l IH]; intros d.
  { simpl. split_and!; [done| |]; intros; [split; [by left|intros [H|[H _]]; [done|by apply elem_of_nil in H]]|].
    split; [by left|intros [H|(? & H & _)]; [done|by apply elem_of_nil in H]]. }
  change (foldl (innerStep extension) d (c :: l)) with (foldl (innerStep extension) (innerStep extension d c) l).
  destruct (IH (innerStep extension d c)) as (H1 & H2 & H3).
  rewrite innerStep_eq in H1, H2, H3 |- *. split_and!.
  - intros ext Hne. rewrite H1 by done. destruct (allowedb extension c); [|done].
    unfold addClassifier. by rewrite lookup_insert_ne.
  - intros cl. rewrite H2. destruct (allowedb extension c) eqn:Hc.
    + unfold addClassifier. rewrite lookup_insert_eq. simpl. rewrite elem_of_union, elem_of_singleton, elem_of_cons.
      split.
      * intros [[->|H]|[Hin Ha]]; [right; split; [by left|done]|by left|right; split; [by right|done]].
      * intros [H|[[->|Hin] Ha]]; [by left; right|by left; left|by right].
    + rewrite elem_of_cons. split.
      * intros [H|[Hin Ha]]; [by left|right; split; [by right|done]].
      * intros [H|[[->|Hin] Ha]]; [by left|congruence|by right].
  - rewrite H3. destruct (allowedb extension c) eqn:Hc.
    + unfold addClassifier. rewrite lookup_insert_eq. split; [intros _; right; exists c; split; [left|done]|by left].
    + split.
      * intros [H|(cl & Hin & Ha)]; [by left|right; exists cl; split; [by right|done]].
      * intros [H|(cl & Hin & Ha)]; [by left|]. apply elem_of_cons in Hin as [->|Hin]; [congruence|].
        right. by exists cl.
Qed.

End UpdateExt.

(** Extra X11 ([ArtifactListBuilder._updateExtensionsAndClassifiers]): after
    the update, the classifiers of an extension are its previous ones plus
    those of [u] that are allowed: all when all classifiers are configured,
    otherwise the empty classifier, the configured additional classifiers and
    those of the classifier filter; an extension gets an entry only when it
    had one or [u] brings an allowed classifier for it. *)
Theorem updateExtensionsAndClassifiers_spec allClassifiers addClassifiers d u classifiersFilter ext :
  let d' := _updateExtensionsAndClassifiers allClassifiers addClassifiers d u classifiersFilter in
  let allowed cl := allClassifiers = true \/ cl = "" \/ (ext, cl) ∈ addClassifiers \/
        exists cf acs, classifiersFilter = Some cf /\ cf !! ext = Some acs /\ cl ∈ acs in
  (forall cl, cl ∈ default ∅ (d' !! ext) <->
              cl ∈ default ∅ (d !! ext) \/ exists cls, u !! ext = Some cls /\ cl ∈ cls /\ allowed cl) /\
  (is_Some (d' !! ext) <->
   is_Some (d !! ext) \/
   exists cls, u !! ext = Some cls /\ (allClassifiers = true \/ exists cl, cl ∈ cls /\ allowed cl)).
Proof.
  intros d' allowed. unfold d'.
  assert (forall L (d0 : gmap string (gset string)),
    (forall cl, cl ∈ default ∅ (foldl (fun d (ec : string * gset string) =>
           let '(extension, classifiers) := ec in
           if allClassifiers then
             <[extension := default ∅ (d !! extension) ∪ classifiers]> d
           else foldl (innerStep addClassifiers classifiersFilter extension) d (elements classifiers)) d0 L !! ext) <->
       cl ∈ default ∅ (d0 !! ext) \/ exists cls, (ext, cls) ∈ L /\ cl ∈ cls /\ allowed cl) /\
    (is_Some (foldl (fun d (ec : string * gset string) =>
           let '(extension, classifiers) := ec in
           if allClassifiers then
             <[extension := default ∅ (d !! extension) ∪ classifiers]> d
           else foldl (innerStep addClassifiers classifiersFilter extension) d (elements classifiers)) d0 L !! ext) <->
       is_Some (d0 !! ext) \/
       exists cls, (ext, cls) ∈ L /\ (allClassifiers = true \/ exists cl, cl ∈ cls /\ allowed cl))) as Hfold.
  { induction L as [|[e0 cls0] L IH]; intros d0; simpl.
    { split; [intros cl; split; [by left|intros [H|(? & H & _)]; [done|by apply elem_of_nil in H]]|].
      split; [by left|intros [H|(? & H & _)]; [done|by apply elem_of_nil in H]]. }
    destruct (IH (if allClassifiers then <[e0 := default ∅ (d0 !! e0) ∪ cls0]> d0
                  else foldl (innerStep addClassifiers classifiersFilter e0) d0 (elements cls0))) as [IH1 IH2].
    assert (allowed_nc : forall cl, allClassifiers = false ->
              allowed cl <-> allowedb addClassifiers classifiersFilter ext cl = true).
    { intros cl Hf. unfold allowed. rewrite allowedb_true, Hf. split; [intros [H|H]; [done|exact H]|by right]. }
    split.
    - intros cl. rewrite IH1. clear IH1 IH2.
      destruct (decide (e0 = ext)) as [->|Hne].
      + destruct allClassifiers eqn:Hall.
        * rewrite lookup_insert_eq. simpl. rewrite elem_of_union. split.
          -- intros [[H|H]|(cls & Hin & Hcl & Ha)]; [by left|right; exists cls0; split; [left|split; [done|by left]]|].
             right. exists cls. split; [by right|done].
          -- intros [H|(cls & Hin & Hcl & Ha)]; [by left; left|].
             apply elem_of_cons in Hin as [Heq|Hin]; [injection Heq as <-; by left; right|].
             right. by exists cls.
        * destruct (inner_fold addClassifiers classifiersFilter ext (elements cls0) d0) as (_ & Hc & _).
          rewrite Hc, elem_of_elements. split.
          -- intros [[H|[Hin Ha]]|(cls & Hin & Hcl & Ha)]; [by left| |].
             ++ right. exists cls0. split_and!; [left|done|by apply allowed_nc].
             ++ right. exists cls. split; [by right|done].
          -- intros [H|(cls & Hin & Hcl & Ha)]; [by left; left|].
             apply elem_of_cons in Hin as [Heq|Hin].
             ++ injection Heq as <-. left. right. split; [done|]. by apply allowed_nc.
             ++ right. by exists cls.
      + assert ((if allClassifiers then <[e0 := default ∅ (d0 !! e0) ∪ cls0]> d0
                 else foldl (innerStep addClassifiers classifiersFilter e0) d0 (elements cls0)) !! ext = d0 !! ext) as ->.
        { destruct allClassifiers; [by rewrite lookup_insert_ne|].
          destruct (inner_fold addClassifiers classifiersFilter e0 (elements cls0) d0) as (Hk & _). by apply Hk. }
        split.
        * intros [H|(cls & Hin & Hcl & Ha)]; [by left|right; exists cls; split; [by right|done]].
        * intros [H|(cls & Hin & Hcl & Ha)]; [by left|]. apply elem_of_cons in Hin as [Heq|Hin]; [congruence|].
          right. by exists cls.
    - rewrite IH2. clear IH1 IH2.
      destruct (decide (e0 = ext)) as [->|Hne].
      + destruct allClassifiers eqn:Hall.
        * rewrite lookup_insert_eq. split; [intros _; right; exists cls0; split; [left|by left]|by left].
        * destruct (inner_fold addClassifiers classifiersFilter ext (elements cls0) d0) as (_ & _ & Hs).
          rewrite Hs. split.
          -- intros [[H|(cl & Hin & Ha)]|(cls & Hin & Hx)]; [by left| |].
             ++ right. exists cls0. split; [left|]. right. exists cl. split; [by apply elem_of_elements|by apply allowed_nc].
             ++ right. exists cls. split; [by right|done].
          -- intros [H|(cls & Hin & Hx)]; [by left; left|].
             apply elem_of_cons in Hin as [Heq|Hin].
             ++ injection Heq as <-. destruct Hx as [Hx|(cl & Hcl & Ha)]; [done|].
                left. right. exists cl. split; [by apply elem_of_elements|by apply allowed_nc].
             ++ right. by exists cls.
      + assert ((if allClassifiers then <[e0 := default ∅ (d0 !! e0) ∪ cls0]> d0
                 else foldl (innerStep addClassifiers classifiersFilter e0) d0 (elements cls0)) !! ext = d0 !! ext) as ->.
        { destruct allClassifiers; [by rewrite lookup_insert_ne|].
          destruct (inner_fold addClassifiers classifiersFilter e0 (elements cls0) d0) as (Hk & _). by apply Hk. }
        split.
        * intros [H|(cls & Hin & Hx)]; [by left|right; exists cls; split; [by right|done]].
        * intros [H|(cls & Hin & Hx)]; [by left|]. apply elem_of_cons in Hin as [Heq|Hin]; [congruence|].
          right. by exists cls. }
  assert (_updateExtensionsAndClassifiers allClassifiers addClassifiers d u classifiersFilter =
    foldl (fun d (ec : string * gset string) =>
           let '(extension, classifiers) := ec in
           if allClassifiers then
             <[extension := default ∅ (d !! extension) ∪ classifiers]> d
           else foldl (innerStep addClassifiers classifiersFilter extension) d (elements classifiers))
      d (map_to_list u)) as -> by reflexivity.
  destruct (Hfold (map_to_list u) d) as [H1 H2]. split.
  - intros cl. rewrite H1. setoid_rewrite elem_of_map_to_list. done.
  - rewrite H2. setoid_rewrite elem_of_map_to_list. done.
Qed.

Section GatcvFilter.
Variables (allClassifiers : bool) (addClassifiers : list (string * string))
          (artifact : MavenArtifact) (artSpec : ArtifactSpec) (gatcvs : list string).








End GatcvFilter.




Lemma prefix_refl s : String.prefix s s = true.
Proof.
  induction s as [|c s IH]; [done|].
  change (String.prefix (String c s) (String c s)) with (if ascii_dec c c then String.prefix s s else false).
  by destruct (ascii_dec c c).
Qed.

Lemma prefix_trans a b c : String.prefix a b = true -> String.prefix b c = true -> String.prefix a c = true.
Proof.
  revert b c. induction a as [|x a IH]; intros b c Hab Hbc; [by destruct c|].
  destruct b as [|y b]; [done|]. destruct c as [|z c]; [done|].
  change (String.prefix (String x a) (String y b)) with (if ascii_dec x y then String.prefix a b else false) in Hab.
  change (String.prefix (String y b) (String z c)) with (if ascii_dec y z then String.prefix b c else false) in Hbc.
  change (String.prefix (String x a) (String z c)) with (if ascii_dec x z then String.prefix a c else false).
  destruct (ascii_dec x y) as [<-|]; [|done]. destruct (ascii_dec x z) as [<-|Hne]; [|by destruct (ascii_dec x z)].
  by apply (IH b).
Qed.

Lemma existsb_prefix_elements pattern (X : gset string) :
  existsb (fun prefix => String.prefix prefix pattern) (elements X) = true <->
  exists q, q ∈ X /\ String.prefix q pattern = true.
Proof.
  rewrite existsb_exists. split.
  - intros (q & Hq & Hp). apply list_elem_of_In, elem_of_elements in Hq. eauto.
  - intros (q & Hq & Hp). exists q. split; [|done]. apply list_elem_of_In. by apply elem_of_elements.
Qed.

Lemma prefixLoop_mono order P : P ⊆ prefixLoop order P.
Proof.
  revert P. induction order as [|pattern rest IH]; intros P; simpl; [done|].
  destruct (existsb _ _); [apply IH|]. etransitivity; [|apply IH]. set_solver.
Qed.

(** Extra X14 ([ArtifactListBuilder._getPrefixes], last loop): the prefixes
    kept are among the patterns, none is a prefix of another, and every
    pattern starts with one of them. *)
Theorem prefixLoop_spec order :
  let prefixes := prefixLoop order ∅ in
  prefixes ⊆ list_to_set order /\
  (forall p q, p ∈ prefixes -> q ∈ prefixes -> String.prefix p q = true -> p = q) /\
  (forall x, x ∈ order -> exists p, p ∈ prefixes /\ String.prefix p x = true).
Proof.
  intros prefixes. unfold prefixes.
  assert (forall order P, prefixLoop order P ⊆ P ∪ list_to_set order) as Hsub.
  { clear. induction order as [|pattern rest IH]; intros P; simpl; [set_solver|].
    destruct (existsb _ _); rewrite IH; set_solver. }
  assert (forall order P,
            (forall p q, p ∈ P -> q ∈ P -> String.prefix p q = true -> p = q) ->
            (forall q x, q ∈ P -> x ∈ order -> String.prefix x q = false) ->
            forall p q, p ∈ prefixLoop order P -> q ∈ prefixLoop order P -> String.prefix p q = true -> p = q)
    as Hanti.
  { clear. induction order as [|pattern rest IH]; intros P HP Hfresh; simpl; [done|].
    destruct (existsb _ _) eqn:Hex.
    - apply IH; [done|]. intros q x Hq Hx. apply Hfresh; [done|by right].
    - apply IH.
      + intros p q Hp Hq Hpq.
        apply elem_of_union in Hp as [Hp|Hp]; apply elem_of_union in Hq as [Hq|Hq].
        * apply elem_of_singleton in Hp, Hq. congruence.
        * apply elem_of_singleton in Hp. subst p. rewrite (Hfresh q pattern Hq) in Hpq; [done|left].
        * apply elem_of_singleton in Hq. subst q. exfalso.
          assert (existsb (fun prefix => String.prefix prefix pattern) (elements (list_to_set rest ∪ P)) = true)
            as Ht by (apply existsb_prefix_elements; exists p; split; [set_solver|done]). congruence.
        * by apply HP.
      + intros q x Hq Hx. apply elem_of_union in Hq as [Hq|Hq].
        * apply elem_of_singleton in Hq as ->. destruct (String.prefix x pattern) eqn:Hp; [|done].
          exfalso. assert (existsb (fun prefix => String.prefix prefix pattern) (elements (list_to_set rest ∪ P)) = true)
            as Ht by (apply existsb_prefix_elements; exists x; split; [apply elem_of_union_l, elem_of_list_to_set, Hx|done]).
          congruence.
        * apply Hfresh; [done|by right]. }
  assert (forall order P x, x ∈ order -> exists p, p ∈ prefixLoop order P /\ String.prefix p x = true) as Hcov.
  { clear -Hsub. induction order as [|pattern rest IH]; intros P x Hx; [by apply elem_of_nil in Hx|]. simpl.
    destruct (existsb _ _) eqn:Hex.
    - apply elem_of_cons in Hx as [->|Hx]; [|by apply IH].
      apply existsb_prefix_elements in Hex as (q & Hq & Hqp). apply elem_of_union in Hq as [Hq|Hq].
      + apply elem_of_list_to_set in Hq. destruct (IH P q Hq) as (p & Hp & Hpq).
        exists p. split; [done|]. by apply (prefix_trans p q).
      + exists q. split; [by apply prefixLoop_mono|done].
    - apply elem_of_cons in Hx as [->|Hx]; [|by apply IH].
      exists pattern. split; [apply prefixLoop_mono; set_solver|apply prefix_refl]. }
  split_and!.
  - rewrite Hsub. set_solver.
  - apply Hanti; [set_solver|set_solver].
  - intros x Hx. by apply Hcov.
Qed.

(** ** Filter._filterExcludedTypes: one artifact spec *)

Section ExclTypes.
Variable rmatch : RegExp -> string -> bool.
Variables (regExps : list RegExp) (exclTypes : list string) (g a version : string).

Let keep (ext cl : string) : bool :=
  somethingMatch rmatch regExps (getGATCV (mkMavenArtifact g a (Some ext) version cl)).

Lemma excl_classifiers_fold ext l (X : gset string) cl' :
  cl' ∈ foldl (fun cls classifier =>
                 let art := mkMavenArtifact g a (Some ext) version classifier in
                 if somethingMatch rmatch regExps (getGATCV art) then cls
                 else cls ∖ {[classifier]}) X l <->
  cl' ∈ X /\ (cl' ∈ l -> keep ext cl' = true).
Proof.
  revert X. induction l as [|c l IH]; intros X; simpl.
  { split; [intros H; split; [done|intros Hn; by apply elem_of_nil in Hn]|tauto]. }
  rewrite IH. unfold keep. destruct (somethingMatch rmatch regExps _) eqn:Hm.
  - split.
    + intros [HX Hl]. split; [done|]. intros Hin. apply elem_of_cons in Hin as [->|Hin]; [done|by apply Hl].
    + intros [HX Hl]. split; [done|]. intros Hin. apply Hl. by right.
  - rewrite elem_of_difference, elem_of_singleton. split.
    + intros [[HX Hne] Hl]. split; [done|]. intros Hin. apply elem_of_cons in Hin as [->|Hin]; [done|by apply Hl].
    + intros [HX Hl]. split; [split; [done|]|].
      * intros ->. specialize (Hl ltac:(left)). unfold keep in Hl. congruence.
      * intros Hin. apply Hl. by right.
Qed.

End ExclTypes.

(** Extra X15 ([Filter._filterExcludedTypes], one version entry): for a
    group:artifact key with one colon, each excluded type keeps only the
    classifiers whose GATCV matches the whitelist and is dropped when none
    is left; other types are kept as they are; the entry is kept exactly
    when a main type remains. *)
Theorem excludedTypesLeaf_spec rmatch regExps exclTypes ga g a version artSpec :
  py_split ":" ga = [g; a] ->
  exists ats,
    excludedTypesLeaf rmatch regExps exclTypes ga version artSpec =
      Ret (if containsMain (set_artTypes artSpec ats) then Some (set_artTypes artSpec ats) else None) /\
    forall ext, ats !! ext =
      match artTypes artSpec !! ext with
      | Some t =>
          if bool_decide (ext ∈ exclTypes) then
            let cls := filter (fun cl => somethingMatch rmatch regExps
                                 (getGATCV (mkMavenArtifact g a (Some ext) version cl)) = true) (classifiers t) in
            if bool_decide (cls = ∅) then None else Some (set_classifiers t cls)
          else Some t
      | None => None
      end.
Proof.
  intros Hs. unfold excludedTypesLeaf.
  match goal with |- context [foldl ?F (Ret (artTypes artSpec)) _] => set (step := F) end.
  set (cl_of := fun k (t : ArtifactType) =>
         foldl (fun cls classifier =>
                  let art := mkMavenArtifact g a (Some k) version classifier in
                  if somethingMatch rmatch regExps (getGATCV art) then cls
                  else cls ∖ {[classifier]}) (classifiers t) (elements (classifiers t))).
  assert (Hstep : forall ats0 k t, step (Ret ats0) (k, t) =
            Ret (if bool_decide (k ∈ exclTypes) then
                   (if Nat.eqb (size (cl_of k t)) 0 then delete k ats0 else <[k := set_classifiers t (cl_of k t)]> ats0)
                 else ats0)).
  { intros ats0 k t. unfold step, cl_of. cbn beta iota. destruct (bool_decide (k ∈ exclTypes)); [|done].
    unfold unpack2. rewrite Hs. cbn beta iota. simpl. by destruct (Nat.eqb _ 0). }
  assert (Hfold : forall L ats0, NoDup (map fst L) ->
            exists ats', foldl step (Ret ats0) L = Ret ats' /\
              (forall k t, (k, t) ∈ L -> k ∈ exclTypes ->
                 ats' !! k = if Nat.eqb (size (cl_of k t)) 0 then None else Some (set_classifiers t (cl_of k t))) /\
              (forall k, (k ∉ exclTypes \/ forall t, (k, t) ∉ L) -> ats' !! k = ats0 !! k)).
  { clear -Hstep. induction L as [|[k t] L IH]; intros ats0 Hnd.
    { exists ats0. split_and!; [done| |done]. intros k t Hin. by apply elem_of_nil in Hin. }
    simpl in Hnd. apply NoDup_cons in Hnd as [Hnin Hnd].
    rewrite foldl_cons_step, Hstep.
    destruct (IH (if bool_decide (k ∈ exclTypes) then
                   (if Nat.eqb (size (cl_of k t)) 0 then delete k ats0 else <[k := set_classifiers t (cl_of k t)]> ats0)
                 else ats0) Hnd) as (ats' & Hrun & H1 & H2).
    assert (Hk : forall t', (k, t') ∉ L).
    { intros t' Hin. apply Hnin. apply list_elem_of_fmap. by exists (k, t'). }
    exists ats'. split_and!; [done| |].
    - intros k' t' Hin Hex. apply elem_of_cons in Hin as [Heq|Hin]; [|by apply H1].
      injection Heq as -> ->. rewrite H2 by (by right). rewrite bool_decide_eq_true_2 by done.
      destruct (Nat.eqb _ 0); [apply lookup_delete_eq|apply lookup_insert_eq].
    - intros k' Hk'. rewrite H2.
      + destruct (bool_decide (k ∈ exclTypes)) eqn:Hb; [|done].
        apply bool_decide_eq_true_1 in Hb.
        assert (k' <> k) as Hne.
        { intros ->. destruct Hk' as [Hk'|Hk']; [done|]. apply (Hk' t). by left. }
        destruct (Nat.eqb _ 0); [by rewrite lookup_delete_ne|by rewrite lookup_insert_ne].
      + destruct Hk' as [Hk'|Hk']; [by left|right]. intros t' Hin. apply (Hk' t'). by right. }
  destruct (Hfold (map_to_list (artTypes artSpec)) (artTypes artSpec) (NoDup_fst_map_to_list _))
    as (ats & Hrun & H1 & H2).
  rewrite Hrun. simpl. exists ats. split.
  - unfold containsMain. simpl. destruct (existsb _ (map_to_list ats)) eqn:E; simpl.
    + destruct (Nat.eqb (size ats) 0) eqn:Hz; [|done]. apply Nat.eqb_eq, map_size_empty_iff in Hz.
      subst ats. by rewrite map_to_list_empty in E.
    + by rewrite orb_true_r.
  - intros ext. destruct (artTypes artSpec !! ext) as [t|] eqn:Ht.
    + destruct (decide (ext ∈ exclTypes)) as [Hex|Hex].
      * rewrite bool_decide_eq_true_2 by done. rewrite (H1 ext t); [|by apply elem_of_map_to_list|done].
        assert (cl_of ext t = filter (fun cl => somethingMatch rmatch regExps
                   (getGATCV (mkMavenArtifact g a (Some ext) version cl)) = true) (classifiers t)) as Hc.
        { apply set_eq. intros cl. unfold cl_of. rewrite excl_classifiers_fold, elem_of_filter, elem_of_elements.
          tauto. }
        rewrite Hc. cbv zeta.
        destruct (decide (filter (fun cl => somethingMatch rmatch regExps
                   (getGATCV (mkMavenArtifact g a (Some ext) version cl)) = true) (classifiers t) = ∅)) as [He|He].
        -- rewrite bool_decide_eq_true_2 by done. rewrite He. done.
        -- rewrite bool_decide_eq_false_2 by done.
           destruct (Nat.eqb _ 0) eqn:Hz; [|done]. apply Nat.eqb_eq, size_empty_iff in Hz.
           exfalso. apply He. by apply leibniz_equiv.
      * rewrite bool_decide_eq_false_2 by done. rewrite H2 by (by left). done.
    + rewrite H2; [done|]. right. intros t Hin. apply elem_of_map_to_list in Hin. congruence.
Qed.

Lemma excludedTypesLeaf_spec_witness :
  exists ats,
    excludedTypesLeaf literalMatch (getRegExpsFromStrings ["g:a:jar:1.0"] true) ["jar"] "g:a" "1.0" twoTypesSpec =
      Ret (if containsMain (set_artTypes twoTypesSpec ats) then Some (set_artTypes twoTypesSpec ats) else None) /\
    ats !! "jar" = Some (mkArtifactType "jar" true {[""]}).
Proof.
  destruct (excludedTypesLeaf_spec literalMatch (getRegExpsFromStrings ["g:a:jar:1.0"] true) ["jar"]
              "g:a" "g" "a" "1.0" twoTypesSpec) as (ats & Hrun & Hats).
  - reflexivity.
  - exists ats. split; [exact Hrun|]. rewrite Hats. vm_compute. reflexivity.
Defined.
